(** * tmux-adapter: a shallow embedding of the live-session engine

    The development follows the packages of the repository:
    - [Vt]        internal/vt/screen.go: the row renderer and the row diff;
    - [Tmux]      internal/tmux: the pipe-pane manager and the control-channel
                  wrappers;
    - [Agents]    internal/agents: the workdir filter of the registry scan;
    - [Wsbase] and [Wsadapter]: the regex filters and the lifecycle broadcast;
    - [Agentio]   the choice of the paste payload of an uploaded file;
    - [Main]      the command line of the adapter binary.

    Go strings and byte slices are Rocq strings (one [ascii] per byte), Go
    [int], [rune] and [uint32] values are integers in [Z], Go maps are stdpp
    finite maps and Go sets (maps to [struct{}]) are stdpp finite sets. *)

From Stdlib Require Import ZArith Ascii String List Lia Bool.
From stdpp Require Import gmap strings list pretty.

Open Scope Z_scope.

(** ** Strings shared by the packages *)

(** The byte [b] as a one-byte string. *)
Definition byte_str (b : Z) : string :=
  String (ascii_of_N (Z.to_N b)) EmptyString.

(** [strings.HasSuffix]. *)
Definition HasSuffix (s suffix : string) : Prop :=
  exists front, s = front +:+ suffix.

(** [strings.HasPrefix], as a proposition; the executable version is
    [String.prefix]. *)
Definition HasPrefix (s pre : string) : Prop :=
  exists rest, s = pre +:+ rest.

(** * Package vt: the terminal screen *)
Module Vt.

(** Glyph mode bits of screen.go (they mirror the emulator's attribute
    bits). *)
Definition modeBold : Z := 4.
Definition modeUnderline : Z := 2.
Definition modeItalic : Z := 16.

(** The emulator's default colours ([vt10x.DefaultFG], [vt10x.DefaultBG]):
    the two colour values just above the 24-bit range. *)
Definition DefaultFG : Z := Z.shiftl 1 24.
Definition DefaultBG : Z := Z.shiftl 1 24 + 1.

(** [vt10x.Glyph]: a cell of the grid. *)
Record Glyph := mkGlyph {
  Char : Z;   (* rune *)
  Mode : Z;   (* attribute bits *)
  FG : Z;     (* vt10x.Color, a uint32 *)
  BG : Z
}.

(** [vt10x.Cursor], reduced to the position the screen reads. *)
Record Cursor := mkCursor { X : Z; Y : Z }.

(** The part of [vt10x.Terminal] that screen.go calls. The emulator is a
    library outside the repository: it is an interface here. *)
Class Terminal (T : Type) := {
  term_New : Z -> Z -> T;
  term_Write : T -> string -> T;
  term_Cell : T -> Z -> Z -> Glyph;
  term_Cursor : T -> Cursor
}.

(** [ScreenUpdate] and [ScreenSnapshot]. *)
Record ScreenUpdate := mkUpdate {
  uRows : gmap Z string;
  uCursorRow : Z;
  uCursorCol : Z
}.

Record ScreenSnapshot := mkSnapshot {
  sRows : gmap Z string;
  sCols : Z;
  sNumRows : Z;
  sCursorRow : Z;
  sCursorCol : Z
}.

(** ** SGR parameters *)

(** [fgSGR]: the SGR parameter(s) of a foreground colour. *)
Definition fgSGR (c : Z) : string :=
  if decide (c = DefaultFG) then "39"
  else if decide (c < 8) then pretty (30 + c)
  else if decide (c < 16) then pretty (90 + c - 8)
  else if decide (c < 256) then "38;5;" +:+ pretty c
  else "38;2;" +:+ pretty (Z.land (Z.shiftr c 16) 255) +:+ ";"
       +:+ pretty (Z.land (Z.shiftr c 8) 255) +:+ ";" +:+ pretty (Z.land c 255).

(** [bgSGR]: the SGR parameter(s) of a background colour. *)
Definition bgSGR (c : Z) : string :=
  if decide (c = DefaultBG) then "49"
  else if decide (c < 8) then pretty (40 + c)
  else if decide (c < 16) then pretty (100 + c - 8)
  else if decide (c < 256) then "48;5;" +:+ pretty c
  else "48;2;" +:+ pretty (Z.land (Z.shiftr c 16) 255) +:+ ";"
       +:+ pretty (Z.land (Z.shiftr c 8) 255) +:+ ";" +:+ pretty (Z.land c 255).

(** ** Writing a rune: [strings.Builder.WriteRune] appends the UTF-8
    encoding, and the encoding of U+FFFD for a value that is no Unicode
    scalar. *)
Definition runeError : string := byte_str 239 +:+ byte_str 191 +:+ byte_str 189.

Definition cont_byte (r : Z) : string := byte_str (Z.lor 128 (Z.land r 63)).

Definition EncodeRune (r : Z) : string :=
  if decide (r < 0) then runeError
  else if decide (r <= 127) then byte_str r
  else if decide (r <= 2047) then
    byte_str (Z.lor 192 (Z.shiftr r 6)) +:+ cont_byte r
  else if decide (55296 <= r <= 57343) then runeError
  else if decide (r <= 65535) then
    byte_str (Z.lor 224 (Z.shiftr r 12)) +:+ cont_byte (Z.shiftr r 6) +:+ cont_byte r
  else if decide (r <= 1114111) then
    byte_str (Z.lor 240 (Z.shiftr r 18)) +:+ cont_byte (Z.shiftr r 12)
      +:+ cont_byte (Z.shiftr r 6) +:+ cont_byte r
  else runeError.

(** ** The style of a cell, as [renderRow] reads it *)
Record Pen := mkPen {
  penFG : Z;
  penBG : Z;
  penBold : bool;
  penItalic : bool;
  penUnderline : bool
}.

#[global] Instance Pen_eq_dec : EqDecision Pen.
Proof. solve_decision. Defined.

Definition defaultPen : Pen := mkPen DefaultFG DefaultBG false false false.

Definition hasMode (cell : Glyph) (bit : Z) : bool :=
  negb (Z.land (Mode cell) bit =? 0).

Definition penOf (cell : Glyph) : Pen :=
  mkPen (FG cell) (BG cell) (hasMode cell modeBold) (hasMode cell modeItalic)
        (hasMode cell modeUnderline).

(** The character of a cell, an empty cell (rune 0) reading as a space. *)
Definition cellChar (cell : Glyph) : Z :=
  if Char cell =? 0 then 32 else Char cell.

(** The test of the first loop of [renderRow]: the cell holds content. *)
Definition nonTrivial (cell : Glyph) : bool :=
  negb (cellChar cell =? 32) || negb (FG cell =? DefaultFG)
  || negb (BG cell =? DefaultBG)
  || negb (Z.land (Mode cell) (Z.lor (Z.lor modeBold modeItalic) modeUnderline) =? 0).

(** The state of the second loop of [renderRow]: the builder, the current
    pen and the [styled] flag. *)
Record Render := mkRender {
  out : string;
  cur : Pen;
  styled : bool
}.

(** [needReset]: the cell drops an attribute of the current pen. *)
Definition needReset (c p : Pen) : bool :=
  (negb (penBold p) && penBold c) || (negb (penItalic p) && penItalic c)
  || (negb (penUnderline p) && penUnderline c)
  || ((penFG p =? DefaultFG) && negb (penFG c =? DefaultFG))
  || ((penBG p =? DefaultBG) && negb (penBG c =? DefaultBG)).

(** The parameters appended after the optional reset, [c] being the pen
    current at that point and [p] the pen of the cell. *)
Definition applyParams (c p : Pen) : list string :=
  (if penBold p && negb (penBold c) then ["1"] else [])
  ++ (if penItalic p && negb (penItalic c) then ["3"] else [])
  ++ (if penUnderline p && negb (penUnderline c) then ["4"] else [])
  ++ (if decide (penFG p = penFG c) then [] else [fgSGR (penFG p)])
  ++ (if decide (penBG p = penBG c) then [] else [bgSGR (penBG p)]).

(** All the parameters of a style change from pen [c] to pen [p]. *)
Definition sgrParams (c p : Pen) : list string :=
  if needReset c p then "0" :: applyParams defaultPen p
  else applyParams c p.

Definition ESC : string := byte_str 27.

(** The escape sequence carrying the parameters [params]. *)
Definition sgrSeq (params : list string) : string :=
  ESC +:+ "[" +:+ String.concat ";" params +:+ "m".

(** The body of the second loop of [renderRow], for one cell. *)
Definition renderCell (st : Render) (cell : Glyph) : Render :=
  let p := penOf cell in
  let st1 :=
    if decide (p = cur st) then st
    else
      let params := sgrParams (cur st) p in
      match params with
      | [] => mkRender (out st) p (styled st)
      | _ => mkRender (out st +:+ sgrSeq params) p true
      end in
  mkRender (out st1 +:+ EncodeRune (cellChar cell)) (cur st1) (styled st1).

Definition penActive (p : Pen) : bool := negb (bool_decide (p = defaultPen)).

Definition resetSeq : string := ESC +:+ "[0m".

(** The escape byte, and what follows the last one in a string. *)
Definition escChar : ascii := ascii_of_N 27.

Fixpoint afterLastESC (s : string) : option string :=
  match s with
  | EmptyString => None
  | String c rest =>
      match afterLastESC rest with
      | Some t => Some t
      | None => if Ascii.eqb c escChar then Some rest else None
      end
  end.

(** The string holds no escape byte. *)
Definition escFree (s : string) : Prop := afterLastESC s = None.

(** A non-empty string without an escape byte. *)
Definition plainPiece (s : string) : Prop := escFree s /\ s <> "".

(** What one cell adds to the builder when the pen before it is [prev]:
    the style change, if the pen changes, and the character. *)
Definition cellPiece (prev : Pen) (cell : Glyph) : string :=
  (if decide (penOf cell = prev) then ""
   else sgrSeq (sgrParams prev (penOf cell)))
  +:+ EncodeRune (cellChar cell).

(** The text of a run of cells, left to right from the pen [prev]. *)
Fixpoint rowBody (prev : Pen) (cells : list Glyph) : string :=
  match cells with
  | [] => ""
  | c :: cs => cellPiece prev c +:+ rowBody (penOf c) cs
  end.



Section Screen.
Context {T : Type} `{Terminal T}.

(** [Screen]: the emulator, the dimensions and the cached rendered rows. *)
Record Screen := mkScreen {
  term : T;
  cols : Z;
  rows : Z;
  prevRows : list string
}.

(** The first loop of [renderRow]: [x] runs from [n - 1] down to 0 and stops
    at the first cell with content; -1 when there is none. *)
Fixpoint findLastCol (t : T) (y : Z) (n : nat) : Z :=
  match n with
  | O => -1
  | S k =>
      if nonTrivial (term_Cell t (Z.of_nat k) y) then Z.of_nat k
      else findLastCol t y k
  end.

(** The cells [0 .. lastCol] of row [y]. *)
Definition rowCells (t : T) (y lastCol : Z) : list Glyph :=
  (fun x => term_Cell t x y) <$> seqZ 0 (lastCol + 1).

(** [Screen.renderRow], on the emulator [t] of a screen [c] columns wide. *)
Definition renderRow (t : T) (c : Z) (y : Z) : string :=
  let lastCol := findLastCol t y (Z.to_nat c) in
  if decide (lastCol < 0) then ""
  else
    let st := foldl renderCell (mkRender "" defaultPen false) (rowCells t y lastCol) in
    if styled st && penActive (cur st) then out st +:+ resetSeq else out st.

(** [NewScreen]: [make([]string, rows)] panics on a negative length. *)
Definition NewScreen (c r : Z) : option Screen :=
  if decide (r < 0) then None
  else Some (mkScreen (term_New c r) c r (replicate (Z.to_nat r) "")).

(** The loop of [Screen.Write] over the rows [ys]: a row whose rendering
    differs from the baseline enters the update and replaces the baseline.
    Indexing [prevRows] out of range panics ([None]). *)
Fixpoint diffRows (t : T) (c : Z) (ys : list Z) (prev : list string)
    (upd : gmap Z string) : option (list string * gmap Z string) :=
  match ys with
  | [] => Some (prev, upd)
  | y :: ys' =>
      let row := renderRow t c y in
      match prev !! Z.to_nat y with
      | None => None
      | Some old =>
          if decide (row = old) then diffRows t c ys' prev upd
          else diffRows t c ys' (<[Z.to_nat y := row]> prev) (<[y := row]> upd)
      end
  end.

(** [Screen.Write]: the new screen and the update, [None] for Go's nil. *)
Definition Write (s : Screen) (data : string) : option (Screen * option ScreenUpdate) :=
  let t := term_Write (term s) data in
  let cursor := term_Cursor t in
  match diffRows t (cols s) (seqZ 0 (rows s)) (prevRows s) ∅ with
  | None => None
  | Some (prev, upd) =>
      let s' := mkScreen t (cols s) (rows s) prev in
      if decide (size upd = 0%nat) then Some (s', None)
      else Some (s', Some (mkUpdate upd (Y cursor) (X cursor)))
  end.

(** The loop of [Screen.Snapshot]: every row enters the snapshot and the
    baseline. *)
Fixpoint snapRows (t : T) (c : Z) (ys : list Z) (prev : list string)
    (snap : gmap Z string) : option (list string * gmap Z string) :=
  match ys with
  | [] => Some (prev, snap)
  | y :: ys' =>
      let row := renderRow t c y in
      if decide (Z.to_nat y < length prev)%nat
      then snapRows t c ys' (<[Z.to_nat y := row]> prev) (<[y := row]> snap)
      else None
  end.

(** [Screen.Snapshot]. *)
Definition Snapshot (s : Screen) : option (Screen * ScreenSnapshot) :=
  let cursor := term_Cursor (term s) in
  match snapRows (term s) (cols s) (seqZ 0 (rows s)) (prevRows s) ∅ with
  | None => None
  | Some (prev, m) =>
      Some (mkScreen (term s) (cols s) (rows s) prev,
            mkSnapshot m (cols s) (rows s) (Y cursor) (X cursor))
  end.

(** The baseline has one entry per row: [NewScreen] establishes it and
    [Write] and [Snapshot] keep it. *)
Definition screen_wf (s : Screen) : Prop :=
  length (prevRows s) = Z.to_nat (rows s).

End Screen.

Arguments Screen T : clear implicits.

(** A teletype: the smallest emulator behind the interface. It prints every
    byte at the cursor in the default style; carriage return and line feed
    move the cursor. The screen is run on it at concrete inputs. *)
Record Tty := mkTty {
  ttyCells : gmap (Z * Z) Glyph;
  ttyCursor : Cursor
}.

Definition blank : Glyph := mkGlyph 32 0 DefaultFG DefaultBG.

Definition ttyPut (t : Tty) (b : Z) : Tty :=
  let c := ttyCursor t in
  if decide (b = 13) then mkTty (ttyCells t) (mkCursor 0 (Y c))
  else if decide (b = 10) then mkTty (ttyCells t) (mkCursor (X c) (Y c + 1))
  else mkTty (<[(X c, Y c) := mkGlyph b 0 DefaultFG DefaultBG]> (ttyCells t))
             (mkCursor (X c + 1) (Y c)).

Fixpoint ttyWrite (t : Tty) (data : string) : Tty :=
  match data with
  | EmptyString => t
  | String b rest => ttyWrite (ttyPut t (Z.of_N (N_of_ascii b))) rest
  end.

#[global] Instance Tty_Terminal : Terminal Tty := {
  term_New := fun _ _ => mkTty ∅ (mkCursor 0 0);
  term_Write := ttyWrite;
  term_Cell := fun t x y => default blank (ttyCells t !! (x, y));
  term_Cursor := ttyCursor
}.

(** A grid given cell by cell, for rows with styles. *)
Definition ttyOfRow (y : Z) (cells : list Glyph) : Tty :=
  mkTty (list_to_map (zip ((fun x => (x, y)) <$> seqZ 0 (Z.of_nat (length cells))) cells))
        (mkCursor 0 0).

(** Carriage return and line feed. *)
Definition crlf : string := String "013" (String "010" EmptyString).

(** A cell holding the first byte of [c], with mode [m] and foreground
    [fg]. *)
Definition cellOf (c : string) (m fg : Z) : Glyph :=
  match c with
  | String a _ => mkGlyph (Z.of_N (N_of_ascii a)) m fg DefaultBG
  | EmptyString => blank
  end.

(** A three-row screen on the teletype after the bytes of "hello". *)
Definition typedScreen : Screen Tty :=
  mkScreen (ttyWrite (mkTty ∅ (mkCursor 0 0)) "hello") 80 3 ["hello"; ""; ""].

End Vt.

(** * Package tmux: the pipe-pane manager *)
Module Tmux.
Import Vt.

(** A Go channel is known by its identity; [make] draws a fresh one. *)
Definition chan := nat.

(** The commands the manager sends on the control channel. *)
Inductive Command :=
  | CmdPipePaneStart (session shellCmd : string)
  | CmdPipePaneStop (session : string).

(** [fmt.Sprintf("/tmp/adapter-%s.pipe", session)]. *)
Definition pipeFilePath (session : string) : string :=
  "/tmp/adapter-" +:+ session +:+ ".pipe".

Section PipePane.
Context {T : Type} `{Terminal T}.

(** [pipeStream]; [cancel] is the identity of the tailer's context. *)
Record pipeStream := mkStream {
  session : string;
  filePath : string;
  screen : Screen T;
  cancel : nat;
  subscribers : gset chan
}.

(** The manager and what it acts on: the streams map, the control channel
    (the commands sent, latest first, and the panes the multiplexer pipes),
    the files on disk, the cancelled tailer contexts and the closed
    channels. *)
Record World := mkWorld {
  streams : gmap string pipeStream;
  cmds : list Command;
  pipes : gset string;
  files : gset string;
  cancelled : gset nat;
  nextCtx : nat;
  closed : gset chan;
  nextChan : chan
}.

(** [NewPipePaneManager], in a world with the files [files0] on disk. *)
Definition NewPipePaneManager (files0 : gset string) : World :=
  mkWorld ∅ [] ∅ files0 ∅ 0%nat ∅ 0%nat.

Definition with_streams (w : World) (m : gmap string pipeStream) : World :=
  mkWorld m (cmds w) (pipes w) (files w) (cancelled w) (nextCtx w) (closed w)
          (nextChan w).

(** Modelled from the spec: [ControlMode.PipePaneStart] (commands.go is not
    among the sources) issues the pipe-pane command for the session; when
    the multiplexer accepts it ([ok]) the pane is piped, otherwise the error
    is returned and no pipe is opened. *)
Definition PipePaneStart (w : World) (s shellCmd : string) (ok : bool) : World :=
  mkWorld (streams w) (CmdPipePaneStart s shellCmd :: cmds w)
          (if ok then {[s]} ∪ pipes w else pipes w)
          (files w) (cancelled w) (nextCtx w) (closed w) (nextChan w).

(** Modelled from the spec: [ControlMode.PipePaneStop] calls pipe-pane with
    no command, which stops the pipe of the session. *)
Definition PipePaneStop (w : World) (s : string) : World :=
  mkWorld (streams w) (CmdPipePaneStop s :: cmds w) (pipes w ∖ {[s]})
          (files w) (cancelled w) (nextCtx w) (closed w) (nextChan w).

(** [os.OpenFile(path, O_CREATE|O_WRONLY|O_APPEND)] followed by [Close]. *)
Definition createFile (w : World) (path : string) : World :=
  mkWorld (streams w) (cmds w) (pipes w) ({[path]} ∪ files w) (cancelled w)
          (nextCtx w) (closed w) (nextChan w).

(** [os.Remove]. *)
Definition removeFile (w : World) (path : string) : World :=
  mkWorld (streams w) (cmds w) (pipes w) (files w ∖ {[path]}) (cancelled w)
          (nextCtx w) (closed w) (nextChan w).

(** [make(chan *vt.ScreenUpdate, 256)]. *)
Definition makeChan (w : World) : chan * World :=
  (nextChan w,
   mkWorld (streams w) (cmds w) (pipes w) (files w) (cancelled w) (nextCtx w)
           (closed w) (S (nextChan w))).

(** [context.WithCancel]. *)
Definition withCancel (w : World) : nat * World :=
  (nextCtx w,
   mkWorld (streams w) (cmds w) (pipes w) (files w) (cancelled w)
           (S (nextCtx w)) (closed w) (nextChan w)).

(** Calling a cancel function. *)
Definition cancelCtx (w : World) (c : nat) : World :=
  mkWorld (streams w) (cmds w) (pipes w) (files w) ({[c]} ∪ cancelled w)
          (nextCtx w) (closed w) (nextChan w).

(** [close] on each channel of [chs]; closing a closed channel panics. *)
Definition closeAll (w : World) (chs : gset chan) : option World :=
  if decide (chs ## closed w)
  then Some (mkWorld (streams w) (cmds w) (pipes w) (files w) (cancelled w)
                     (nextCtx w) (chs ∪ closed w) (nextChan w))
  else None.

(** [PipePaneManager.Subscribe]. [openOk] and [startOk] say whether the file
    can be created and whether the multiplexer accepts the command. The
    outer [None] is a panic, the inner one the error return. *)
Definition Subscribe (w : World) (s : string) (openOk startOk : bool)
    : option (World * option (chan * ScreenSnapshot)) :=
  let '(ch, w) := makeChan w in
  match streams w !! s with
  | Some st =>
      match Snapshot (screen st) with
      | None => None
      | Some (scr, snap) =>
          let st' := mkStream (session st) (filePath st) scr (cancel st)
                              ({[ch]} ∪ subscribers st) in
          Some (with_streams w (<[s := st']> (streams w)), Some (ch, snap))
      end
  | None =>
      let path := pipeFilePath s in
      if negb openOk then Some (w, None)
      else
        let w := createFile w path in
        let w := PipePaneStart w s ("cat >> " +:+ path) startOk in
        if negb startOk then Some (removeFile w path, None)
        else
          match NewScreen 80 24 with
          | None => None
          | Some scr =>
              let '(ctx, w) := withCancel w in
              match Snapshot scr with
              | None => None
              | Some (scr', snap) =>
                  let st := mkStream s path scr' ctx {[ch]} in
                  Some (with_streams w (<[s := st]> (streams w)), Some (ch, snap))
              end
          end
  end.

(** [PipePaneManager.stopStream]. *)
Definition stopStream (w : World) (st : pipeStream) : option World :=
  let w := cancelCtx w (cancel st) in
  let w := PipePaneStop w (session st) in
  match closeAll w (subscribers st) with
  | None => None
  | Some w => Some (removeFile w (filePath st))
  end.

(** [PipePaneManager.Unsubscribe]. *)
Definition Unsubscribe (w : World) (s : string) (ch : chan) : option World :=
  match streams w !! s with
  | None => Some w
  | Some st =>
      let found :=
        if decide (ch ∈ subscribers st)
        then
          match closeAll w {[ch]} with
          | None => None
          | Some w =>
              let st' := mkStream (session st) (filePath st) (screen st)
                                  (cancel st) (subscribers st ∖ {[ch]}) in
              Some (with_streams w (<[s := st']> (streams w)), st')
          end
        else Some (w, st) in
      match found with
      | None => None
      | Some (w, st) =>
          if decide (size (subscribers st) = 0%nat)
          then
            match stopStream w st with
            | None => None
            | Some w => Some (with_streams w (delete s (streams w)))
            end
          else Some w
      end
  end.

(** [PipePaneManager.StopAll], over the streams in the order [l]. *)
Fixpoint stopEach (w : World) (l : list (string * pipeStream)) : option World :=
  match l with
  | [] => Some w
  | (name, st) :: l' =>
      match stopStream w st with
      | None => None
      | Some w => stopEach (with_streams w (delete name (streams w))) l'
      end
  end.

Definition StopAll (w : World) : option World :=
  stopEach w (map_to_list (streams w)).

(** The read goroutine of [tailFile] feeding [data] to the screen of the
    stream of session [s]. *)
Definition tailWrite (w : World) (s : string) (data : string) : option World :=
  match streams w !! s with
  | None => Some w
  | Some st =>
      match Write (screen st) data with
      | None => None
      | Some (scr, _) =>
          let st' := mkStream (session st) (filePath st) scr (cancel st)
                              (subscribers st) in
          Some (with_streams w (<[s := st']> (streams w)))
      end
  end.

(** The calls that drive the manager. *)
Inductive Op :=
  | OpSubscribe (s : string) (openOk startOk : bool)
  | OpUnsubscribe (s : string) (ch : chan)
  | OpStopAll
  | OpTail (s : string) (data : string).

Definition step (w : World) (o : Op) : option World :=
  match o with
  | OpSubscribe s openOk startOk => fst <$> Subscribe w s openOk startOk
  | OpUnsubscribe s ch => Unsubscribe w s ch
  | OpStopAll => StopAll w
  | OpTail s data => tailWrite w s data
  end.

(** The states the manager reaches from a fresh one. *)
Inductive reachable : World -> Prop :=
  | reach_new files0 : reachable (NewPipePaneManager files0)
  | reach_step w o w' : reachable w -> step w o = Some w' -> reachable w'.

(** What holds of every stream of the map. *)
Definition streamOk (w : World) (s : string) (st : pipeStream) : Prop :=
  session st = s
  /\ filePath st = pipeFilePath s
  /\ screen_wf (screen st)
  /\ (subscribers st ## closed w)
  /\ (forall ch, ch ∈ subscribers st -> (ch < nextChan w)%nat)
  /\ (cancel st ∉ cancelled w)
  /\ (cancel st < nextCtx w)%nat.

(** The invariant of the manager, the subscriber count apart. *)
Definition Inv0 (w : World) : Prop :=
  (forall s st, streams w !! s = Some st -> streamOk w s st)
  /\ pipes w = dom (streams w)
  /\ (forall s1 s2 st1 st2, s1 <> s2 ->
        streams w !! s1 = Some st1 -> streams w !! s2 = Some st2 ->
        subscribers st1 ## subscribers st2 /\ cancel st1 <> cancel st2)
  /\ (forall ch, ch ∈ closed w -> (ch < nextChan w)%nat)
  /\ (forall c, c ∈ cancelled w -> (c < nextCtx w)%nat).

(** Every stream of the map has a subscriber. *)
Definition Subscribed (w : World) : Prop :=
  forall s st, streams w !! s = Some st -> subscribers st <> ∅.

Definition Inv (w : World) : Prop := Inv0 w /\ Subscribed w.

(** The pipe-pane of session [s] is active. *)
Definition pipeActive (w : World) (s : string) : Prop := s ∈ pipes w.

(** The manager holds a stream for [s] with at least one subscriber. *)
Definition hasSubscribedStream (w : World) (s : string) : Prop :=
  exists st, streams w !! s = Some st /\ (1 <= size (subscribers st))%nat.

End PipePane.

Arguments pipeStream T : clear implicits.
Arguments World T : clear implicits.

(** The manager after the first subscription to the session agent-1. *)
Definition subscribedWorld : World Tty :=
  match step (NewPipePaneManager ∅) (OpSubscribe "agent-1" true true) with
  | Some w => w
  | None => NewPipePaneManager ∅
  end.

End Tmux.

(** * Package tmux: the control-channel wrappers *)
Module ControlMode.

(** [strings.Contains]. *)
Fixpoint Contains (s sub : string) : bool :=
  String.prefix sub s
  || match s with
     | EmptyString => false
     | String _ rest => Contains rest sub
     end.









End ControlMode.

(** * Package agents: the workdir filter of the registry *)
Module Agents.

(** [filepath.Separator]. *)
Definition pathSeparator : string := "/".

(** Modelled from the spec: the workdir test of [Registry.scan] (registry.go
    is not among the sources): an empty filter passes every pane; otherwise
    the pane's workDir is the filter itself, or starts with the filter
    followed by the path separator. *)
Definition workDirPasses (filter workDir : string) : bool :=
  if decide (filter = "") then true
  else if decide (workDir = filter) then true
  else String.prefix (filter +:+ pathSeparator) workDir.

(** The sessions of a scan that the filter keeps, by name and workDir. *)
Definition scanWorkDirs (filter : string) (panes : list (string * string))
    : list string :=
  fst <$> List.filter (fun p => workDirPasses filter (snd p)) panes.

End Agents.

(** * Package wsbase: the session filters *)
Module Wsbase.

(** A compiled [*regexp.Regexp], known by its [MatchString]; the nil
    pointer is [None]. *)
Definition Regexp := string -> bool.

(** [PassesFilter]. *)
Definition PassesFilter (name : string) (include exclude : option Regexp) : bool :=
  if match include with Some re => negb (re name) | None => false end then false
  else if match exclude with Some re => re name | None => false end then false
  else true.

End Wsbase.

(** * Package wsadapter: the lifecycle broadcast *)
Module Wsadapter.
Import Wsbase.

(** The fields of [Client] that the broadcast reads, and the texts handed to
    [SendText], latest first. *)
Record Client := mkClient {
  agentSub : bool;
  includeSessionFilter : option Regexp;
  excludeSessionFilter : option Regexp;
  sendLog : list string
}.

(** [Response], as the broadcast fills it. *)
Record Response := mkResponse {
  rType : string;
  rTotalAgents : option Z
}.


Section Broadcast.
(** [json.Marshal] on a [Response]; [None] is its error. *)
Variable json_Marshal : Response -> option string.



End Broadcast.


End Wsadapter.

(** * The command line of the adapter *)
Module Main.

(** A flag of the [flag] package: its name and its default, as text. *)
Record Flag := mkFlag {
  flagName : string;
  flagDefault : string;
  flagUsage : string
}.

(** The components of a slash-separated path. *)
Fixpoint splitPath (cur : string) (path : string) : list string :=
  match path with
  | EmptyString => [cur]
  | String c rest =>
      if Ascii.eqb c "/"%char then cur :: splitPath "" rest
      else splitPath (cur +:+ String c "") rest
  end.

(** One step of [filepath.Clean] on the components kept so far (innermost
    first). *)
Definition cleanStep (rooted : bool) (kept : list string) (comp : string)
    : list string :=
  if decide (comp = "") then kept
  else if decide (comp = ".") then kept
  else if decide (comp = "..") then
    match kept with
    | top :: below => if decide (top = "..") then comp :: kept else below
    | [] => if rooted then [] else [comp]
    end
  else comp :: kept.

(** [filepath.Clean] on a Unix path. *)
Definition Clean (path : string) : string :=
  let rooted := String.prefix "/" path in
  let kept := rev (foldl (cleanStep rooted) [] (splitPath "" path)) in
  let body := String.concat "/" kept in
  let res := if rooted then "/" +:+ body else body in
  if decide (res = "") then "." else res.

(** [filepath.Join]: the non-empty elements, joined and cleaned. *)
Definition Join (elems : list string) : string :=
  match List.filter (fun e => negb (String.eqb e "")) elems with
  | [] => ""
  | es => Clean (String.concat "/" es)
  end.

(** The flags that [main] of main.go declares, [home] being $HOME. *)
Definition adapterFlags (home : string) : list Flag :=
  [ mkFlag "gt-dir" (Join [home; "gt"]) "gastown town directory";
    mkFlag "port" "8080" "WebSocket server port";
    mkFlag "auth-token" "" "optional WebSocket auth token (Bearer token or ?token=...)";
    mkFlag "allowed-origins" "localhost:*"
           "comma-separated origin patterns for WebSocket CORS";
    mkFlag "debug-serve-dir" ""
           "serve static files from this directory at / (development only)" ].

Definition lookupFlag (flags : list Flag) (name : string) : option Flag :=
  List.find (fun f => String.eqb (flagName f) name) flags.

(** The name of a flag argument: one or two dashes are dropped; [None] for
    an argument that is no flag. *)
Definition flagArgName (arg : string) : option string :=
  match arg with
  | String "-" (String "-" name) => Some name
  | String "-" name => Some name
  | _ => None
  end.

(** [flag.Parse] on arguments of the form [-name value]: the values given,
    or the name of a flag that is not declared. The parser is the standard
    library's; this is the part of it that the adapter's flags exercise. *)
Fixpoint parseFlags (flags : list Flag) (args : list string)
    (acc : gmap string string) : string + gmap string string :=
  match args with
  | [] => inr acc
  | arg :: rest =>
      match flagArgName arg with
      | None => inr acc
      | Some name =>
          match lookupFlag flags name, rest with
          | None, _ => inl ("flag provided but not defined: -" +:+ name)
          | Some _, [] => inl ("flag needs an argument: -" +:+ name)
          | Some _, value :: rest' => parseFlags flags rest' (<[name := value]> acc)
          end
      end
  end.

(** The value of flag [name] after parsing: the one given or the default. *)
Definition flagValue (flags : list Flag) (parsed : gmap string string)
    (name : string) : option string :=
  match parsed !! name with
  | Some v => Some v
  | None => flagDefault <$> lookupFlag flags name
  end.

(** The directory that [main] hands to [adapter.New]: the value of
    [gt-dir]. [None] when the command line is refused. *)
Definition adapterWorkDir (home : string) (args : list string) : option string :=
  match parseFlags (adapterFlags home) args ∅ with
  | inl _ => None
  | inr parsed => flagValue (adapterFlags home) parsed "gt-dir"
  end.

End Main.

(** * Package agentio: the paste payload of an uploaded file *)
Module Agentio.

(** The bytes of a Go string or byte slice. *)
Definition bytesOf (data : string) : list Z :=
  (fun c => Z.of_N (N_of_ascii c)) <$> list_ascii_of_string data.


Definition isCont (b : Z) : bool := (128 <=? b) && (b <=? 191).

(** [utf8.Valid]: the bytes are a sequence of well-formed UTF-8 encodings
    (no overlong form, no surrogate, nothing above U+10FFFF). *)
Fixpoint utf8Valid (bs : list Z) : bool :=
  match bs with
  | [] => true
  | b0 :: r0 =>
      if b0 <=? 127 then utf8Valid r0
      else
        match r0 with
        | [] => false
        | b1 :: r1 =>
            if (194 <=? b0) && (b0 <=? 223) then isCont b1 && utf8Valid r1
            else
              match r1 with
              | [] => false
              | b2 :: r2 =>
                  if (224 <=? b0) && (b0 <=? 239) then
                    (if b0 =? 224 then (160 <=? b1) && (b1 <=? 191)
                     else if b0 =? 237 then (128 <=? b1) && (b1 <=? 159)
                     else isCont b1)
                    && isCont b2 && utf8Valid r2
                  else
                    match r2 with
                    | [] => false
                    | b3 :: r3 =>
                        (240 <=? b0) && (b0 <=? 244)
                        && (if b0 =? 240 then (144 <=? b1) && (b1 <=? 191)
                            else if b0 =? 244 then (128 <=? b1) && (b1 <=? 143)
                            else isCont b1)
                        && isCont b2 && isCont b3 && utf8Valid r3
                    end
              end
        end
  end.

(** A control byte other than tab, line feed and carriage return. *)
Definition isControl (b : Z) : bool :=
  (b <? 32) && negb ((b =? 9) || (b =? 10) || (b =? 13)).

(** Modelled from the spec: [IsUTF8Text] (the package's code is not among
    the sources; part_004 holds its tests): the first 4096 bytes hold no
    null or control byte and are valid UTF-8. *)
Definition IsUTF8Text (data : string) : bool :=
  let sample := take 4096 (bytesOf data) in
  forallb (fun b => negb (isControl b)) sample && utf8Valid sample.

(** The MIME types the tests treat as text: text/* and the JSON, XML and
    JavaScript application types. *)
Definition recognizedTextMIME (mime : string) : bool :=
  String.prefix "text/" mime
  || bool_decide (mime ∈ ["application/json"; "application/xml";
                          "application/javascript"]).

(** Text-likeness in the words of the spec (4.5, step 4): the MIME is in the
    recognized text list, or the content is UTF-8-clean. *)
Definition IsTextLike_spec (mime : string) (data : string) : bool :=
  recognizedTextMIME mime || IsUTF8Text data.

(** Modelled from the spec: [IsTextLike], with TestIsTextLikeEdgeCases
    (part_004, lines 205-264) as the authority where the two differ. The
    test wants true for clean content under every MIME type it tries
    (text/plain, the JSON, XML and JavaScript types, application/octet-stream)
    and false for binary content, under application/octet-stream and, in
    case text_prefix_binary_data, under text/plain as well: the content
    decides, and a recognized MIME type does not spare the check. *)
Definition IsTextLike (mime : string) (data : string) : bool :=
  IsUTF8Text data.

(** The string [s] without its first [n] bytes. *)
Fixpoint dropStr (n : nat) (s : string) : string :=
  match n, s with
  | O, _ => s
  | S k, String _ rest => dropStr k rest
  | S _, EmptyString => EmptyString
  end.






(** [n] times the byte [c]. *)
Fixpoint repeatByte (n : nat) (c : ascii) : string :=
  match n with
  | O => EmptyString
  | S k => String c (repeatByte k c)
  end.

(** 5000 bytes, all the letter a but the control byte 1 at offset [i]. *)
Definition controlAt (i : nat) : string :=
  repeatByte i "a" +:+ String "001" (repeatByte (4999 - i) "a").

(** The bytes 0, 1, 2, 3 of the test case text_prefix_binary_data. *)
Definition binaryData : string :=
  String "000" (String "001" (String "002" (String "003" EmptyString))).

End Agentio.

(** * Package vt: the helper of the tests *)
Module VtTest.
Import Vt.

(** The text after the first letter m of [s]; [None] when there is none. *)
Fixpoint afterM (s : string) : option string :=
  match s with
  | EmptyString => None
  | String c rest => if Ascii.eqb c "m" then Some rest else afterM rest
  end.

(** The loop of [stripANSI], [s] being the bytes from index [i] on: an
    escape byte followed by a bracket and, further on, a letter m is skipped
    up to that letter; any other byte is copied. [fuel] bounds the
    iterations. *)
Fixpoint stripLoop (fuel : nat) (s : string) : string :=
  match fuel with
  | O => EmptyString
  | S k =>
      match s with
      | EmptyString => EmptyString
      | String c rest =>
          let skip :=
            if Ascii.eqb c escChar then
              match rest with
              | String d rest2 => if Ascii.eqb d "[" then afterM rest2 else None
              | EmptyString => None
              end
            else None in
          match skip with
          | Some after => stripLoop k after
          | None => String c (stripLoop k rest)
          end
      end
  end.

(** [stripANSI] of screen_test.go: the loop runs at most once per byte. *)
Definition stripANSI (s : string) : string := stripLoop (String.length s) s.

(** The characters of a run of cells, as UTF-8 text. *)
Definition plainText (cells : list Glyph) : string :=
  foldr (fun c acc => EncodeRune (cellChar c) +:+ acc) EmptyString cells.

(** No letter m in [s]: no byte of [s] ends an escape sequence for
    [stripANSI]. *)
Definition mFree (s : string) : Prop := afterM s = None.

End VtTest.

(** * Package tmux: the tailer of a stream *)
Module TailFile.
Import Vt Tmux.

(** The capacity of a subscriber's channel, as [Subscribe] makes it. *)
Definition chanCap : nat := 256.

(** The pending update once the read goroutine has merged [update] into it:
    [maps.Copy] overwrites the rows of [pending] with those of [update], and
    the cursor becomes that of [update]. *)
Definition mergePending (pending : option ScreenUpdate) (update : ScreenUpdate)
    : ScreenUpdate :=
  match pending with
  | None => update
  | Some p =>
      mkUpdate (uRows update ∪ uRows p) (uCursorRow update) (uCursorCol update)
  end.

(** The row [y] of the pending update, if it holds one. *)
Definition pendingRow (pending : option ScreenUpdate) (y : Z) : option string :=
  match pending with
  | Some u => uRows u !! y
  | None => None
  end.

(** [select { case ch <- update: default: }] on the buffered channel [ch];
    [bufs] holds the queue of every channel. *)
Definition trySend (bufs : gmap chan (list ScreenUpdate)) (ch : chan)
    (update : ScreenUpdate) : gmap chan (list ScreenUpdate) :=
  if decide (length (bufs !!! ch) < chanCap)%nat
  then <[ch := bufs !!! ch ++ [update]]> bufs
  else bufs.

Section Tail.
Context {T : Type} `{Terminal T}.

(** One turn of the read goroutine of [tailFile]; [data] is [buf[:n]]. *)
Definition readTurn (scr : Screen T) (pending : option ScreenUpdate)
    (data : string) : option (Screen T * option ScreenUpdate) :=
  if decide (0 < String.length data)%nat then
    match Write scr data with
    | None => None
    | Some (scr', None) => Some (scr', pending)
    | Some (scr', Some update) => Some (scr', Some (mergePending pending update))
    end
  else Some (scr, pending).

(** The turns of the read goroutine between two ticks. *)
Fixpoint readTurns (scr : Screen T) (pending : option ScreenUpdate)
    (reads : list string) : option (Screen T * option ScreenUpdate) :=
  match reads with
  | [] => Some (scr, pending)
  | data :: reads' =>
      match readTurn scr pending data with
      | None => None
      | Some (scr', pending') => readTurns scr' pending' reads'
      end
  end.

(** The emulator after the reads: a read of no bytes is not written. *)
Definition fed (t : T) (reads : list string) : T :=
  foldl (fun t data =>
           if decide (0 < String.length data)%nat then term_Write t data else t)
        t reads.

(** The subscribers of the stream of session [s]; none without a stream. *)
Definition subscribersOf (w : World T) (s : string) : gset chan :=
  match streams w !! s with
  | Some st => subscribers st
  | None => ∅
  end.

(** The body of the fan-out loop for the subscriber [ch]; [None] is the
    panic of a send on a closed channel. *)
Definition sendTo (w : World T) (update : ScreenUpdate) (ch : chan)
    (acc : option (gmap chan (list ScreenUpdate)))
    : option (gmap chan (list ScreenUpdate)) :=
  match acc with
  | None => None
  | Some bufs =>
      if decide (ch ∈ closed w) then None
      else Some (trySend bufs ch update)
  end.

(** The ticker branch of the send loop of [tailFile] for the stream of
    session [s]: the pending update goes to every subscriber whose queue has
    room. *)
Definition flush (w : World T) (s : string) (pending : option ScreenUpdate)
    (bufs : gmap chan (list ScreenUpdate))
    : option (gmap chan (list ScreenUpdate)) :=
  match pending with
  | None => Some bufs
  | Some update => set_fold (sendTo w update) (Some bufs) (subscribersOf w s)
  end.

(** What the pending update and the baseline have to do with each other
    between two ticks; [base] is the baseline at the last tick. *)
Definition tracks (base : list string) (scr : Screen T)
    (pending : option ScreenUpdate) : Prop :=
  (forall y, 0 <= y < rows scr ->
     prevRows scr !! Z.to_nat y
     = match pendingRow pending y with
       | Some row => Some row
       | None => base !! Z.to_nat y
       end)
  /\ (forall y row, pendingRow pending y = Some row ->
        0 <= y < rows scr /\ row = renderRow (term scr) (cols scr) y).

End Tail.
End TailFile.

(** * Package tmux: the baseline of the streams *)
Module PipeSync.
Import Vt Tmux.
Section Sync.
Context {T : Type} `{Terminal T}.

(** The baseline of the screen is the rendering of its emulator. *)
Definition synced (scr : Screen T) : Prop :=
  forall y, 0 <= y < rows scr ->
    prevRows scr !! Z.to_nat y = Some (renderRow (term scr) (cols scr) y).

(** Every stream of the manager has a synced screen. *)
Definition Synced (w : World T) : Prop :=
  forall s st, streams w !! s = Some st -> synced (screen st).

End Sync.
End PipeSync.

(** * Package tmux: the sessions of the manager *)
Module PipeFrame.
Import Vt Tmux.

(** The session a call is about; [StopAll] is about all of them. *)
Definition opSession (o : Op) : option string :=
  match o with
  | OpSubscribe s _ _ => Some s
  | OpUnsubscribe s _ => Some s
  | OpStopAll => None
  | OpTail s _ => Some s
  end.

Section Frame.
Context {T : Type} `{Terminal T}.

(** The pipe file of every stream is on disk. *)
Definition FilesKept (w : World T) : Prop :=
  forall s st, streams w !! s = Some st -> pipeFilePath s ∈ files w.

End Frame.
End PipeFrame.

(** * Package tmux: what a subscriber receives *)
Module Stream.
Import Vt Tmux TailFile.
Section Ticks.
Context {T : Type} `{Terminal T}.

(** The updates the send loop of [tailFile] takes over the ticks, oldest
    first: each tick takes the update left pending by the reads since the
    tick before, if there is one, and leaves nothing pending. [pending] is
    what is pending at the start. *)
Fixpoint tailTicks (scr : Screen T) (pending : option ScreenUpdate)
    (ticks : list (list string)) : option (Screen T * list ScreenUpdate) :=
  match ticks with
  | [] => Some (scr, [])
  | reads :: ticks' =>
      match readTurns scr pending reads with
      | None => None
      | Some (scr', pending') =>
          match tailTicks scr' None ticks' with
          | None => None
          | Some (scr'', updates) => Some (scr'', option_list pending' ++ updates)
          end
      end
  end.

(** Every row of the pending update is a row of the screen, with its
    rendering: the read goroutine keeps it so. *)
Definition current (scr : Screen T) (pending : option ScreenUpdate) : Prop :=
  forall y row, pendingRow pending y = Some row ->
    0 <= y < rows scr /\ row = renderRow (term scr) (cols scr) y.

End Ticks.

(** The rows a receiver holds once it has laid the rows of [u] over its
    own. *)
Definition applyUpdate (rows : gmap Z string) (u : ScreenUpdate)
    : gmap Z string :=
  uRows u ∪ rows.

End Stream.

(** * Package vt: the encoding of the rows *)
Module VtUtf8.
(** The bytes of [s] are valid UTF-8, as [utf8.ValidString] has it. *)
Definition validUTF8 (s : string) : Prop :=
  Agentio.utf8Valid (Agentio.bytesOf s) = true.
End VtUtf8.

(** * Package wsbase: compiling the session filters *)
Module Filters.
Import Wsbase.

Section Compile.
(** [regexp.Compile]: the compiled expression, or the text of its error. *)
Variable regexp_Compile : string -> Regexp + string.

(** [CompileSessionFilters]: the two filters and the error, [None] for nil. *)
Definition CompileSessionFilters (includeStr excludeStr : string)
    : option Regexp * option Regexp * option string :=
  match (if bool_decide (includeStr <> "")
         then match regexp_Compile includeStr with
              | inl re => inl (Some re)
              | inr err => inr err
              end
         else inl None) with
  | inr err => (None, None, Some ("invalid includeSessionFilter: " +:+ err))
  | inl include =>
      match (if bool_decide (excludeStr <> "")
             then match regexp_Compile excludeStr with
                  | inl re => inl (Some re)
                  | inr err => inr err
                  end
             else inl None) with
      | inr err => (None, None, Some ("invalid excludeSessionFilter: " +:+ err))
      | inl exclude => (include, exclude, None)
      end
  end.

(** The pattern [str] is empty or compiles. *)
Definition compiles (str : string) : Prop :=
  str = "" \/ exists re, regexp_Compile str = inl re.

(** The pattern [str] is not empty, compiles and matches [name]. *)
Definition matches (str name : string) : Prop :=
  str <> "" /\ exists re, regexp_Compile str = inl re /\ re name = true.

End Compile.
End Filters.

(** * Package wsconv: agent subscriptions and the helpers of the protocol *)
Module Wsconv.
Import Wsbase Filters.

(** [websocket.MessageType]. *)
Inductive MessageType := MessageText | MessageBinary.

(** [outMsg]. *)
Record outMsg := mkOutMsg {
  typ : MessageType;
  data : string
}.

(** The fields of [agents.Agent] that the package reads. *)
Record Agent := mkAgent {
  aName : string;
  aRuntime : string;
  aWorkDir : string;
  aAttached : bool
}.

(** [agentInfo]. *)
Record agentInfo := mkAgentInfo {
  Name : string;
  Runtime : string;
  ConversationID : string;
  WorkDir : string;
  Attached : bool
}.

(** The fields of [clientMessage] that the agent handlers read. *)
Record clientMessage := mkClientMessage {
  cID : string;
  cIncludeSessionFilter : string;
  cExcludeSessionFilter : string
}.

(** The fields of [serverMessage] that the agent handlers and the lifecycle
    broadcast fill; the others keep their zero value. *)
Record serverMessage := mkServerMessage {
  mID : string;
  mType : string;
  mOK : option bool;
  mError : string;
  mAgents : list agentInfo;
  mTotalAgents : option Z;
  mAgent : option Agent;
  mName : string
}.

(** The fields of [conv.WatcherEvent] that the lifecycle broadcast reads. *)
Record WatcherEvent := mkWatcherEvent {
  eType : string;
  eAgent : option Agent
}.

(** The fields of [Client] behind the agent subscription; [send] is the
    queue of the channel, oldest message first. *)
Record Client := mkClient {
  send : list outMsg;
  subscribedAgents : bool;
  includeSessionFilter : option Regexp;
  excludeSessionFilter : option Regexp
}.

(** The capacity of the channel [send], as [newClient] makes it. *)
Definition sendCap : nat := 256.

(** [maxSnapshotEvents]. *)
Definition maxSnapshotEvents : Z := 20000.

(** [capSnapshot]. *)
Definition capSnapshot {A : Type} (events : list A) : list A :=
  if decide (Z.of_nat (length events) > maxSnapshotEvents)
  then drop (Z.to_nat (Z.of_nat (length events) - maxSnapshotEvents)) events
  else events.

(** [subID]; [strconv.Itoa] is [pretty]. *)
Definition subID (n : Z) : string := "sub-" +:+ pretty n.

(** The text before the first [sep] in [s] and the text after it: [s[:m]]
    and [s[m+len(sep):]] for [m] the result of [strings.Index]. *)
Fixpoint cutIndex (sep s : string) : option (string * string) :=
  if String.prefix sep s
  then Some (EmptyString, Agentio.dropStr (String.length sep) s)
  else match s with
       | EmptyString => None
       | String c rest =>
           match cutIndex sep rest with
           | Some (before, after) => Some (String c before, after)
           | None => None
           end
       end.

(** [strings.SplitN] for a separator that is not empty and [n >= 0]. *)
Fixpoint SplitN (s sep : string) (n : nat) : list string :=
  match n with
  | O => []
  | S O => [s]
  | S n' =>
      match cutIndex sep s with
      | None => [s]
      | Some (before, after) => before :: SplitN after sep n'
      end
  end.

Section Server.
(** [json.Marshal] on a [serverMessage]; [None] is its error. *)
Variable json_Marshal : serverMessage -> option string.
Variable regexp_Compile : string -> Regexp + string.
(** [watcher.ListAgents()], [watcher.GetActiveConversation] and
    [registry.Count()]. *)
Variable ListAgents : list Agent.
Variable GetActiveConversation : string -> string.
Variable registry_Count : Z.
(** [agents.RuntimePriority]. *)
Variable RuntimePriority : list string.

(** [Client.sendJSON]: a message that does not marshal is logged and
    dropped, and so is one that finds the queue full. *)
Definition sendJSON (c : Client) (v : serverMessage) : Client :=
  match json_Marshal v with
  | None => c
  | Some d =>
      if decide (length (send c) < sendCap)%nat
      then mkClient (send c ++ [mkOutMsg MessageText d]) (subscribedAgents c)
                    (includeSessionFilter c) (excludeSessionFilter c)
      else c
  end.

(** What [sendJSON] adds to the queue of [c]: the text of the message when
    it marshals and the queue has room. *)
Definition enqueued (c : Client) (v : serverMessage) : list outMsg :=
  match json_Marshal v with
  | Some d =>
      if decide (length (send c) < sendCap)%nat then [mkOutMsg MessageText d]
      else []
  | None => []
  end.

(** The body of the loop of [buildAgentList]. *)
Definition addAgent (include exclude : option Regexp)
    (result : list agentInfo) (a : Agent) : list agentInfo :=
  if negb (PassesFilter (aName a) include exclude) then result
  else
    let info := mkAgentInfo (aName a) (aRuntime a) "" (aWorkDir a) (aAttached a) in
    let convID := GetActiveConversation (aName a) in
    let info :=
      if bool_decide (convID <> "")
      then mkAgentInfo (Name info) (Runtime info) convID (WorkDir info)
                       (Attached info)
      else info in
    result ++ [info].

(** [Client.buildAgentList]. *)
Definition buildAgentList (include exclude : option Regexp) : list agentInfo :=
  foldl (addAgent include exclude) [] ListAgents.

(** The entry of the agent [a] in a list of agents: its active conversation
    is the empty string when it has none. *)
Definition infoOf (a : Agent) : agentInfo :=
  mkAgentInfo (aName a) (aRuntime a) (GetActiveConversation (aName a))
              (aWorkDir a) (aAttached a).

(** [Client.handleListAgents]. *)
Definition handleListAgents (c : Client) (msg : clientMessage) : Client :=
  match CompileSessionFilters regexp_Compile (cIncludeSessionFilter msg)
                              (cExcludeSessionFilter msg) with
  | (_, _, Some err) =>
      sendJSON c (mkServerMessage (cID msg) "list-agents" (Some false) err
                                  [] None None "")
  | (include, exclude, None) =>
      let regAgents := buildAgentList include exclude in
      sendJSON c (mkServerMessage (cID msg) "list-agents" None "" regAgents
                                  None None "")
  end.

(** [Client.handleSubscribeAgents]. *)
Definition handleSubscribeAgents (c : Client) (msg : clientMessage) : Client :=
  match CompileSessionFilters regexp_Compile (cIncludeSessionFilter msg)
                              (cExcludeSessionFilter msg) with
  | (_, _, Some err) =>
      sendJSON c (mkServerMessage (cID msg) "subscribe-agents" (Some false) err
                                  [] None None "")
  | (include, exclude, None) =>
      let c := mkClient (send c) true include exclude in
      let regAgents := buildAgentList include exclude in
      let total := registry_Count in
      sendJSON c (mkServerMessage (cID msg) "subscribe-agents" (Some true) ""
                                  regAgents (Some total) None "")
  end.

(** The message [broadcastAgentLifecycle] builds for the event. *)
Definition lifecycleMessage (event : WatcherEvent) : serverMessage :=
  if bool_decide (eType event = "agent-added")
  then mkServerMessage "" "agent-added" None "" [] None (eAgent event) ""
  else if bool_decide (eType event = "agent-removed")
  then mkServerMessage "" "agent-removed" None "" [] None None
                       (match eAgent event with
                        | Some a => aName a
                        | None => ""
                        end)
  else if bool_decide (eType event = "agent-updated")
  then mkServerMessage "" "agent-updated" None "" [] None (eAgent event) ""
  else mkServerMessage "" "" None "" [] None None "".

(** The agents-count message of [broadcastAgentLifecycle]. *)
Definition countMessage : serverMessage :=
  mkServerMessage "" "agents-count" None "" [] (Some registry_Count) None "".

(** The name the filters of [broadcastAgentLifecycle] are applied to. *)
Definition eventAgentName (event : WatcherEvent) : string :=
  match eAgent event with
  | Some a => aName a
  | None => ""
  end.

(** The body of the loop of [broadcastAgentLifecycle] for one client. *)
Definition lifecycleTo (event : WatcherEvent) (c : Client) : Client :=
  let agentName := eventAgentName event in
  let msg := lifecycleMessage event in
  let sendCount := bool_decide (eType event <> "agent-updated") in
  let countMsg :=
    if sendCount then countMessage
    else mkServerMessage "" "" None "" [] None None "" in
  let subscribed := subscribedAgents c in
  let include := includeSessionFilter c in
  let exclude := excludeSessionFilter c in
  if negb subscribed then c
  else
    let c := if sendCount then sendJSON c countMsg else c in
    if PassesFilter agentName include exclude then sendJSON c msg else c.

(** [Server.broadcastAgentLifecycle]; [clients] maps each client pointer to
    the client. *)
Definition broadcastAgentLifecycle (clients : gmap nat Client)
    (event : WatcherEvent) : gmap nat Client :=
  lifecycleTo event <$> clients.

(** [extractAgentFromConvID]. *)
Definition extractAgentFromConvID (convID : string) : string :=
  let parts := SplitN convID ":" 3 in
  if decide (length parts < 3)%nat then ""
  else if negb (bool_decide (default "" (parts !! 0%nat) ∈ RuntimePriority))
  then ""
  else default "" (parts !! 1%nat).

End Server.

(** [conv.Cursor]. *)
Record Cursor := mkCursor {
  curConversationID : string;
  curSeq : Z;
  curEventID : string
}.

Section Cursors.
(** [conv.ConversationEvent], known by the two fields the cursor reads, and
    [json.Marshal] on a [conv.Cursor]. *)
Context {ConversationEvent : Type}.
Variable Seq : ConversationEvent -> Z.
Variable EventID : ConversationEvent -> string.
Variable json_Marshal_Cursor : Cursor -> option string.

(** [encodeCursor]: the empty string when the cursor does not marshal. *)
Definition encodeCursor (c : Cursor) : string :=
  match json_Marshal_Cursor c with
  | None => ""
  | Some d => d
  end.

(** [makeCursor]. *)
Definition makeCursor (convID : string) (events : list ConversationEvent)
    : string :=
  match last events with
  | None => ""
  | Some l => encodeCursor (mkCursor convID (Seq l) (EventID l))
  end.

End Cursors.

(** A client with nothing queued and no subscription. *)
Definition freshClient : Client := mkClient [] false None None.

End Wsconv.

(** * Proofs *)

(** ** Strings *)

Lemma app_str_cons (x : ascii) (a b : string) :
  String x a +:+ b = String x (a +:+ b).
Proof. reflexivity. Qed.

Lemma app_str_nil_l (a : string) : "" +:+ a = a.
Proof. reflexivity. Qed.

Lemma app_str_assoc (a b c : string) : (a +:+ b) +:+ c = a +:+ (b +:+ c).
Proof.
  induction a as [|x a IH]; [reflexivity|].
  rewrite !app_str_cons. f_equal. exact IH.
Qed.

Lemma app_str_nil_r (a : string) : a +:+ "" = a.
Proof.
  induction a as [|x a IH]; [reflexivity|].
  rewrite app_str_cons. f_equal. exact IH.
Qed.

Lemma prefix_spec (pre s : string) :
  String.prefix pre s = true <-> HasPrefix s pre.
Proof.
  revert s. induction pre as [|c pre IH]; intros s.
  - split; [intros _; now exists s | intros _; destruct s; reflexivity].
  - destruct s as [|d s]; simpl.
    + split; [discriminate | intros [r Hr]; discriminate].
    + destruct (ascii_dec c d) as [->|Hne].
      * rewrite IH. split; intros [r Hr]; exists r;
          rewrite ?app_str_cons in *; congruence.
      * split; [discriminate | intros [r Hr]; rewrite app_str_cons in Hr; congruence].
Qed.

Lemma HasSuffix_app (a b : string) : HasSuffix (a +:+ b) b.
Proof. now exists a. Qed.

Lemma HasSuffix_app_l (a b c : string) : HasSuffix b c -> HasSuffix (a +:+ b) c.
Proof. intros [f ->]. exists (a +:+ f). now rewrite app_str_assoc. Qed.

(** ** The row renderer *)
Section VtRender.
Import Vt.
Context {T : Type} `{Terminal T}.



Lemma sgrParams_nonempty (c p : Pen) : p <> c -> sgrParams c p <> [].
Proof.
  intros Hne. unfold sgrParams.
  destruct (needReset c p) eqn:Hr; [discriminate|].
  unfold needReset in Hr.
  rewrite !orb_false_iff, !andb_false_iff, !negb_false_iff in Hr.
  destruct Hr as ((((Hb & Hi) & Hu) & _) & _).
  unfold applyParams.
  destruct p as [pf pb b i u], c as [cf cb b' i' u']; simpl in *.
  destruct b, b', i, i', u, u'; simpl;
    destruct (decide (pf = cf)) as [->|], (decide (pb = cb)) as [->|];
    simpl; try discriminate;
    try (exfalso; apply Hne; reflexivity);
    destruct Hb, Hi, Hu; discriminate.
Qed.

Lemma renderCell_out (st : Render) (cell : Glyph) :
  out (renderCell st cell) = out st +:+ cellPiece (cur st) cell.
Proof.
  unfold renderCell, cellPiece.
  destruct (decide (penOf cell = cur st)) as [E|E]; simpl.
  - reflexivity.
  - pose proof (sgrParams_nonempty _ _ E) as Hn.
    destruct (sgrParams (cur st) (penOf cell)); [congruence|].
    simpl. now rewrite app_str_assoc.
Qed.

Lemma renderCell_cur (st : Render) (cell : Glyph) :
  cur (renderCell st cell) = penOf cell.
Proof.
  unfold renderCell.
  destruct (decide (penOf cell = cur st)) as [E|E]; simpl; [now symmetry|].
  now destruct (sgrParams (cur st) (penOf cell)).
Qed.

Lemma renderCell_styled (st : Render) (cell : Glyph) :
  (cur st <> defaultPen -> styled st = true) ->
  cur (renderCell st cell) <> defaultPen -> styled (renderCell st cell) = true.
Proof.
  intros Hinv. unfold renderCell.
  destruct (decide (penOf cell = cur st)) as [E|E]; simpl; [exact Hinv|].
  pose proof (sgrParams_nonempty _ _ E) as Hn.
  destruct (sgrParams (cur st) (penOf cell)); [congruence|]. reflexivity.
Qed.

Lemma foldl_renderCell_out (cells : list Glyph) (st : Render) :
  out (foldl renderCell st cells) = out st +:+ rowBody (cur st) cells.
Proof.
  revert st. induction cells as [|c cs IH]; intros st; simpl.
  - now rewrite app_str_nil_r.
  - rewrite IH, renderCell_out, renderCell_cur. now rewrite app_str_assoc.
Qed.

Lemma foldl_renderCell_styled (cells : list Glyph) (st : Render) :
  (cur st <> defaultPen -> styled st = true) ->
  cur (foldl renderCell st cells) <> defaultPen ->
  styled (foldl renderCell st cells) = true.
Proof.
  revert st. induction cells as [|c cs IH]; intros st Hinv; simpl; [exact Hinv|].
  apply IH. now apply renderCell_styled.
Qed.

Lemma rowBody_snoc (cells : list Glyph) (c : Glyph) (prev : Pen) :
  exists front, rowBody prev (cells ++ [c]) = front +:+ EncodeRune (cellChar c).
Proof.
  revert prev. induction cells as [|d cs IH]; intros prev; simpl.
  - unfold cellPiece. eexists. rewrite app_str_nil_r. reflexivity.
  - destruct (IH (penOf d)) as [f ->]. eexists. now rewrite <- app_str_assoc.
Qed.

Lemma findLastCol_spec (t : T) (y : Z) (n : nat) :
  let lc := findLastCol t y n in
  (lc = -1 /\ forall x, 0 <= x < Z.of_nat n -> nonTrivial (term_Cell t x y) = false)
  \/ (0 <= lc < Z.of_nat n /\ nonTrivial (term_Cell t lc y) = true
      /\ forall x, lc < x < Z.of_nat n -> nonTrivial (term_Cell t x y) = false).
Proof.
  induction n as [|k IH]; simpl.
  - left. split; [reflexivity | intros x Hx; lia].
  - destruct (nonTrivial (term_Cell t (Z.of_nat k) y)) eqn:Hk.
    + right. split; [lia|]. split; [exact Hk | intros x Hx; lia].
    + destruct IH as [[E Hall]|(Hr & Hnt & Hall)].
      * left. split; [exact E|]. intros x Hx.
        destruct (decide (x = Z.of_nat k)) as [->|]; [exact Hk | apply Hall; lia].
      * right. split; [lia|]. split; [exact Hnt|]. intros x Hx.
        destruct (decide (x = Z.of_nat k)) as [->|]; [exact Hk | apply Hall; lia].
Qed.

Lemma rowCells_snoc (t : T) (y lc : Z) :
  0 <= lc ->
  rowCells t y lc = rowCells t y (lc - 1) ++ [term_Cell t lc y].
Proof.
  intros Hlc. unfold rowCells.
  rewrite (seqZ_app 0 lc 1) by lia.
  rewrite fmap_app. replace (lc - 1 + 1) with lc by lia.
  rewrite (seqZ_cons (0 + lc) 1) by lia.
  rewrite (seqZ_nil _ (Z.pred 1)) by lia. reflexivity.
Qed.




Lemma length_app_str (a b : string) :
  String.length (a +:+ b) = (String.length a + String.length b)%nat.
Proof.
  induction a as [|c a IH]; [reflexivity|].
  rewrite app_str_cons. simpl. now rewrite IH.
Qed.

Lemma afterLastESC_app (a b : string) :
  afterLastESC (a +:+ b)
  = match afterLastESC b with
    | Some t => Some t
    | None => (fun t => t +:+ b) <$> afterLastESC a
    end.
Proof.
  induction a as [|c a IH].
  - rewrite app_str_nil_l. now destruct (afterLastESC b).
  - rewrite app_str_cons. simpl. rewrite IH.
    destruct (afterLastESC b) as [t|]; [reflexivity|].
    destruct (afterLastESC a) as [t|]; simpl; [reflexivity|].
    now destruct (Ascii.eqb c escChar).
Qed.

Lemma escFree_app (a b : string) : escFree a -> escFree b -> escFree (a +:+ b).
Proof. unfold escFree. intros Ha Hb. now rewrite afterLastESC_app, Hb, Ha. Qed.

Lemma escFree_cons (c : ascii) (s : string) :
  c <> escChar -> escFree s -> escFree (String c s).
Proof.
  unfold escFree. intros Hc Hs. simpl. rewrite Hs.
  destruct (Ascii.eqb_spec c escChar); [contradiction | reflexivity].
Qed.





Lemma plain_app_l (a b : string) : plainPiece a -> escFree b -> plainPiece (a +:+ b).
Proof.
  intros [Ha Hn] Hb. split; [now apply escFree_app|].
  destruct a; [contradiction | rewrite app_str_cons; discriminate].
Qed.












Lemma lor_high (m x k : Z) :
  0 <= k -> 0 <= x < 2 ^ k -> Z.lor (m * 2 ^ k) x = m * 2 ^ k + x.
Proof.
  intros Hk Hx. symmetry. apply Z.add_nocarry_lor.
  apply Z.bits_inj'. intros n Hn. rewrite Z.land_spec, Z.bits_0.
  destruct (decide (n < k)) as [Hlt|Hge].
  - now rewrite Z.mul_pow2_bits_low.
  - rewrite (Z.mod_small x (2 ^ k)) at 1 || idtac.
    replace x with (x mod 2 ^ k) by (apply Z.mod_small; lia).
    rewrite Z.mod_pow2_bits_high by lia. apply andb_false_r.
Qed.

Lemma byte_str_plain (b : Z) : 0 <= b < 256 -> b <> 27 -> plainPiece (byte_str b).
Proof.
  intros Hb Hne. split; [|discriminate].
  apply escFree_cons; [|reflexivity]. unfold escChar. intros E.
  apply (f_equal N_of_ascii) in E.
  rewrite !N_ascii_embedding in E by lia. lia.
Qed.

Lemma cont_byte_plain (r : Z) : plainPiece (cont_byte r).
Proof.
  unfold cont_byte. change 63 with (Z.ones 6). rewrite Z.land_ones by lia.
  pose proof (Z.mod_pos_bound r (2 ^ 6) ltac:(lia)) as Hb.
  change 128 with (2 * 2 ^ 6). rewrite lor_high by lia.
  apply byte_str_plain; lia.
Qed.

Lemma lead_byte_plain (m k r n : Z) :
  0 <= k -> 0 <= n -> 0 <= r < 2 ^ (n + k) ->
  128 <= m * 2 ^ k -> m * 2 ^ k + 2 ^ k <= 256 ->
  plainPiece (byte_str (Z.lor (m * 2 ^ k) (Z.shiftr r n))).
Proof.
  intros Hk Hn Hr Hlo Hhi.
  assert (Hy : 0 <= Z.shiftr r n < 2 ^ k).
  { rewrite Z.shiftr_div_pow2 by exact Hn. split.
    - apply Z.div_pos; lia.
    - apply Z.div_lt_upper_bound; [lia|]. rewrite <- Z.pow_add_r by lia. lia. }
  rewrite lor_high by assumption. apply byte_str_plain; lia.
Qed.

Lemma EncodeRune_plain (r : Z) : r <> 27 -> plainPiece (EncodeRune r).
Proof.
  intros Hr. unfold EncodeRune, runeError.
  repeat case_decide.
  - vm_compute. split; [reflexivity | discriminate].
  - apply byte_str_plain; lia.
  - apply plain_app_l; [|apply cont_byte_plain].
    apply (lead_byte_plain 3 6 r 6); lia.
  - vm_compute. split; [reflexivity | discriminate].
  - apply plain_app_l; [|apply escFree_app; apply cont_byte_plain].
    apply (lead_byte_plain 14 4 r 12); lia.
  - apply plain_app_l;
      [|apply escFree_app; [|apply escFree_app]; apply cont_byte_plain].
    apply (lead_byte_plain 30 3 r 18); lia.
  - vm_compute. split; [reflexivity | discriminate].
Qed.

(** The rendering of a row: empty, or the text of the cells up to the last
    column with content, then the reset when the last pen is not the
    default. *)
Lemma renderRow_shape (t : T) (c y : Z) :
  let lc := findLastCol t y (Z.to_nat c) in
  let cells := rowCells t y lc in
  let final := term_Cell t lc y in
  (lc = -1
   /\ (forall x, 0 <= x < c -> nonTrivial (term_Cell t x y) = false)
   /\ renderRow t c y = "")
  \/ (0 <= lc < c
      /\ nonTrivial final = true
      /\ (forall x, lc < x < c -> nonTrivial (term_Cell t x y) = false)
      /\ renderRow t c y
         = rowBody defaultPen cells
           +:+ (if penActive (penOf final) then resetSeq else "")
      /\ if penActive (penOf final)
         then HasSuffix (renderRow t c y) resetSeq
         else renderRow t c y = rowBody defaultPen cells
              /\ HasSuffix (renderRow t c y) (EncodeRune (cellChar final))).
Proof.
  intros lc cells final.
  pose proof (findLastCol_spec t y (Z.to_nat c)) as Hs. simpl in Hs.
  fold lc in Hs. unfold renderRow. fold lc.
  destruct Hs as [[E Hall]|(Hr & Hnt & Hall)].
  - left. split; [exact E|]. split; [intros x Hx; apply Hall; lia|].
    destruct (decide (lc < 0)); [reflexivity | lia].
  - right. split; [lia|]. split; [exact Hnt|].
    split; [intros x Hx; apply Hall; lia|].
    destruct (decide (lc < 0)); [lia|].
    fold cells.
    set (st := foldl renderCell (mkRender "" defaultPen false) cells).
    assert (Hout : out st = rowBody defaultPen cells).
    { unfold st. now rewrite foldl_renderCell_out. }
    assert (Hcur : cur st = penOf final).
    { unfold st, cells. rewrite rowCells_snoc by lia.
      rewrite foldl_snoc. apply renderCell_cur. }
    assert (Hsty : penActive (cur st) = true -> styled st = true).
    { intros Ha. apply foldl_renderCell_styled.
      - simpl. intros Hd. now contradict Hd.
      - unfold penActive in Ha.
        now rewrite negb_true_iff, bool_decide_eq_false in Ha. }
    rewrite Hcur in *.
    destruct (penActive (penOf final)) eqn:Hact.
    + rewrite (Hsty eq_refl). simpl. rewrite Hout.
      split; [reflexivity | apply HasSuffix_app].
    + rewrite andb_false_r, Hout, app_str_nil_r.
      split; [reflexivity|]. split; [reflexivity|].
      unfold cells, final. rewrite rowCells_snoc by lia.
      destruct (rowBody_snoc (rowCells t y (lc - 1)) (term_Cell t lc y)
                  defaultPen) as [f ->].
      apply HasSuffix_app.
Qed.




End VtRender.

(** ** The row diff *)
Section VtDiff.
Import Vt.
Context {T : Type} `{Terminal T}.

Lemma NewScreen_wf (c r : Z) (s : Screen T) :
  NewScreen c r = Some s -> screen_wf s.
Proof.
  unfold NewScreen, screen_wf. destruct (decide (r < 0)); [discriminate|].
  intros [= <-]. simpl. apply length_replicate.
Qed.

Lemma NewScreen_some (c r : Z) :
  0 <= r -> exists s : Screen T, NewScreen c r = Some s /\ screen_wf s.
Proof.
  intros Hr. unfold NewScreen. destruct (decide (r < 0)); [lia|].
  eexists. split; [reflexivity|]. unfold screen_wf. simpl. apply length_replicate.
Qed.

(** The loop of [Write], on rows that are distinct and inside the baseline. *)
Lemma diffRows_spec (t : T) (c : Z) (ys : list Z) :
  forall (prev : list string) (upd : gmap Z string),
  NoDup ys ->
  (forall y, y ∈ ys -> 0 <= y /\ (Z.to_nat y < length prev)%nat) ->
  exists prev' upd',
    diffRows t c ys prev upd = Some (prev', upd')
    /\ length prev' = length prev
    /\ (forall y, y ∈ ys -> prev' !! Z.to_nat y = Some (renderRow t c y))
    /\ (forall k, (forall y, y ∈ ys -> Z.to_nat y <> k) -> prev' !! k = prev !! k)
    /\ (forall y, y ∈ ys -> prev !! Z.to_nat y <> Some (renderRow t c y) ->
          upd' !! y = Some (renderRow t c y))
    /\ (forall y, y ∈ ys -> prev !! Z.to_nat y = Some (renderRow t c y) ->
          upd' !! y = upd !! y)
    /\ (forall y, y ∉ ys -> upd' !! y = upd !! y).
Proof.
  induction ys as [|y ys IH]; intros prev upd Hnd Hin; simpl.
  - exists prev, upd. repeat split; try reflexivity; intros z Hz; now inversion Hz.
  - apply NoDup_cons in Hnd as [Hy Hnd].
    destruct (Hin y ltac:(left)) as [Hy0 Hylt].
    destruct (lookup_lt_is_Some_2 prev (Z.to_nat y) Hylt) as [old Hold].
    rewrite Hold.
    assert (Hne : forall z, z ∈ ys -> Z.to_nat z <> Z.to_nat y).
    { intros z Hz E. destruct (Hin z ltac:(now right)) as [Hz0 _].
      apply Hy. replace y with z by lia. exact Hz. }
    destruct (decide (renderRow t c y = old)) as [E|E].
    + destruct (IH prev upd Hnd) as (prev' & upd' & Hd & Hl & Hset & Hkeep & Hch & Hun & Hout).
      { intros z Hz. apply Hin. now right. }
      exists prev', upd'. split; [exact Hd|]. split; [exact Hl|].
      split; [|split; [|split; [|split]]].
      * intros z [->|Hz]%elem_of_cons; [|now apply Hset].
        rewrite Hkeep; [now rewrite Hold, E|]. intros z Hz. now apply Hne.
      * intros k Hk. apply Hkeep. intros z Hz. apply Hk. now right.
      * intros z [->|Hz]%elem_of_cons Hd'; [|now apply Hch].
        rewrite Hold, E in Hd'. now contradict Hd'.
      * intros z [->|Hz]%elem_of_cons Hs; [|now apply Hun].
        now apply Hout.
      * intros z Hz. apply Hout. intros Hz'. apply Hz. now right.
    + destruct (IH (<[Z.to_nat y := renderRow t c y]> prev)
                   (<[y := renderRow t c y]> upd) Hnd)
        as (prev' & upd' & Hd & Hl & Hset & Hkeep & Hch & Hun & Hout).
      { intros z Hz. rewrite length_insert. apply Hin. now right. }
      rewrite length_insert in Hl.
      exists prev', upd'. split; [exact Hd|]. split; [exact Hl|].
      split; [|split; [|split; [|split]]].
      * intros z [->|Hz]%elem_of_cons; [|now apply Hset].
        rewrite Hkeep; [now apply list_lookup_insert_eq|].
        intros z Hz. now apply Hne.
      * intros k Hk. rewrite Hkeep.
        -- apply list_lookup_insert_ne. apply Hk. now left.
        -- intros z Hz. apply Hk. now right.
      * intros z [->|Hz]%elem_of_cons Hd'.
        -- rewrite Hout by exact Hy. apply lookup_insert_eq.
        -- apply Hch; [exact Hz|].
           rewrite list_lookup_insert_ne; [exact Hd'|].
           intros E'. now apply (Hne z Hz).
      * intros z [->|Hz]%elem_of_cons Hs.
        -- rewrite Hold in Hs. now injection Hs as ->.
        -- rewrite Hun; [|exact Hz|].
           ++ apply lookup_insert_ne. intros ->. now apply Hy.
           ++ rewrite list_lookup_insert_ne; [exact Hs|].
              intros E'. now apply (Hne z Hz).
      * intros z Hz. rewrite Hout.
        -- apply lookup_insert_ne. intros ->. apply Hz. now left.
        -- intros Hz'. apply Hz. now right.
Qed.

(** C2 (Screen.Write). On a screen whose baseline has one entry per row,
    [Write] returns; the update holds exactly the rows whose new rendering
    differs from the baseline, each with its new rendering; after the call
    the baseline of every row is its new rendering; and the result is nil
    exactly when no row differs. *)
Theorem Write_diff (s : Screen T) (data : string) :
  screen_wf s ->
  exists s' r,
    Write s data = Some (s', r)
    /\ screen_wf s'
    /\ term s' = term_Write (term s) data
    /\ cols s' = cols s /\ rows s' = rows s
    /\ (forall y, 0 <= y < rows s ->
          prevRows s' !! Z.to_nat y = Some (renderRow (term s') (cols s) y))
    /\ match r with
       | None =>
           forall y, 0 <= y < rows s ->
             prevRows s !! Z.to_nat y = Some (renderRow (term s') (cols s) y)
       | Some u =>
           (forall y row,
              uRows u !! y = Some row
              <-> 0 <= y < rows s
                  /\ row = renderRow (term s') (cols s) y
                  /\ prevRows s !! Z.to_nat y <> Some row)
           /\ (exists y, 0 <= y < rows s
                  /\ prevRows s !! Z.to_nat y
                     <> Some (renderRow (term s') (cols s) y))
           /\ uCursorRow u = Y (term_Cursor (term s'))
           /\ uCursorCol u = X (term_Cursor (term s'))
       end.
Proof.
  intros Hwf. unfold Write.
  set (t := term_Write (term s) data).
  destruct (diffRows_spec t (cols s) (seqZ 0 (rows s)) (prevRows s) ∅)
    as (prev' & upd' & Hd & Hl & Hset & _ & Hch & Hun & Hout).
  { apply NoDup_seqZ. }
  { intros y Hy%elem_of_seqZ. unfold screen_wf in Hwf. lia. }
  rewrite Hd.
  assert (Hrows : forall y row,
             upd' !! y = Some row
             <-> 0 <= y < rows s /\ row = renderRow t (cols s) y
                 /\ prevRows s !! Z.to_nat y <> Some row).
  { intros y row. destruct (decide (y ∈ seqZ 0 (rows s))) as [Hy|Hy].
    - pose proof Hy as Hr%elem_of_seqZ.
      destruct (decide (prevRows s !! Z.to_nat y = Some (renderRow t (cols s) y)))
        as [E|E].
      + rewrite (Hun y Hy E), lookup_empty. split; [discriminate|].
        intros (_ & -> & Hne). now contradict Hne.
      + rewrite (Hch y Hy E). split.
        * intros [= <-]. split; [lia|]. split; [reflexivity | exact E].
        * intros (_ & -> & _). reflexivity.
    - rewrite (Hout y Hy), lookup_empty. split; [discriminate|].
      intros (Hr & _). exfalso. apply Hy. apply elem_of_seqZ. lia. }
  destruct (decide (size upd' = 0%nat)) as [Hz|Hnz].
  - eexists _, None. split; [reflexivity|]. simpl.
    split; [unfold screen_wf in *; simpl; congruence|].
    do 3 (split; [reflexivity|]).
    split; [intros y Hy; apply Hset, elem_of_seqZ; lia|].
    intros y Hy. apply map_size_empty_iff in Hz.
    destruct (decide (prevRows s !! Z.to_nat y = Some (renderRow t (cols s) y)))
      as [E|E]; [exact E|].
    assert (Hsome : upd' !! y = Some (renderRow t (cols s) y)).
    { apply Hrows. split; [exact Hy|]. split; [reflexivity | exact E]. }
    rewrite Hz, lookup_empty in Hsome. discriminate.
  - eexists _, (Some _). split; [reflexivity|]. simpl.
    split; [unfold screen_wf in *; simpl; congruence|].
    do 3 (split; [reflexivity|]).
    split; [intros y Hy; apply Hset, elem_of_seqZ; lia|].
    split; [exact Hrows|]. split; [|split; reflexivity].
    assert (Hne : upd' <> ∅) by (intros ->; now rewrite map_size_empty in Hnz).
    apply map_choose in Hne as (y & row & Hy).
    apply Hrows in Hy as (Hr & -> & Hd'). now exists y.
Qed.

(** The loop of [Snapshot]. *)
Lemma snapRows_spec (t : T) (c : Z) (ys : list Z) :
  forall (prev : list string) (snap : gmap Z string),
  NoDup ys ->
  (forall y, y ∈ ys -> 0 <= y /\ (Z.to_nat y < length prev)%nat) ->
  exists prev' snap',
    snapRows t c ys prev snap = Some (prev', snap')
    /\ length prev' = length prev
    /\ (forall y, y ∈ ys -> prev' !! Z.to_nat y = Some (renderRow t c y))
    /\ (forall k, (forall y, y ∈ ys -> Z.to_nat y <> k) -> prev' !! k = prev !! k)
    /\ (forall y, y ∈ ys -> snap' !! y = Some (renderRow t c y))
    /\ (forall y, y ∉ ys -> snap' !! y = snap !! y).
Proof.
  induction ys as [|y ys IH]; intros prev snap Hnd Hin; simpl.
  - exists prev, snap. repeat split; try reflexivity; intros z Hz; now inversion Hz.
  - apply NoDup_cons in Hnd as [Hy Hnd].
    destruct (Hin y ltac:(left)) as [Hy0 Hylt].
    destruct (decide (Z.to_nat y < length prev)%nat); [|lia].
    assert (Hne : forall z, z ∈ ys -> Z.to_nat z <> Z.to_nat y).
    { intros z Hz E. destruct (Hin z ltac:(now right)) as [Hz0 _].
      apply Hy. replace y with z by lia. exact Hz. }
    destruct (IH (<[Z.to_nat y := renderRow t c y]> prev)
                 (<[y := renderRow t c y]> snap) Hnd)
      as (prev' & snap' & Hd & Hl & Hset & Hkeep & Hin' & Hout).
    { intros z Hz. rewrite length_insert. apply Hin. now right. }
    rewrite length_insert in Hl.
    exists prev', snap'. split; [exact Hd|]. split; [exact Hl|].
    split; [|split; [|split]].
    + intros z [->|Hz]%elem_of_cons; [|now apply Hset].
      rewrite Hkeep; [now apply list_lookup_insert_eq | exact Hne].
    + intros k Hk. rewrite Hkeep.
      * apply list_lookup_insert_ne. apply Hk. now left.
      * intros z Hz. apply Hk. now right.
    + intros z [->|Hz]%elem_of_cons; [|now apply Hin'].
      rewrite (Hout y Hy). apply lookup_insert_eq.
    + intros z Hz. apply not_elem_of_cons in Hz as [Hzy Hz].
      rewrite (Hout z Hz). now apply lookup_insert_ne.
Qed.

(** [Snapshot] returns on a well-formed screen: the snapshot holds every
    row, and the baseline becomes the rendered rows. *)
Lemma Snapshot_spec (s : Screen T) :
  screen_wf s ->
  exists s' snap,
    Snapshot s = Some (s', snap)
    /\ screen_wf s'
    /\ term s' = term s /\ cols s' = cols s /\ rows s' = rows s
    /\ (forall y, 0 <= y < rows s ->
          prevRows s' !! Z.to_nat y = Some (renderRow (term s) (cols s) y))
    /\ (forall y, sRows snap !! y
          = if decide (0 <= y < rows s) then Some (renderRow (term s) (cols s) y)
            else None)
    /\ sCols snap = cols s /\ sNumRows snap = rows s
    /\ sCursorRow snap = Y (term_Cursor (term s))
    /\ sCursorCol snap = X (term_Cursor (term s)).
Proof.
  intros Hwf. unfold Snapshot.
  destruct (snapRows_spec (term s) (cols s) (seqZ 0 (rows s)) (prevRows s) ∅)
    as (prev' & snap' & Hd & Hl & Hset & _ & Hin & Hout).
  { apply NoDup_seqZ. }
  { intros y Hy%elem_of_seqZ. unfold screen_wf in Hwf. lia. }
  rewrite Hd. eexists _, _. split; [reflexivity|]. simpl.
  split; [unfold screen_wf in *; simpl; congruence|].
  do 3 (split; [reflexivity|]).
  split; [intros y Hy; apply Hset, elem_of_seqZ; lia|].
  split; [|repeat split].
  intros y. destruct (decide (0 <= y < rows s)) as [Hy|Hy].
  - apply Hin, elem_of_seqZ. lia.
  - rewrite Hout, lookup_empty; [reflexivity|]. intros Hy'%elem_of_seqZ. lia.
Qed.

(** C3 (Screen.Snapshot). On a screen whose baseline has one entry per row,
    two snapshots in a row return the same value (rows, dimensions and
    cursor); and a write that follows a snapshot and leaves the rendering of
    every row as it was returns nil, as does the write of no bytes when the
    emulator ignores it. *)
Theorem Snapshot_twice (s : Screen T) :
  screen_wf s ->
  exists s1 snap s2,
    Snapshot s = Some (s1, snap)
    /\ Snapshot s1 = Some (s2, snap)
    /\ (forall data,
          (forall y, 0 <= y < rows s ->
             renderRow (term_Write (term s) data) (cols s) y
             = renderRow (term s) (cols s) y) ->
          exists s3, Write s1 data = Some (s3, None))
    /\ (term_Write (term s) "" = term s ->
        exists s3, Write s1 "" = Some (s3, None)).
Proof.
  intros Hwf.
  destruct (Snapshot_spec s Hwf)
    as (s1 & a & H1 & Hwf1 & Ht1 & Hc1 & Hr1 & Hp1 & Ha & Hac & Har & Hay & Hax).
  destruct (Snapshot_spec s1 Hwf1)
    as (s2 & b & H2 & _ & _ & _ & _ & _ & Hb & Hbc & Hbr & Hby & Hbx).
  assert (Hab : b = a).
  { destruct a as [ar ac an ay ax], b as [br bc bn by_ bx]; simpl in *.
    f_equal; try congruence.
    apply map_eq. intros y. rewrite Ha, Hb, Ht1, Hc1, Hr1. reflexivity. }
  assert (Hquiet : forall data,
             (forall y, 0 <= y < rows s ->
                renderRow (term_Write (term s) data) (cols s) y
                = renderRow (term s) (cols s) y) ->
             exists s3, Write s1 data = Some (s3, None)).
  { intros data Hsame.
    destruct (Write_diff s1 data Hwf1)
      as (s3 & r & Hw & _ & Ht3 & _ & _ & _ & Hr).
    exists s3. rewrite Hw. destruct r as [u|]; [|reflexivity].
    exfalso. destruct Hr as (_ & (y & Hy & Hne) & _).
    apply Hne. rewrite Hr1 in Hy. rewrite (Hp1 y Hy).
    rewrite Ht3, Ht1, Hc1. now rewrite Hsame. }
  exists s1, a, s2. split; [exact H1|]. split; [now rewrite H2, Hab|].
  split; [exact Hquiet|].
  intros Hid. apply Hquiet. intros y _. now rewrite Hid.
Qed.

End VtDiff.

(** ** The pipe-pane manager *)
Section PipePaneProofs.
Import Vt Tmux.
Context {T : Type} `{Terminal T}.

#[local] Opaque NewScreen Snapshot Write.

Lemma Inv_new (files0 : gset string) :
  Inv (NewPipePaneManager files0 : World T).
Proof.
  unfold Inv, Inv0, Subscribed, NewPipePaneManager; simpl.
  repeat split; try set_solver; intros *; rewrite ?lookup_empty; discriminate.
Qed.

Lemma Subscribe_Inv (w : World T) (s : string) (openOk startOk : bool) :
  Inv w ->
  exists w' r, Subscribe w s openOk startOk = Some (w', r) /\ Inv w'.
Proof.
  intros [(Hok & Hp & Hdis & Hcl & Hcx) Hsub].
  unfold Subscribe, makeChan. simpl.
  destruct (streams w !! s) as [st|] eqn:Hs.
  - destruct (Hok s st Hs) as (Hn & Hf & Hwf & Hd & Hlt & Hc & Hcn).
    destruct (Snapshot_spec (screen st) Hwf) as (scr & snap & -> & Hwf' & _).
    eexists _, _. split; [reflexivity|]. unfold with_streams; simpl.
    split; [split; [|split; [|split; [|split]]]|]; simpl.
    + intros s' st' Hl. apply lookup_insert_Some in Hl as [[<- <-]|[Hne Hl]].
      * unfold streamOk; simpl. repeat split; try assumption.
        -- apply disjoint_union_l. split; [|exact Hd].
           apply disjoint_singleton_l. intros Hin. apply Hcl in Hin. lia.
        -- intros ch [->%elem_of_singleton|Hin]%elem_of_union; [lia|].
           apply Hlt in Hin. lia.
      * destruct (Hok s' st' Hl) as (? & ? & ? & ? & Hlt' & ? & ?).
        unfold streamOk; simpl. repeat split; try assumption.
        intros ch Hin. apply Hlt' in Hin. lia.
    + rewrite dom_insert_L, Hp. apply elem_of_dom_2 in Hs. set_solver.
    + intros s1 s2 st1 st2 Hne H1 H2.
      apply lookup_insert_Some in H1 as [[<- <-]|[Hne1 H1]];
        apply lookup_insert_Some in H2 as [[<- <-]|[Hne2 H2]]; simpl;
        try congruence.
      * destruct (Hdis s s2 st st2 Hne Hs H2) as [Hd' Hc'].
        split; [|exact Hc'].
        apply disjoint_union_l. split; [|exact Hd'].
        apply disjoint_singleton_l. intros Hin.
        destruct (Hok s2 st2 H2) as (_ & _ & _ & _ & Hlt' & _).
        apply Hlt' in Hin. lia.
      * destruct (Hdis s1 s st1 st Hne H1 Hs) as [Hd' Hc'].
        split; [|exact Hc'].
        apply disjoint_union_r. split; [|exact Hd'].
        apply disjoint_singleton_r. intros Hin.
        destruct (Hok s1 st1 H1) as (_ & _ & _ & _ & Hlt' & _).
        apply Hlt' in Hin. lia.
      * now apply (Hdis s1 s2).
    + intros ch Hin. apply Hcl in Hin. lia.
    + exact Hcx.
    + unfold Subscribed; simpl. intros s' st' Hl.
      apply lookup_insert_Some in Hl as [[<- <-]|[Hne Hl]];
        simpl; [set_solver | now apply (Hsub s')].
  - destruct openOk; simpl.
    2:{ eexists _, _. split; [reflexivity|].
        split; [split; [|split; [|split; [|split]]]|]; simpl; try assumption.
        - intros s' st' Hl.
          destruct (Hok s' st' Hl) as (? & ? & ? & ? & Hlt' & ? & ?).
          unfold streamOk; simpl. repeat split; try assumption.
          intros ch Hin. apply Hlt' in Hin. lia.
        - intros ch Hin. apply Hcl in Hin. lia. }
    destruct startOk; simpl.
    2:{ eexists _, _. split; [reflexivity|].
        split; [split; [|split; [|split; [|split]]]|]; simpl; try assumption.
        - intros s' st' Hl.
          destruct (Hok s' st' Hl) as (? & ? & ? & ? & Hlt' & ? & ?).
          unfold streamOk; simpl. repeat split; try assumption.
          intros ch Hin. apply Hlt' in Hin. lia.
        - intros ch Hin. apply Hcl in Hin. lia. }
    destruct (NewScreen_some 80 24 ltac:(lia)) as (scr & -> & Hnew).
    unfold withCancel; simpl.
    destruct (Snapshot_spec scr Hnew) as (scr' & snap & -> & Hwf' & _).
    eexists _, _. split; [reflexivity|]. unfold with_streams; simpl.
    split; [split; [|split; [|split; [|split]]]|]; simpl.
    + intros s' st' Hl. apply lookup_insert_Some in Hl as [[<- <-]|[Hne Hl]].
      * unfold streamOk; simpl. repeat split; try assumption; try lia.
        -- apply disjoint_singleton_l. intros Hin. apply Hcl in Hin. lia.
        -- intros ch ->%elem_of_singleton. lia.
        -- intros Hin. apply Hcx in Hin. lia.
      * destruct (Hok s' st' Hl) as (? & ? & ? & ? & Hlt' & ? & ?).
        unfold streamOk; simpl. repeat split; try assumption; try lia.
        intros ch Hin. apply Hlt' in Hin. lia.
    + rewrite dom_insert_L, Hp. reflexivity.
    + intros s1 s2 st1 st2 Hne H1 H2.
      apply lookup_insert_Some in H1 as [[<- <-]|[Hne1 H1]];
        apply lookup_insert_Some in H2 as [[<- <-]|[Hne2 H2]]; simpl;
        try congruence.
      * destruct (Hok s2 st2 H2) as (_ & _ & _ & _ & Hlt' & _ & Hcn).
        split; [|lia]. apply disjoint_singleton_l. intros Hin.
        apply Hlt' in Hin. lia.
      * destruct (Hok s1 st1 H1) as (_ & _ & _ & _ & Hlt' & _ & Hcn).
        split; [|lia]. apply disjoint_singleton_r. intros Hin.
        apply Hlt' in Hin. lia.
      * now apply (Hdis s1 s2).
    + intros ch Hin. apply Hcl in Hin. lia.
    + intros c Hin. apply Hcx in Hin. lia.
    + unfold Subscribed; simpl. intros s' st' Hl.
      apply lookup_insert_Some in Hl as [[<- <-]|[Hne Hl]];
        simpl; [set_solver | now apply (Hsub s')].
Qed.

(** Tearing a stream down and dropping it from the map. *)
Lemma stopStream_Inv0 (w : World T) (s : string) (st : pipeStream T) :
  Inv0 w -> streams w !! s = Some st ->
  exists w1,
    stopStream w st = Some w1
    /\ Inv0 (with_streams w1 (delete s (streams w1)))
    /\ streams w1 = streams w
    /\ cmds w1 = CmdPipePaneStop s :: cmds w
    /\ pipes w1 = pipes w ∖ {[s]}
    /\ files w1 = files w ∖ {[pipeFilePath s]}
    /\ cancelled w1 = {[cancel st]} ∪ cancelled w
    /\ closed w1 = subscribers st ∪ closed w
    /\ nextChan w1 = nextChan w /\ nextCtx w1 = nextCtx w.
Proof.
  intros (Hok & Hp & Hdis & Hcl & Hcx) Hs.
  destruct (Hok s st Hs) as (Hn & Hf & Hwf & Hd & Hlt & Hc & Hcn).
  unfold stopStream, closeAll, cancelCtx, PipePaneStop, removeFile; simpl.
  destruct (decide (subscribers st ## closed w)) as [_|Hnd]; [|contradiction].
  eexists. split; [reflexivity|]. rewrite Hn, Hf. simpl.
  split; [|repeat split; reflexivity].
  unfold Inv0, with_streams; simpl.
  split; [|split; [|split; [|split]]].
  - intros s' st' Hl. apply lookup_delete_Some in Hl as [Hne Hl].
    destruct (Hok s' st' Hl) as (? & ? & ? & Hd' & ? & Hc' & ?).
    destruct (Hdis s s' st st' Hne Hs Hl) as [Hdd Hcc].
    unfold streamOk; simpl. repeat split; try assumption.
    + apply disjoint_union_r. split; [now symmetry | exact Hd'].
    + intros [E%elem_of_singleton|Hin]%elem_of_union; [congruence | now apply Hc'].
  - rewrite dom_delete_L, Hp. reflexivity.
  - intros s1 s2 st1 st2 Hne [_ H1]%lookup_delete_Some [_ H2]%lookup_delete_Some.
    now apply (Hdis s1 s2).
  - intros ch [Hin|Hin]%elem_of_union; [now apply Hlt | now apply Hcl].
  - intros c [->%elem_of_singleton|Hin]%elem_of_union; [exact Hcn | now apply Hcx].
Qed.

(** Removing one subscriber and closing its channel. *)
Lemma dropSubscriber_Inv0 (w : World T) (s : string) (st : pipeStream T) (ch : chan) :
  Inv0 w -> streams w !! s = Some st -> ch ∈ subscribers st ->
  exists w1,
    closeAll w {[ch]} = Some w1
    /\ closed w1 = {[ch]} ∪ closed w
    /\ streams w1 = streams w /\ cmds w1 = cmds w /\ pipes w1 = pipes w
    /\ files w1 = files w /\ cancelled w1 = cancelled w
    /\ nextChan w1 = nextChan w /\ nextCtx w1 = nextCtx w
    /\ Inv0 (with_streams w1
               (<[s := mkStream (session st) (filePath st) (screen st) (cancel st)
                                (subscribers st ∖ {[ch]})]> (streams w1))).
Proof.
  intros (Hok & Hp & Hdis & Hcl & Hcx) Hs Hin.
  destruct (Hok s st Hs) as (Hn & Hf & Hwf & Hd & Hlt & Hc & Hcn).
  unfold closeAll.
  destruct (decide ({[ch]} ## closed w)) as [_|Hnd]; [|set_solver].
  eexists. split; [reflexivity|]. simpl. do 8 (split; [reflexivity|]).
  unfold Inv0, with_streams; simpl.
  split; [|split; [|split; [|split]]].
  - intros s' st' Hl. apply lookup_insert_Some in Hl as [[<- <-]|[Hne Hl]].
    + unfold streamOk; simpl. repeat split; try assumption; [set_solver|].
      intros c Hc'. apply Hlt. set_solver.
    + destruct (Hok s' st' Hl) as (? & ? & ? & Hd' & ? & Hc' & ?).
      destruct (Hdis s s' st st' Hne Hs Hl) as [Hdd Hcc].
      unfold streamOk; simpl. repeat split; try assumption. set_solver.
  - rewrite dom_insert_L, Hp. apply elem_of_dom_2 in Hs. set_solver.
  - intros s1 s2 st1 st2 Hne H1 H2.
    apply lookup_insert_Some in H1 as [[<- <-]|[Hne1 H1]];
      apply lookup_insert_Some in H2 as [[<- <-]|[Hne2 H2]]; simpl;
      try congruence.
    + destruct (Hdis s s2 st st2 Hne Hs H2) as [Hd' Hc']. split; [set_solver | exact Hc'].
    + destruct (Hdis s1 s st1 st Hne H1 Hs) as [Hd' Hc']. split; [set_solver | exact Hc'].
    + now apply (Hdis s1 s2).
  - intros c [->%elem_of_singleton|Hc']%elem_of_union; [now apply Hlt | now apply Hcl].
  - exact Hcx.
Qed.

Lemma Unsubscribe_Inv (w : World T) (s : string) (ch : chan) :
  Inv w -> exists w', Unsubscribe w s ch = Some w' /\ Inv w'.
Proof.
  intros [Hinv Hsub]. unfold Unsubscribe.
  destruct (streams w !! s) as [st|] eqn:Hs; [|now exists w].
  destruct (decide (ch ∈ subscribers st)) as [Hin|Hin].
  - destruct (dropSubscriber_Inv0 w s st ch Hinv Hs Hin)
      as (w1 & -> & Hc1 & Hs1 & _ & _ & _ & _ & _ & _ & Hinv1).
    set (st' := mkStream (session st) (filePath st) (screen st) (cancel st)
                         (subscribers st ∖ {[ch]})) in *.
    set (w2 := with_streams w1 (<[s := st']> (streams w1))) in *.
    assert (Hs2 : streams w2 !! s = Some st') by apply lookup_insert_eq.
    destruct (decide (size (subscribers st') = 0%nat)) as [Hz|Hnz].
    + destruct (stopStream_Inv0 w2 s st' Hinv1 Hs2) as (w3 & -> & Hinv3 & Hs3 & _).
      eexists. split; [reflexivity|]. split; [exact Hinv3|].
      unfold Subscribed, with_streams; simpl. rewrite Hs3.
      intros s' x [Hne Hl]%lookup_delete_Some.
      unfold w2 in Hl; simpl in Hl. rewrite lookup_insert_ne in Hl by exact Hne.
      rewrite Hs1 in Hl. now apply (Hsub s').
    + eexists. split; [reflexivity|]. split; [exact Hinv1|].
      unfold Subscribed, w2, with_streams; simpl.
      intros s' x Hl. apply lookup_insert_Some in Hl as [[<- <-]|[Hne Hl]].
      * intros E. apply Hnz. rewrite E. apply size_empty.
      * rewrite Hs1 in Hl. now apply (Hsub s').
  - destruct (decide (size (subscribers st) = 0%nat)) as [Hz|Hnz].
    + exfalso. apply (Hsub s st Hs). now apply size_empty_inv in Hz as ->%leibniz_equiv.
    + now exists w.
Qed.

Lemma tailWrite_Inv (w : World T) (s : string) (data : string) :
  Inv w -> exists w', tailWrite w s data = Some w' /\ Inv w'.
Proof.
  intros Hinv. pose proof Hinv as [(Hok & Hp & Hdis & Hcl & Hcx) Hsub].
  unfold tailWrite.
  destruct (streams w !! s) as [st|] eqn:Hs; [|now exists w].
  destruct (Hok s st Hs) as (Hn & Hf & Hwf & Hd & Hlt & Hc & Hcn).
  destruct (Write_diff (screen st) data Hwf) as (scr & r & -> & Hwf' & _).
  eexists. split; [reflexivity|]. unfold Inv, Inv0, Subscribed, with_streams; simpl.
  split; [split; [|split; [|split; [|split]]]|]; try assumption.
  - intros s' st' Hl. apply lookup_insert_Some in Hl as [[<- <-]|[Hne Hl]];
      [|now apply Hok].
    unfold streamOk; simpl. repeat split; assumption.
  - rewrite dom_insert_L, Hp. apply elem_of_dom_2 in Hs. set_solver.
  - intros s1 s2 st1 st2 Hne H1 H2.
    apply lookup_insert_Some in H1 as [[<- <-]|[Hne1 H1]];
      apply lookup_insert_Some in H2 as [[<- <-]|[Hne2 H2]]; simpl;
      try congruence; eauto.
  - intros s' st' Hl. apply lookup_insert_Some in Hl as [[<- <-]|[Hne Hl]];
      simpl; eauto.
Qed.

Lemma stopEach_Inv (l : list (string * pipeStream T)) :
  forall w : World T,
  Inv w -> NoDup l.*1 ->
  (forall name st, (name, st) ∈ l -> streams w !! name = Some st) ->
  exists w',
    stopEach w l = Some w' /\ Inv w'
    /\ forall k, streams w' !! k
                 = if decide (k ∈ l.*1) then None else streams w !! k.
Proof.
  induction l as [|[name st] l IH]; intros w Hinv Hnd Hin; simpl.
  - exists w. split; [reflexivity|]. split; [exact Hinv|]. intros k.
    destruct (decide (k ∈ [])) as [Hk|_]; [now inversion Hk | reflexivity].
  - destruct Hinv as [Hinv Hsub]. simpl in Hnd.
    apply NoDup_cons in Hnd as [Hfresh Hnd].
    assert (Hs : streams w !! name = Some st) by (apply Hin; now left).
    destruct (stopStream_Inv0 w name st Hinv Hs) as (w1 & -> & Hinv1 & Hs1 & _).
    destruct (IH (with_streams w1 (delete name (streams w1)))) as (w' & Hd & Hinv' & Hl).
    + split; [exact Hinv1|]. unfold Subscribed, with_streams; simpl. rewrite Hs1.
      intros s' x [_ Hx]%lookup_delete_Some. now apply (Hsub s').
    + exact Hnd.
    + intros n x Hx. unfold with_streams; simpl. rewrite Hs1.
      rewrite lookup_delete_ne; [apply Hin; now right|].
      intros ->. apply Hfresh. apply list_elem_of_fmap. now exists (n, x).
    + exists w'. split; [exact Hd|]. split; [exact Hinv'|].
      intros k. rewrite Hl. unfold with_streams; simpl. rewrite Hs1.
      destruct (decide (k ∈ l.*1)) as [Hk|Hk].
      * rewrite decide_True; [reflexivity | now right].
      * destruct (decide (k = name)) as [->|Hne].
        -- rewrite lookup_delete_eq. rewrite decide_True; [reflexivity | now left].
        -- rewrite lookup_delete_ne by congruence.
           rewrite decide_False; [reflexivity|].
           intros [->|Hk']%elem_of_cons; contradiction.
Qed.

Lemma StopAll_Inv (w : World T) :
  Inv w -> exists w', StopAll w = Some w' /\ Inv w' /\ streams w' = ∅.
Proof.
  intros Hinv. unfold StopAll.
  destruct (stopEach_Inv (map_to_list (streams w)) w Hinv) as (w' & Hd & Hinv' & Hl).
  - apply NoDup_fst_map_to_list.
  - intros name st Hin. now apply elem_of_map_to_list.
  - exists w'. split; [exact Hd|]. split; [exact Hinv'|].
    apply map_eq. intros k. rewrite Hl, lookup_empty.
    destruct (decide (k ∈ (map_to_list (streams w)).*1)) as [Hk|Hk]; [reflexivity|].
    destruct (streams w !! k) as [x|] eqn:Hx; [|reflexivity].
    exfalso. apply Hk. apply list_elem_of_fmap. exists (k, x).
    split; [reflexivity | now apply elem_of_map_to_list].
Qed.

Lemma step_Inv (w : World T) (o : Op) :
  Inv w -> exists w', step w o = Some w' /\ Inv w'.
Proof.
  intros Hinv. destruct o as [s openOk startOk|s ch| |s data]; simpl.
  - destruct (Subscribe_Inv w s openOk startOk Hinv) as (w' & r & -> & Hinv').
    now exists w'.
  - now apply Unsubscribe_Inv.
  - destruct (StopAll_Inv w Hinv) as (w' & -> & Hinv' & _). now exists w'.
  - now apply tailWrite_Inv.
Qed.

Lemma reachable_Inv (w : World T) : reachable w -> Inv w.
Proof.
  induction 1 as [files0|w o w' _ IH Hstep]; [apply Inv_new|].
  destruct (step_Inv w o IH) as (w2 & Hs & Hinv). congruence.
Qed.

(** C1 (PipePaneManager). In every state the manager reaches, the pipe-pane
    of a session is active exactly when the streams map holds a stream for
    the session with at least one subscriber. The first [Subscribe] of a
    session sends the pipe-pane start command and creates the stream with
    the new channel as its only subscriber; the [Unsubscribe] that removes
    the last subscriber cancels the tailer context, sends the pipe-pane stop
    command, leaves every subscriber channel closed, deletes the tail file
    and drops the stream. *)
Theorem pipe_pane_iff_subscribed (w : World T) :
  reachable w ->
  (forall s, pipeActive w s <-> hasSubscribedStream w s)
  /\ (forall s, streams w !! s = None ->
        exists w' ch snap st,
          Subscribe w s true true = Some (w', Some (ch, snap))
          /\ cmds w' = CmdPipePaneStart s ("cat >> " +:+ pipeFilePath s) :: cmds w
          /\ streams w' !! s = Some st
          /\ subscribers st = {[ch]}
          /\ pipeFilePath s ∈ files w'
          /\ pipeActive w' s)
  /\ (forall s st ch, streams w !! s = Some st -> subscribers st = {[ch]} ->
        exists w',
          Unsubscribe w s ch = Some w'
          /\ cancel st ∈ cancelled w'
          /\ cmds w' = CmdPipePaneStop s :: cmds w
          /\ subscribers st ⊆ closed w'
          /\ (filePath st ∉ files w')
          /\ streams w' !! s = None
          /\ ~ pipeActive w' s).
Proof.
  intros Hr. pose proof (reachable_Inv w Hr) as [Hinv Hsub].
  pose proof Hinv as (Hok & Hp & Hdis & Hcl & Hcx).
  split; [|split].
  - intros s. unfold pipeActive, hasSubscribedStream. rewrite Hp, elem_of_dom.
    split.
    + intros [st Hs]. exists st. split; [exact Hs|].
      pose proof (Hsub s st Hs) as Hne.
      destruct (decide (size (subscribers st) = 0%nat)) as [Hz|Hnz]; [|lia].
      exfalso. apply Hne. now apply size_empty_inv in Hz as ->%leibniz_equiv.
    + intros (st & Hs & _). now exists st.
  - intros s Hs. unfold Subscribe, makeChan; simpl. rewrite Hs. simpl.
    destruct (NewScreen_some 80 24 ltac:(lia)) as (scr & -> & Hnew).
    unfold withCancel; simpl.
    destruct (Snapshot_spec scr Hnew) as (scr' & snap & -> & _).
    eexists _, _, _, _. split; [reflexivity|]. unfold with_streams; simpl.
    split; [reflexivity|]. split; [apply lookup_insert_eq|].
    split; [reflexivity|]. unfold pipeActive; simpl. split; set_solver.
  - intros s st ch Hs Hone. unfold Unsubscribe. rewrite Hs.
    destruct (decide (ch ∈ subscribers st)) as [Hin|Hin]; [|set_solver].
    destruct (dropSubscriber_Inv0 w s st ch Hinv Hs Hin)
      as (w1 & -> & Hc1 & Hs1 & Hcm1 & Hp1 & Hf1 & Hx1 & _ & _ & Hinv1).
    set (st' := mkStream (session st) (filePath st) (screen st) (cancel st)
                         (subscribers st ∖ {[ch]})) in *.
    set (w2 := with_streams w1 (<[s := st']> (streams w1))) in *.
    assert (Hs2 : streams w2 !! s = Some st') by apply lookup_insert_eq.
    destruct (decide (size (subscribers st') = 0%nat)) as [Hz|Hnz].
    2:{ exfalso. apply Hnz. unfold st'; simpl. rewrite Hone.
        rewrite difference_diag_L. apply size_empty. }
    destruct (stopStream_Inv0 w2 s st' Hinv1 Hs2)
      as (w3 & -> & _ & Hs3 & Hcm3 & Hp3 & Hf3 & Hx3 & Hc3 & _).
    destruct (Hok s st Hs) as (_ & Hfp & _).
    eexists. split; [reflexivity|]. unfold with_streams, pipeActive; simpl.
    split; [rewrite Hx3; set_solver|].
    split; [now rewrite Hcm3; unfold w2; simpl; rewrite Hcm1|].
    split; [rewrite Hc3; unfold w2; simpl; rewrite Hc1, Hone; set_solver|].
    split; [rewrite Hf3, Hfp; set_solver|].
    split; [apply lookup_delete_eq|].
    rewrite Hp3. set_solver.
Qed.

(** C10 (PipePaneManager.Unsubscribe). In every state the manager reaches, a
    call for a session without a stream, or with a channel that is not a
    subscriber of the session's stream, returns the state it was given: the
    streams map with every subscriber set, the files, the pipe-panes and the
    commands sent are those before the call. *)
Theorem Unsubscribe_frame (w : World T) (s : string) (ch : chan) :
  reachable w ->
  (streams w !! s = None
   \/ exists st, streams w !! s = Some st /\ ch ∉ subscribers st) ->
  Unsubscribe w s ch = Some w.
Proof.
  intros Hr Hcase. pose proof (reachable_Inv w Hr) as [_ Hsub].
  unfold Unsubscribe.
  destruct Hcase as [Hs|(st & Hs & Hnin)]; rewrite Hs; [reflexivity|].
  destruct (decide (ch ∈ subscribers st)) as [Hin|_]; [contradiction|].
  destruct (decide (size (subscribers st) = 0%nat)) as [Hz|Hnz]; [|reflexivity].
  exfalso. apply (Hsub s st Hs).
  now apply size_empty_inv in Hz as ->%leibniz_equiv.
Qed.

#[local] Transparent NewScreen Snapshot Write.

End PipePaneProofs.

(** ** The workdir filter *)

(** C4 (registry workdir filter). The filter passes a pane exactly when the
    filter is empty, or the workDir is the filter, or the filter followed by
    the path separator is a prefix of the workDir; with the filter /tmp/gt
    the workDirs /tmp/gt and /tmp/gt/work pass and /tmp/gt-other does not,
    so that a scan keeps the first two sessions of the three. *)
Theorem workDirPasses_spec :
  (forall filter workDir,
     Agents.workDirPasses filter workDir = true
     <-> filter = "" \/ workDir = filter
         \/ HasPrefix workDir (filter +:+ Agents.pathSeparator))
  /\ Agents.workDirPasses "/tmp/gt" "/tmp/gt" = true
  /\ Agents.workDirPasses "/tmp/gt" "/tmp/gt/work" = true
  /\ Agents.workDirPasses "/tmp/gt" "/tmp/gt-other" = false
  /\ Agents.scanWorkDirs "/tmp/gt"
       [("s1", "/tmp/gt"); ("s2", "/tmp/gt/work"); ("s3", "/tmp/gt-other")]
     = ["s1"; "s2"].
Proof.
  split; [|repeat split; reflexivity].
  intros filter workDir. unfold Agents.workDirPasses.
  destruct (decide (filter = "")) as [E|E]; [tauto|].
  destruct (decide (workDir = filter)) as [E'|E']; [tauto|].
  rewrite prefix_spec. tauto.
Qed.

(** ** The control-channel wrappers *)
Section WrapperProofs.
Import ControlMode.


End WrapperProofs.

(** ** The lifecycle broadcast *)
Section BroadcastProofs.
Import Wsbase Wsadapter.
Variable json_Marshal : Response -> option string.



End BroadcastProofs.

(** ** The paste payload *)
Section PasteProofs.
Import Agentio.

(** The cases of TestIsTextLikeEdgeCases and TestIsUTF8TextEdgeCases on the
    model; the second line is what the wording of the spec gives where the
    test wants false. *)
Lemma IsTextLike_tests :
  IsTextLike "text/plain" binaryData = false
  /\ IsTextLike_spec "text/plain" binaryData = true
  /\ IsTextLike "text/plain" "" = true
  /\ IsTextLike "application/xml" "<root>hello</root>" = true
  /\ IsTextLike "application/javascript" "console.log('hi')" = true
  /\ IsTextLike "application/octet-stream" "actually just text" = true
  /\ IsUTF8Text (String "255" (String "254" (String "128" (String "129" "")))) = false
  /\ IsUTF8Text ("hello" +:+ String "031" "world") = false
  /\ IsUTF8Text (controlAt 4500) = true
  /\ IsUTF8Text (controlAt 100) = false.
Proof. repeat split; vm_compute; reflexivity. Qed.



End PasteProofs.

(** ** The command line *)
Section MainProofs.
Import Main.

Lemma Clean_nonempty (path : string) : Clean path <> "".
Proof.
  unfold Clean. set (res := if String.prefix "/" path then _ else _).
  destruct (decide (res = "")); [discriminate | assumption].
Qed.

(** C9, on main.go. The adapter declares no flag named work-dir: whatever
    $HOME is, the name is unknown to the flag set and a command line that
    gives --work-dir is refused; the directory filter is the flag gt-dir,
    and without arguments its value is $HOME/gt, which is never the empty
    string. *)
Theorem adapter_has_no_work_dir_flag :
  (forall home, lookupFlag (adapterFlags home) "work-dir" = None)
  /\ (forall home value rest,
        adapterWorkDir home ("--work-dir" :: value :: rest) = None)
  /\ (forall home, exists dir,
        adapterWorkDir home [] = Some dir /\ dir = Join [home; "gt"] /\ dir <> "")
  /\ adapterWorkDir "/root" [] = Some "/root/gt".
Proof.
  split; [reflexivity|]. split; [reflexivity|]. split; [|reflexivity].
  intros home. eexists. split; [reflexivity|]. split; [reflexivity|].
  unfold Join. simpl.
  destruct (negb (String.eqb home "")); simpl; apply Clean_nonempty.
Qed.

End MainProofs.

(** ** The screen on the teletype: the tests of the package *)
Section VtTests.
Import Vt.

(** TestWritePlainText: the row and the cursor column. *)
Example test_write_plain_text :
  (s ← NewScreen (T := Tty) 80 24;
   '(_, u) ← Write s "hello world";
   upd ← u;
   Some (uRows upd !! 0, uCursorCol upd))
  = Some (Some "hello world", 11).
Proof. vm_compute. reflexivity. Qed.

(** TestDiffOnlyChangedRows: after a first write, a write to row 1 reports
    row 1 alone. *)
Example test_diff_only_changed_rows :
  (s ← NewScreen (T := Tty) 80 24;
   '(s1, _) ← Write s "initial";
   '(_, u) ← Write s1 (crlf +:+ "second line");
   upd ← u;
   Some (map_to_list (uRows upd)))
  = Some [(1, "second line")].
Proof. vm_compute. reflexivity. Qed.

(** TestNilUpdateWhenNoChange and TestSnapshotSyncsBaseline. *)
Example test_nil_update_when_no_change :
  (s ← NewScreen (T := Tty) 80 24;
   '(s1, _) ← Write s "hello";
   '(_, u) ← Write s1 "";
   Some u) = Some None
  /\ (s ← NewScreen (T := Tty) 80 24;
      '(s1, _) ← Write s "hello";
      '(s2, snap) ← Snapshot s1;
      '(_, u) ← Write s2 "";
      Some (sRows snap !! 0, u)) = Some (Some "hello", None).
Proof. split; vm_compute; reflexivity. Qed.

(** A red word, a plain gap and a bold letter: the colour is dropped with a
    reset, the bold letter is followed by the final reset, and the blank
    cells after it are not rendered. *)
Example test_render_styles :
  renderRow (ttyOfRow 0 [cellOf "h" 0 1; cellOf "i" 0 1; blank;
                         cellOf "x" modeBold DefaultFG; blank; blank]) 80 0
  = ESC +:+ "[31mhi" +:+ ESC +:+ "[0m " +:+ ESC +:+ "[1mx" +:+ ESC +:+ "[0m".
Proof. vm_compute. reflexivity. Qed.

(** Bold and italic in true colour, then italic dropped: the reset is
    followed by the bold and colour parameters again. *)
Example test_render_reapply :
  renderRow (ttyOfRow 0 [mkGlyph 104 20 300 70000; mkGlyph 105 4 300 70000]) 80 0
  = ESC +:+ "[1;3;38;2;0;1;44;48;2;1;17;112mh"
    +:+ ESC +:+ "[0;1;38;2;0;1;44;48;2;1;17;112mi" +:+ ESC +:+ "[0m".
Proof. vm_compute. reflexivity. Qed.

End VtTests.

(** ** The theorems at concrete inputs *)
Section Witnesses.
Import Vt Tmux Wsbase Wsadapter.

Lemma Write_diff_witness :
  screen_wf typedScreen
  /\ exists s' r, Write typedScreen "x" = Some (s', r) /\ screen_wf s'.
Proof.
  split; [reflexivity|].
  destruct (Write_diff typedScreen "x" eq_refl) as (s' & r & Hw & Hwf & _).
  exists s', r. split; [exact Hw | exact Hwf].
Defined.

Lemma Snapshot_twice_witness :
  screen_wf typedScreen
  /\ exists s1 snap s2,
       Snapshot typedScreen = Some (s1, snap) /\ Snapshot s1 = Some (s2, snap).
Proof.
  split; [reflexivity|].
  destruct (Snapshot_twice typedScreen eq_refl) as (s1 & snap & s2 & H1 & H2 & _).
  exists s1, snap, s2. split; [exact H1 | exact H2].
Defined.

Lemma subscribedWorld_reachable : reachable subscribedWorld.
Proof.
  apply (reach_step (NewPipePaneManager ∅) (OpSubscribe "agent-1" true true));
    [apply reach_new | vm_compute; reflexivity].
Defined.

Lemma pipe_pane_iff_subscribed_witness :
  reachable subscribedWorld
  /\ forall s, pipeActive subscribedWorld s <-> hasSubscribedStream subscribedWorld s.
Proof.
  split; [exact subscribedWorld_reachable|].
  destruct (pipe_pane_iff_subscribed subscribedWorld subscribedWorld_reachable)
    as [Hiff _].
  exact Hiff.
Defined.

Lemma Unsubscribe_frame_witness :
  reachable subscribedWorld
  /\ (exists st, streams subscribedWorld !! "agent-1" = Some st
                 /\ 7%nat ∉ subscribers st)
  /\ Unsubscribe subscribedWorld "agent-1" 7%nat = Some subscribedWorld.
Proof.
  assert (Hst : exists st, streams subscribedWorld !! "agent-1" = Some st
                           /\ 7%nat ∉ subscribers st).
  { eexists. split; [vm_compute; reflexivity|].
    intros Hin. apply (bool_decide_pack (7%nat ∈ (_ : gset nat))) in Hin.
    vm_compute in Hin. exact Hin. }
  split; [exact subscribedWorld_reachable|]. split; [exact Hst|].
  apply (Unsubscribe_frame subscribedWorld "agent-1" 7%nat subscribedWorld_reachable).
  right. exact Hst.
Defined.


End Witnesses.

(** ** The helper of the screen tests *)
Section StripProofs.
Import Vt VtTest.
Context {T : Type} `{Terminal T}.

Lemma afterM_length (s t : string) :
  afterM s = Some t -> (String.length t < String.length s)%nat.
Proof.
  revert t. induction s as [|c s IH]; intros t; simpl; [discriminate|].
  destruct (Ascii.eqb c "m"); [intros [= ->]; lia|].
  intros Ht. apply IH in Ht. lia.
Qed.

(** More fuel than bytes changes nothing. *)
Lemma stripLoop_fuel (n : nat) :
  forall m s, (String.length s <= n)%nat -> (String.length s <= m)%nat ->
  stripLoop n s = stripLoop m s.
Proof.
  induction n as [|n IH]; intros m s Hn Hm.
  - destruct s; [|simpl in Hn; lia]. now destruct m.
  - destruct m as [|m]; [destruct s; [reflexivity | simpl in Hm; lia]|].
    destruct s as [|c rest]; [reflexivity|]. simpl in Hn, Hm. simpl.
    destruct (Ascii.eqb c escChar).
    + destruct rest as [|d rest2]; [f_equal; apply IH; simpl; lia|].
      destruct (Ascii.eqb d "[").
      * destruct (afterM rest2) as [after|] eqn:Ha.
        -- apply afterM_length in Ha. simpl in Hn, Hm. apply IH; lia.
        -- f_equal. apply IH; lia.
      * f_equal. apply IH; lia.
    + f_equal. apply IH; lia.
Qed.

Lemma stripLoop_S (k : nat) (c : ascii) (rest : string) :
  stripLoop (S k) (String c rest)
  = match (if Ascii.eqb c escChar then
             match rest with
             | String d rest2 => if Ascii.eqb d "[" then afterM rest2 else None
             | EmptyString => None
             end
           else None) with
    | Some after => stripLoop k after
    | None => String c (stripLoop k rest)
    end.
Proof. reflexivity. Qed.

Lemma stripANSI_plain (c : ascii) (s : string) :
  c <> escChar -> stripANSI (String c s) = String c (stripANSI s).
Proof.
  intros Hc. unfold stripANSI.
  change (String.length (String c s)) with (S (String.length s)).
  rewrite stripLoop_S.
  destruct (Ascii.eqb_spec c escChar); [contradiction | reflexivity].
Qed.

Lemma stripANSI_skip (body after : string) :
  afterM body = Some after ->
  stripANSI (String escChar (String "[" body)) = stripANSI after.
Proof.
  intros Ha. unfold stripANSI.
  change (String.length (String escChar (String "[" body)))
    with (S (S (String.length body))).
  rewrite stripLoop_S, !Ascii.eqb_refl, Ha.
  apply afterM_length in Ha. apply stripLoop_fuel; lia.
Qed.

Lemma afterM_app (a b : string) :
  afterM (a +:+ b)
  = match afterM a with
    | Some t => Some (t +:+ b)
    | None => afterM b
    end.
Proof.
  induction a as [|c a IH]; [reflexivity|].
  rewrite app_str_cons. simpl. now destruct (Ascii.eqb c "m").
Qed.

(** No letter m in the string. *)
Lemma mFree_app (a b : string) : mFree a -> mFree b -> mFree (a +:+ b).
Proof. unfold mFree. intros Ha Hb. now rewrite afterM_app, Ha. Qed.

Lemma mFree_cons (c : ascii) (s : string) :
  c <> "m"%char -> mFree s -> mFree (String c s).
Proof.
  unfold mFree. intros Hc Hs. simpl.
  destruct (Ascii.eqb_spec c "m"); [contradiction | exact Hs].
Qed.

Lemma pretty_N_go_mFree (x : N) : forall s, mFree s -> mFree (pretty_N_go x s).
Proof.
  induction (N.lt_wf_0 x) as [x _ IH]; intros s Hs.
  assert (x = 0 \/ 0 < x)%N as [->|Hx] by lia.
  - now rewrite pretty_N_go_0.
  - rewrite pretty_N_go_step by exact Hx. apply IH; [now apply N.div_lt|].
    apply mFree_cons; [|exact Hs].
    unfold pretty_N_char. repeat case_match; discriminate.
Qed.

Lemma pretty_Z_mFree (z : Z) : mFree (pretty z).
Proof.
  unfold pretty, pretty_Z. destruct z as [|p|p]; [reflexivity| |];
    [|apply mFree_app; [reflexivity|]];
    unfold pretty, pretty_positive, pretty, pretty_N;
    (case_decide; [reflexivity | apply pretty_N_go_mFree; reflexivity]).
Qed.

Ltac m_free :=
  repeat first
    [ apply pretty_Z_mFree | apply mFree_app | reflexivity ].

Lemma fgSGR_mFree (c : Z) : mFree (fgSGR c).
Proof. unfold fgSGR. repeat case_decide; m_free. Qed.

Lemma bgSGR_mFree (c : Z) : mFree (bgSGR c).
Proof. unfold bgSGR. repeat case_decide; m_free. Qed.

Lemma concat_mFree (params : list string) :
  Forall mFree params -> mFree (String.concat ";" params).
Proof.
  induction params as [|p ps IH]; [reflexivity|]. intros Hall.
  apply Forall_cons in Hall as [Hp Hps]. simpl.
  destruct ps as [|q qs]; [exact Hp|].
  apply mFree_app; [exact Hp|]. apply mFree_app; [reflexivity | now apply IH].
Qed.

Lemma applyParams_mFree (c p : Pen) : Forall mFree (applyParams c p).
Proof.
  unfold applyParams.
  repeat (apply Forall_app; split);
    repeat case_match; repeat constructor;
    try (apply fgSGR_mFree); try (apply bgSGR_mFree); reflexivity.
Qed.

Lemma sgrParams_mFree (c p : Pen) : Forall mFree (sgrParams c p).
Proof.
  unfold sgrParams. destruct (needReset c p); [|apply applyParams_mFree].
  constructor; [reflexivity | apply applyParams_mFree].
Qed.

(** A style change is skipped whole. *)
Lemma stripANSI_sgr (params : list string) (tail : string) :
  Forall mFree params ->
  stripANSI (sgrSeq params +:+ tail) = stripANSI tail.
Proof.
  intros Hall.
  assert (E : sgrSeq params +:+ tail
              = String escChar (String "[" (String.concat ";" params +:+ "m" +:+ tail))).
  { unfold sgrSeq, ESC, byte_str.
    rewrite !app_str_assoc, app_str_cons, app_str_nil_l. reflexivity. }
  rewrite E. apply stripANSI_skip.
  rewrite afterM_app. pose proof (concat_mFree params Hall) as Hm.
  unfold mFree in Hm. rewrite Hm. reflexivity.
Qed.

Lemma escFree_cons_inv (c : ascii) (s : string) :
  escFree (String c s) -> c <> escChar /\ escFree s.
Proof.
  unfold escFree. simpl. destruct (afterLastESC s); [discriminate|].
  destruct (Ascii.eqb_spec c escChar); [discriminate | tauto].
Qed.

(** Text without an escape byte is copied. *)
Lemma stripANSI_text (a tail : string) :
  escFree a -> stripANSI (a +:+ tail) = a +:+ stripANSI tail.
Proof.
  induction a as [|c a IH]; intros Ha; [reflexivity|].
  apply escFree_cons_inv in Ha as [Hc Ha].
  rewrite !app_str_cons, stripANSI_plain by exact Hc. now rewrite IH.
Qed.

Lemma stripANSI_rowBody (cells : list Glyph) :
  forall prev tail,
  Forall (fun c => plainPiece (EncodeRune (cellChar c))) cells ->
  stripANSI (rowBody prev cells +:+ tail) = plainText cells +:+ stripANSI tail.
Proof.
  induction cells as [|c cs IH]; intros prev tail Hall; [reflexivity|].
  apply Forall_cons in Hall as [[Hc _] Hcs]. simpl.
  unfold cellPiece. rewrite !app_str_assoc.
  destruct (decide (penOf c = prev)) as [E|E].
  - rewrite app_str_nil_l, stripANSI_text by exact Hc. now rewrite IH.
  - rewrite stripANSI_sgr by apply sgrParams_mFree.
    rewrite stripANSI_text by exact Hc. now rewrite IH.
Qed.

Lemma cells_plainPiece (t : T) (y lc : Z) :
  (forall x, 0 <= x <= lc -> Char (term_Cell t x y) <> 27) ->
  Forall (fun c => plainPiece (EncodeRune (cellChar c))) (rowCells t y lc).
Proof.
  intros Hesc. unfold rowCells. apply Forall_fmap, Forall_seqZ.
  intros x Hx. simpl. apply EncodeRune_plain. unfold cellChar.
  destruct (Z.eqb_spec (Char (term_Cell t x y)) 0); [lia | apply Hesc; lia].
Qed.

(** X18 (stripANSI, Screen.renderRow). Stripping the escape sequences from a
    rendered row leaves the characters of its cells up to the last column with
    content, when no cell holds the escape character. *)
Theorem stripANSI_renderRow (t : T) (c y : Z) :
  let lc := findLastCol t y (Z.to_nat c) in
  (forall x, 0 <= x <= lc -> Char (term_Cell t x y) <> 27) ->
  stripANSI (renderRow t c y) = plainText (rowCells t y lc).
Proof.
  intros lc Hesc.
  pose proof (renderRow_shape t c y) as Hshape.
  cbv zeta in Hshape. fold lc in Hshape.
  destruct Hshape as [(E & _ & Hr)|(Hlc & _ & _ & Hr & _)].
  - rewrite Hr, E. reflexivity.
  - rewrite Hr, stripANSI_rowBody by now apply cells_plainPiece.
    destruct (penActive _).
    + change (stripANSI resetSeq) with "". now rewrite app_str_nil_r.
    + change (stripANSI "") with "". now rewrite app_str_nil_r.
Qed.

Lemma rowBody_default (cells : list Glyph) :
  Forall (fun c => penOf c = defaultPen) cells ->
  rowBody defaultPen cells = plainText cells.
Proof.
  induction cells as [|c cs IH]; intros Hall; [reflexivity|].
  apply Forall_cons in Hall as [Hc Hcs]. simpl. unfold cellPiece.
  rewrite Hc, decide_True by reflexivity. rewrite app_str_nil_l.
  now rewrite IH.
Qed.

Lemma escFree_app_inv (a b : string) :
  escFree (a +:+ b) -> escFree a /\ escFree b.
Proof.
  unfold escFree. rewrite afterLastESC_app.
  destruct (afterLastESC b); [discriminate|].
  destruct (afterLastESC a); [discriminate | tauto].
Qed.

Lemma rowBody_escFree_inv (cells : list Glyph) :
  forall prev, escFree (rowBody prev cells) ->
  Forall (fun c => penOf c = prev) cells.
Proof.
  induction cells as [|c cs IH]; intros prev Hfree; [constructor|].
  simpl in Hfree. apply escFree_app_inv in Hfree as [Hc Hcs].
  assert (Hpen : penOf c = prev).
  { unfold cellPiece in Hc. destruct (decide (penOf c = prev)) as [E|E]; [exact E|].
    apply escFree_app_inv in Hc as [Hseq _]. exfalso.
    unfold sgrSeq, ESC, byte_str in Hseq. rewrite app_str_cons in Hseq.
    apply escFree_cons_inv in Hseq as [Hne _]. now apply Hne. }
  constructor; [exact Hpen|]. rewrite Hpen in Hcs. now apply IH.
Qed.

(** X17 (Screen.renderRow). A row whose cells carry no style renders as its
    characters alone: no escape sequence is written. And a rendering without an
    escape byte comes from such a row only: a cell with a style, up to the last
    column with content, puts an escape sequence into the row. *)
Theorem renderRow_unstyled (t : T) (c y : Z) :
  let lc := findLastCol t y (Z.to_nat c) in
  let unstyled :=
    forall x, 0 <= x <= lc -> penOf (term_Cell t x y) = defaultPen in
  (unstyled -> renderRow t c y = plainText (rowCells t y lc))
  /\ (escFree (renderRow t c y) -> unstyled).
Proof.
  intros lc unstyled.
  pose proof (renderRow_shape t c y) as Hshape.
  cbv zeta in Hshape. fold lc in Hshape.
  destruct Hshape as [(E & _ & Hr)|(Hlc & _ & _ & Hr & _)].
  - split.
    + intros _. rewrite Hr, E. reflexivity.
    + intros _ x Hx. lia.
  - split.
    + intros Hpen. rewrite Hr, (Hpen lc) by lia.
      change (penActive defaultPen) with false. rewrite app_str_nil_r.
      apply rowBody_default. unfold rowCells.
      apply Forall_fmap, Forall_seqZ. intros x Hx. simpl. apply Hpen. lia.
    + rewrite Hr. intros [Hbody _]%escFree_app_inv x Hx.
      apply rowBody_escFree_inv in Hbody.
      unfold rowCells in Hbody. rewrite Forall_fmap, Forall_seqZ in Hbody.
      apply Hbody. lia.
Qed.

End StripProofs.

(** ** The calls of the pipe-pane manager *)
Section PipeExtra.
Import Vt Tmux.
Context {T : Type} `{Terminal T}.

(** X8 (PipePaneManager). No call panics in a state the manager reaches: no
    channel is closed twice and no baseline is indexed out of range. *)
Theorem step_never_panics (w : World T) (o : Op) :
  reachable w -> exists w', step w o = Some w' /\ reachable w'.
Proof.
  intros Hr. destruct (step_Inv w o (reachable_Inv w Hr)) as (w' & Hs & _).
  exists w'. split; [exact Hs|]. now apply (reach_step w o w').
Qed.

(** What tearing down the streams of [l] in turn leaves behind. *)
Lemma stopEach_effects (l : list (string * pipeStream T)) :
  forall w : World T,
  Inv w -> NoDup l.*1 ->
  (forall name st, (name, st) ∈ l -> streams w !! name = Some st) ->
  exists w',
    stopEach w l = Some w'
    /\ closed w ⊆ closed w' /\ cancelled w ⊆ cancelled w'
    /\ files w' ⊆ files w
    /\ (forall c, c ∈ cmds w -> c ∈ cmds w')
    /\ forall name st, (name, st) ∈ l ->
         subscribers st ⊆ closed w' /\ cancel st ∈ cancelled w'
         /\ (filePath st ∉ files w') /\ CmdPipePaneStop name ∈ cmds w'.
Proof.
  induction l as [|[name st] l IH]; intros w Hinv Hnd Hin; simpl.
  - exists w. repeat split; try set_solver. 
  - destruct Hinv as [Hinv Hsub]. simpl in Hnd.
    apply NoDup_cons in Hnd as [Hfresh Hnd].
    assert (Hs : streams w !! name = Some st) by (apply Hin; now left).
    destruct (stopStream_Inv0 w name st Hinv Hs)
      as (w1 & -> & Hinv1 & Hs1 & Hcm1 & Hp1 & Hf1 & Hx1 & Hc1 & _).
    destruct Hinv as (Hok & _). destruct (Hok name st Hs) as (_ & Hfp & _).
    destruct (IH (with_streams w1 (delete name (streams w1))))
      as (w' & Hd & Hcl & Hcx & Hfi & Hcm & Hall).
    + split; [exact Hinv1|]. unfold Subscribed, with_streams; simpl. rewrite Hs1.
      intros s' x [_ Hx]%lookup_delete_Some. now apply (Hsub s').
    + exact Hnd.
    + intros n x Hx. unfold with_streams; simpl. rewrite Hs1.
      rewrite lookup_delete_ne; [apply Hin; now right|].
      intros ->. apply Hfresh. apply list_elem_of_fmap. now exists (n, x).
    + unfold with_streams in Hcl, Hcx, Hfi, Hcm; simpl in Hcl, Hcx, Hfi, Hcm.
      exists w'. split; [exact Hd|].
      split; [set_solver|]. split; [set_solver|]. split; [set_solver|].
      split; [intros c Hc; apply Hcm; rewrite Hcm1; now right|].
      intros n x [[= -> ->]|Hx]%elem_of_cons; [|now apply Hall].
      split; [set_solver|]. split; [set_solver|].
      split; [rewrite Hfp; set_solver|].
      apply Hcm. rewrite Hcm1. now left.
Qed.

(** X7 (PipePaneManager.StopAll). [StopAll] in a state the manager reaches: no
    stream and no active pipe-pane is left, and for every stream there was, its
    subscriber channels are closed, its tailer context is cancelled, its tail
    file is gone and the stop command of its session was sent. *)
Theorem StopAll_clean (w : World T) :
  reachable w ->
  exists w',
    StopAll w = Some w'
    /\ streams w' = ∅ /\ pipes w' = ∅
    /\ forall s st, streams w !! s = Some st ->
         subscribers st ⊆ closed w' /\ cancel st ∈ cancelled w'
         /\ (filePath st ∉ files w') /\ CmdPipePaneStop s ∈ cmds w'.
Proof.
  intros Hr. pose proof (reachable_Inv w Hr) as Hinv.
  destruct (StopAll_Inv w Hinv) as (w' & Hd & [(_ & Hp & _) _] & He).
  exists w'. split; [exact Hd|]. split; [exact He|].
  split; [rewrite Hp, He; apply dom_empty_L|].
  unfold StopAll in Hd.
  destruct (stopEach_effects (map_to_list (streams w)) w Hinv)
    as (w2 & Hd2 & _ & _ & _ & _ & Hall).
  - apply NoDup_fst_map_to_list.
  - intros name st Hin. now apply elem_of_map_to_list.
  - assert (w2 = w') by congruence. subst w2.
    intros s st Hs. apply Hall. now apply elem_of_map_to_list.
Qed.

(** X3 (PipePaneManager.Subscribe). A first [Subscribe] that fails returns the
    error and leaves no stream: when the file cannot be created nothing is sent
    and nothing changes on disk; when the multiplexer refuses the command, the
    command was sent, no pipe-pane is recorded for the session and the tail file
    is removed. *)
Theorem Subscribe_failure (w : World T) (s : string) (startOk : bool) :
  streams w !! s = None ->
  (exists w',
     Subscribe w s false startOk = Some (w', None)
     /\ streams w' = streams w /\ cmds w' = cmds w /\ pipes w' = pipes w
     /\ files w' = files w /\ closed w' = closed w)
  /\ (exists w',
        Subscribe w s true false = Some (w', None)
        /\ streams w' = streams w /\ pipes w' = pipes w
        /\ cmds w' = CmdPipePaneStart s ("cat >> " +:+ pipeFilePath s) :: cmds w
        /\ (pipeFilePath s ∉ files w')
        /\ files w' = files w ∖ {[pipeFilePath s]}
        /\ closed w' = closed w).
Proof.
  intros Hs. unfold Subscribe, makeChan; simpl. rewrite Hs. simpl. split.
  - eexists. split; [reflexivity|]. simpl. repeat split.
  - eexists. split; [reflexivity|]. simpl.
    do 3 (split; [reflexivity|]). split; [set_solver|]. split; [set_solver | reflexivity].
Qed.

(** [Unsubscribe] changes nothing when the session has no stream or the
    channel is not one of its subscribers. *)
Lemma Unsubscribe_noop (w : World T) (s : string) (ch : chan) :
  Inv w ->
  (streams w !! s = None
   \/ exists st, streams w !! s = Some st /\ ch ∉ subscribers st) ->
  Unsubscribe w s ch = Some w.
Proof.
  intros [_ Hsub] Hcase. unfold Unsubscribe.
  destruct Hcase as [Hs|(st & Hs & Hnin)]; rewrite Hs; [reflexivity|].
  destruct (decide (ch ∈ subscribers st)) as [Hin|_]; [contradiction|].
  destruct (decide (size (subscribers st) = 0%nat)) as [Hz|Hnz]; [|reflexivity].
  exfalso. apply (Hsub s st Hs).
  now apply size_empty_inv in Hz as ->%leibniz_equiv.
Qed.

(** What one [Unsubscribe] leaves of the stream of [s]: nothing, or a
    stream without [ch]. *)
Lemma Unsubscribe_drops (w w' : World T) (s : string) (ch : chan) :
  Inv w -> Unsubscribe w s ch = Some w' ->
  streams w' !! s = None
  \/ exists st', streams w' !! s = Some st' /\ ch ∉ subscribers st'.
Proof.
  intros [Hinv Hsub]. unfold Unsubscribe.
  destruct (streams w !! s) as [st|] eqn:Hs; [|intros [= <-]; now left].
  destruct (decide (ch ∈ subscribers st)) as [Hin|Hin].
  - destruct (dropSubscriber_Inv0 w s st ch Hinv Hs Hin)
      as (w1 & -> & _ & Hs1 & _ & _ & _ & _ & _ & _ & Hinv1).
    set (st' := mkStream (session st) (filePath st) (screen st) (cancel st)
                         (subscribers st ∖ {[ch]})) in *.
    set (w2 := with_streams w1 (<[s := st']> (streams w1))) in *.
    assert (Hs2 : streams w2 !! s = Some st') by apply lookup_insert_eq.
    destruct (decide (size (subscribers st') = 0%nat)) as [Hz|Hnz].
    + destruct (stopStream_Inv0 w2 s st' Hinv1 Hs2) as (w3 & -> & _).
      intros [= <-]. left. unfold with_streams; simpl. apply lookup_delete_eq.
    + intros [= <-]. right. exists st'. split; [exact Hs2|].
      unfold st'; simpl. set_solver.
  - destruct (decide (size (subscribers st) = 0%nat)); [|intros [= <-]; right; eauto].
    exfalso. apply (Hsub s st Hs).
    now apply size_empty_inv in e as ->%leibniz_equiv.
Qed.

(** X5 (PipePaneManager.Unsubscribe). [Unsubscribe] is idempotent: a second call
    with the same session and channel returns the state the first one left. *)
Theorem Unsubscribe_idempotent (w w1 : World T) (s : string) (ch : chan) :
  reachable w -> Unsubscribe w s ch = Some w1 ->
  Unsubscribe w1 s ch = Some w1.
Proof.
  intros Hr Hu. pose proof (reachable_Inv w Hr) as Hinv.
  apply Unsubscribe_noop.
  - destruct (Unsubscribe_Inv w s ch Hinv) as (w' & Hu' & Hinv'). congruence.
  - now apply (Unsubscribe_drops w w1 s ch).
Qed.

#[local] Opaque NewScreen Snapshot Write.

(** X6 (PipePaneManager.Subscribe, Unsubscribe). [Subscribe] followed by
    [Unsubscribe] of the channel it returned: the sessions with a stream, the
    subscribers of every stream and the active pipe-panes are those before the
    two calls, and the channel is closed. *)
Theorem Subscribe_Unsubscribe (w : World T) (s : string) :
  reachable w ->
  exists w1 ch snap w2,
    Subscribe w s true true = Some (w1, Some (ch, snap))
    /\ Unsubscribe w1 s ch = Some w2
    /\ pipes w2 = pipes w
    /\ (forall s', subscribers <$> streams w2 !! s'
                   = subscribers <$> streams w !! s')
    /\ ch ∈ closed w2.
Proof.
  intros Hr. destruct (reachable_Inv w Hr) as [(Hok & Hp & _ & Hcl & _) Hsub].
  assert (Hfresh : nextChan w ∉ closed w) by (intros Hin; apply Hcl in Hin; lia).
  unfold Subscribe, makeChan; simpl.
  destruct (streams w !! s) as [st|] eqn:Hs.
  - destruct (Hok s st Hs) as (_ & _ & Hwf & _ & Hlt & _).
    assert (Hnin : nextChan w ∉ subscribers st)
      by (intros Hin; apply Hlt in Hin; lia).
    destruct (Snapshot_spec (screen st) Hwf) as (scr & snap & -> & _).
    eexists _, _, _, _. split; [reflexivity|].
    unfold Unsubscribe, with_streams; simpl. rewrite lookup_insert_eq. simpl.
    rewrite decide_True by set_solver.
    unfold closeAll; simpl. rewrite decide_True by set_solver. simpl.
    replace (({[nextChan w]} ∪ subscribers st) ∖ {[nextChan w]})
      with (subscribers st) by set_solver.
    rewrite decide_False.
    2:{ intros Hz. apply (Hsub s st Hs).
        now apply size_empty_inv in Hz as ->%leibniz_equiv. }
    split; [reflexivity|]. simpl. split; [reflexivity|].
    split; [|set_solver].
    intros s'. rewrite insert_insert_eq.
    destruct (decide (s' = s)) as [->|Hne].
    + now rewrite lookup_insert_eq, Hs.
    + now rewrite lookup_insert_ne by congruence.
  - simpl. destruct (NewScreen_some 80 24 ltac:(lia)) as (scr & -> & Hnew).
    unfold withCancel; simpl.
    destruct (Snapshot_spec scr Hnew) as (scr' & snap & -> & _).
    eexists _, _, _, _. split; [reflexivity|].
    unfold Unsubscribe, with_streams; simpl. rewrite lookup_insert_eq. simpl.
    rewrite decide_True by set_solver.
    unfold closeAll; simpl. rewrite decide_True by set_solver. simpl.
    rewrite decide_True.
    2:{ change (size (({[nextChan w]} : gset chan) ∖ {[nextChan w]}) = 0%nat).
        now rewrite difference_diag_L, size_empty. }
    unfold stopStream, closeAll; simpl. rewrite decide_True by set_solver.
    split; [reflexivity|]. simpl.
    split; [|split; [|set_solver]].
    + assert (s ∉ pipes w) by (rewrite Hp; now apply not_elem_of_dom). set_solver.
    + intros s'. rewrite insert_insert_eq, delete_insert_eq.
      destruct (decide (s' = s)) as [->|Hne].
      * now rewrite lookup_delete_eq, Hs.
      * now rewrite lookup_delete_ne by congruence.
Qed.

#[local] Transparent NewScreen Snapshot Write.

End PipeExtra.

(** ** The tailer of a stream *)
Section TailProofs.
Import Vt Tmux TailFile.
Context {T : Type} `{Terminal T}.

(** What [Write] returns and leaves behind on a well-formed screen. *)
Lemma Write_rows (s : Screen T) (data : string) :
  screen_wf s ->
  exists s' r,
    Write s data = Some (s', r)
    /\ screen_wf s'
    /\ term s' = term_Write (term s) data
    /\ cols s' = cols s /\ rows s' = rows s
    /\ (forall y, 0 <= y < rows s ->
          prevRows s' !! Z.to_nat y = Some (renderRow (term s') (cols s) y))
    /\ match r with
       | None =>
           forall y, 0 <= y < rows s ->
             prevRows s !! Z.to_nat y = Some (renderRow (term s') (cols s) y)
       | Some u =>
           (forall y row,
              uRows u !! y = Some row
              <-> 0 <= y < rows s
                  /\ row = renderRow (term s') (cols s) y
                  /\ prevRows s !! Z.to_nat y <> Some row)
           /\ uCursorRow u = Y (term_Cursor (term s'))
           /\ uCursorCol u = X (term_Cursor (term s'))
       end.
Proof.
  intros Hwf. unfold Write.
  set (t := term_Write (term s) data).
  destruct (diffRows_spec t (cols s) (seqZ 0 (rows s)) (prevRows s) ∅)
    as (prev' & upd' & Hd & Hl & Hset & _ & Hch & Hun & Hout).
  { apply NoDup_seqZ. }
  { intros y Hy%elem_of_seqZ. unfold screen_wf in Hwf. lia. }
  rewrite Hd.
  assert (Hrows : forall y row,
             upd' !! y = Some row
             <-> 0 <= y < rows s /\ row = renderRow t (cols s) y
                 /\ prevRows s !! Z.to_nat y <> Some row).
  { intros y row. destruct (decide (y ∈ seqZ 0 (rows s))) as [Hy|Hy].
    - pose proof Hy as Hr%elem_of_seqZ.
      destruct (decide (prevRows s !! Z.to_nat y = Some (renderRow t (cols s) y)))
        as [E|E].
      + rewrite (Hun y Hy E), lookup_empty. split; [discriminate|].
        intros (_ & -> & Hne). now contradict Hne.
      + rewrite (Hch y Hy E). split.
        * intros [= <-]. split; [lia|]. split; [reflexivity | exact E].
        * intros (_ & -> & _). reflexivity.
    - rewrite (Hout y Hy), lookup_empty. split; [discriminate|].
      intros (Hr & _). exfalso. apply Hy. apply elem_of_seqZ. lia. }
  destruct (decide (size upd' = 0%nat)) as [Hz|Hnz].
  - eexists _, None. split; [reflexivity|]. simpl.
    split; [unfold screen_wf in *; simpl; congruence|].
    do 3 (split; [reflexivity|]).
    split; [intros y Hy; apply Hset, elem_of_seqZ; lia|].
    intros y Hy. apply map_size_empty_iff in Hz.
    destruct (decide (prevRows s !! Z.to_nat y = Some (renderRow t (cols s) y)))
      as [E|E]; [exact E|].
    assert (Hsome : upd' !! y = Some (renderRow t (cols s) y)).
    { apply Hrows. split; [exact Hy|]. split; [reflexivity | exact E]. }
    rewrite Hz, lookup_empty in Hsome. discriminate.
  - eexists _, (Some _). split; [reflexivity|]. simpl.
    split; [unfold screen_wf in *; simpl; congruence|].
    do 3 (split; [reflexivity|]).
    split; [intros y Hy; apply Hset, elem_of_seqZ; lia|].
    split; [exact Hrows|]. split; reflexivity.
Qed.

Lemma readTurn_tracks (base : list string) (scr : Screen T)
    (pending : option ScreenUpdate) (data : string) :
  screen_wf scr -> tracks base scr pending ->
  exists scr' pending',
    readTurn scr pending data = Some (scr', pending')
    /\ screen_wf scr'
    /\ term scr' = fed (term scr) [data]
    /\ cols scr' = cols scr /\ rows scr' = rows scr
    /\ tracks base scr' pending'.
Proof.
  intros Hwf [Hbase Hpend]. unfold readTurn, fed. simpl.
  destruct (decide (0 < String.length data)%nat) as [Hn|Hn].
  2:{ exists scr, pending. do 5 (split; [reflexivity || assumption|]).
      split; assumption. }
  destruct (Write_rows scr data Hwf)
    as (scr' & r & -> & Hwf' & Ht & Hc & Hr & Hprev & Hres).
  destruct r as [u|].
  - destruct Hres as (Hrows & _).
    eexists _, _. split; [reflexivity|].
    split; [exact Hwf'|]. split; [exact Ht|]. split; [exact Hc|].
    split; [exact Hr|].
    assert (Hlook : forall y,
               pendingRow (Some (mergePending pending u)) y
               = match uRows u !! y with
                 | Some row => Some row
                 | None => pendingRow pending y
                 end).
    { intros y. destruct pending as [p|]; simpl.
      - destruct (uRows u !! y) as [row|] eqn:E.
        + now apply lookup_union_Some_l.
        + rewrite lookup_union_r by exact E. reflexivity.
      - now destruct (uRows u !! y). }
    split.
    + intros y Hy. rewrite Hr in Hy. rewrite Hlook.
      destruct (uRows u !! y) as [row|] eqn:E.
      * apply Hrows in E as (_ & -> & _). now apply Hprev.
      * assert (Hsame : prevRows scr !! Z.to_nat y
                        = Some (renderRow (term scr') (cols scr) y)).
        { destruct (decide (prevRows scr !! Z.to_nat y
                            = Some (renderRow (term scr') (cols scr) y)))
            as [E'|E']; [exact E'|].
          assert (uRows u !! y = Some (renderRow (term scr') (cols scr) y))
            by (apply Hrows; auto).
          congruence. }
        rewrite (Hprev y Hy), <- Hsame. now apply Hbase.
    + intros y row. rewrite Hlook, Hr, Hc.
      destruct (uRows u !! y) as [row'|] eqn:E.
      * intros [= <-]. apply Hrows in E as (Hy & -> & _). now split.
      * intros Hp. destruct (Hpend y row Hp) as [Hy ->]. split; [exact Hy|].
        assert (Hsame : prevRows scr !! Z.to_nat y
                        = Some (renderRow (term scr') (cols scr) y)).
        { destruct (decide (prevRows scr !! Z.to_nat y
                            = Some (renderRow (term scr') (cols scr) y)))
            as [E'|E']; [exact E'|].
          assert (uRows u !! y = Some (renderRow (term scr') (cols scr) y))
            by (apply Hrows; auto).
          congruence. }
        rewrite (Hbase y Hy), Hp in Hsame. congruence.
  - eexists _, _. split; [reflexivity|].
    split; [exact Hwf'|]. split; [exact Ht|]. split; [exact Hc|].
    split; [exact Hr|]. split.
    + intros y Hy. rewrite Hr in Hy. rewrite (Hprev y Hy), <- (Hres y Hy).
      now apply Hbase.
    + intros y row Hp. destruct (Hpend y row Hp) as [Hy ->].
      rewrite Hr, Hc. split; [exact Hy|].
      pose proof (Hres y Hy) as Hsame.
      rewrite (Hbase y Hy), Hp in Hsame. congruence.
Qed.

Lemma readTurns_tracks (base : list string) (reads : list string) :
  forall (scr : Screen T) (pending : option ScreenUpdate),
  screen_wf scr -> tracks base scr pending ->
  exists scr' pending',
    readTurns scr pending reads = Some (scr', pending')
    /\ screen_wf scr'
    /\ term scr' = fed (term scr) reads
    /\ cols scr' = cols scr /\ rows scr' = rows scr
    /\ tracks base scr' pending'.
Proof.
  induction reads as [|d reads IH]; intros scr pending Hwf Htr; simpl.
  - exists scr, pending. do 5 (split; [reflexivity || assumption|]).
    exact Htr.
  - destruct (readTurn_tracks base scr pending d Hwf Htr)
      as (scr1 & p1 & -> & Hwf1 & Ht1 & Hc1 & Hr1 & Htr1).
    destruct (IH scr1 p1 Hwf1 Htr1)
      as (scr2 & p2 & -> & Hwf2 & Ht2 & Hc2 & Hr2 & Htr2).
    exists scr2, p2. split; [reflexivity|]. split; [exact Hwf2|].
    split; [|split; [congruence|split; [congruence|exact Htr2]]].
    rewrite Ht2, Ht1. reflexivity.
Qed.

(** X11 (PipePaneManager.tailFile). The read goroutine of [tailFile] between two
    ticks, started with no pending update: it never panics; and the update it
    leaves pending, laid over the rows as they stood at the last tick, gives the
    baseline of the screen after the reads. Every row of the pending update is a
    row of the screen, with its rendering after the last read. *)
Theorem readTurns_pending (scr : Screen T) (reads : list string) :
  screen_wf scr ->
  exists scr' pending,
    readTurns scr None reads = Some (scr', pending)
    /\ screen_wf scr'
    /\ term scr' = fed (term scr) reads
    /\ cols scr' = cols scr /\ rows scr' = rows scr
    /\ (forall y, 0 <= y < rows scr ->
          prevRows scr' !! Z.to_nat y
          = match pendingRow pending y with
            | Some row => Some row
            | None => prevRows scr !! Z.to_nat y
            end)
    /\ (forall y row, pendingRow pending y = Some row ->
          0 <= y < rows scr
          /\ row = renderRow (term scr') (cols scr) y).
Proof.
  intros Hwf.
  destruct (readTurns_tracks (prevRows scr) reads scr None Hwf)
    as (scr' & p & Hrun & Hwf' & Ht & Hc & Hr & Hbase & Hpend).
  { split; [reflexivity | discriminate]. }
  exists scr', p. split; [exact Hrun|]. split; [exact Hwf'|].
  split; [exact Ht|]. split; [exact Hc|]. split; [exact Hr|]. split.
  - intros y Hy. apply Hbase. now rewrite Hr.
  - intros y row Hp. rewrite <- Hr, <- Hc. now apply Hpend.
Qed.

(** The loop over the subscribers [X] of one tick. *)
Lemma fanOut_spec (w : World T) (update : ScreenUpdate)
    (bufs : gmap chan (list ScreenUpdate)) (X : gset chan) :
  X ## closed w ->
  exists bufs',
    set_fold (sendTo w update) (Some bufs) X = Some bufs'
    /\ forall ch,
         bufs' !!! ch
         = if decide (ch ∈ X /\ (length (bufs !!! ch) < chanCap)%nat)
           then bufs !!! ch ++ [update]
           else bufs !!! ch.
Proof.
  revert X.
  refine (set_fold_ind_L
            (fun r (X : gset chan) =>
               X ## closed w ->
               exists bufs',
                 r = Some bufs'
                 /\ forall ch,
                      bufs' !!! ch
                      = if decide (ch ∈ X /\ (length (bufs !!! ch) < chanCap)%nat)
                        then bufs !!! ch ++ [update]
                        else bufs !!! ch) _ _ _ _).
  - intros _. exists bufs. split; [reflexivity|]. intros ch.
    rewrite decide_False by set_solver. reflexivity.
  - intros x X' r Hx IH HX.
    destruct IH as (b & -> & Hb); [set_solver|].
    unfold sendTo. rewrite decide_False by set_solver.
    eexists. split; [reflexivity|]. intros ch. unfold trySend.
    rewrite (Hb x), (decide_False (P := x ∈ X' /\ _)) by tauto.
    destruct (decide (length (bufs !!! x) < chanCap)%nat) as [Hroom|Hfull].
    + destruct (decide (ch = x)) as [->|Hne].
      * rewrite lookup_total_insert_eq.
        rewrite decide_True by (split; [set_solver | exact Hroom]).
        reflexivity.
      * rewrite lookup_total_insert_ne by congruence. rewrite Hb.
        destruct (decide (ch ∈ X' /\ _)) as [[Hin Hl]|Hn].
        -- rewrite decide_True by (split; [set_solver | exact Hl]). reflexivity.
        -- rewrite decide_False; [reflexivity|].
           intros [Hin Hl]. apply Hn. split; [set_solver | exact Hl].
    + rewrite Hb.
      destruct (decide (ch ∈ X' /\ _)) as [[Hin Hl]|Hn].
      * rewrite decide_True by (split; [set_solver | exact Hl]). reflexivity.
      * rewrite decide_False; [reflexivity|].
        intros [Hin Hl]. apply Hn. split; [|exact Hl].
        apply elem_of_union in Hin as [Hin|Hin]; [|exact Hin].
        apply elem_of_singleton in Hin as ->. contradiction.
Qed.

(** X12 (PipePaneManager.tailFile). The fan-out of one tick: in a state the
    manager reaches no send goes to a closed channel; the update is appended to
    the queue of every subscriber of the stream whose queue has room and dropped
    for the others; the queue of a channel that does not subscribe to the stream
    is left as it was; and no queue grows past its capacity. *)
Theorem flush_spec (w : World T) (s : string) (update : ScreenUpdate)
    (bufs : gmap chan (list ScreenUpdate)) :
  reachable w ->
  exists bufs',
    flush w s (Some update) bufs = Some bufs'
    /\ (forall ch,
          bufs' !!! ch
          = if decide (ch ∈ subscribersOf w s
                       /\ (length (bufs !!! ch) < chanCap)%nat)
            then bufs !!! ch ++ [update]
            else bufs !!! ch)
    /\ ((forall ch, (length (bufs !!! ch) <= chanCap)%nat) ->
        forall ch, (length (bufs' !!! ch) <= chanCap)%nat).
Proof.
  intros Hr. destruct (reachable_Inv w Hr) as [(Hok & _) _].
  assert (Hdisj : subscribersOf w s ## closed w).
  { unfold subscribersOf. destruct (streams w !! s) as [st|] eqn:Hs.
    - apply (Hok s st Hs).
    - set_solver. }
  destruct (fanOut_spec w update bufs _ Hdisj) as (bufs' & Hrun & Hb).
  exists bufs'. split; [exact Hrun|]. split; [exact Hb|].
  intros Hcap ch. rewrite Hb.
  destruct (decide _) as [[_ Hl]|_]; [|apply Hcap].
  rewrite length_app. simpl. lia.
Qed.

End TailProofs.

(** ** The baseline of the streams *)
Section SyncProofs.
Import Vt Tmux PipeSync.
Context {T : Type} `{Terminal T}.

(** On a synced screen [Snapshot] leaves the screen as it is. *)
Lemma Snapshot_synced_id (s : Screen T) :
  screen_wf s -> synced s ->
  exists snap,
    Snapshot s = Some (s, snap)
    /\ (forall y, sRows snap !! y
          = if decide (0 <= y < rows s) then prevRows s !! Z.to_nat y else None)
    /\ sCols snap = cols s /\ sNumRows snap = rows s
    /\ sCursorRow snap = Y (term_Cursor (term s))
    /\ sCursorCol snap = X (term_Cursor (term s)).
Proof.
  intros Hwf Hsy.
  destruct (Snapshot_spec s Hwf)
    as (s' & snap & Hsn & Hwf' & Ht & Hc & Hr & Hprev & Hrows & Hrest).
  assert (Heq : prevRows s' = prevRows s).
  { apply list_eq. intros i.
    destruct (decide (i < length (prevRows s))%nat) as [Hi|Hi].
    - unfold screen_wf in Hwf. 
      assert (Hy : 0 <= Z.of_nat i < rows s) by lia.
      pose proof (Hprev _ Hy) as H1. pose proof (Hsy _ Hy) as H2.
      rewrite Nat2Z.id in H1, H2. congruence.
    - rewrite !lookup_ge_None_2; [reflexivity| lia |].
      unfold screen_wf in Hwf, Hwf'. rewrite Hwf', Hr, <- Hwf. lia. }
  assert (s' = s).
  { destruct s, s'; simpl in *; congruence. }
  subst s'. exists snap. split; [exact Hsn|]. split; [|exact Hrest].
  intros y. rewrite Hrows. destruct (decide _) as [Hy|]; [|reflexivity].
  symmetry. now apply Hsy.
Qed.

Lemma Snapshot_synced (s : Screen T) :
  screen_wf s ->
  exists s' snap, Snapshot s = Some (s', snap) /\ synced s'.
Proof.
  intros Hwf.
  destruct (Snapshot_spec s Hwf)
    as (s' & snap & Hsn & Hwf' & Ht & Hc & Hr & Hprev & _).
  exists s', snap. split; [exact Hsn|].
  intros y Hy. rewrite Ht, Hc. apply Hprev. now rewrite <- Hr.
Qed.

Lemma Write_synced (s : Screen T) (data : string) :
  screen_wf s ->
  exists s' r, Write s data = Some (s', r) /\ synced s'.
Proof.
  intros Hwf. unfold Write.
  set (t := term_Write (term s) data).
  destruct (diffRows_spec t (cols s) (seqZ 0 (rows s)) (prevRows s) ∅)
    as (prev' & upd' & Hd & Hl & Hset & _).
  { apply NoDup_seqZ. }
  { intros y Hy%elem_of_seqZ. unfold screen_wf in Hwf. lia. }
  rewrite Hd.
  destruct (decide (size upd' = 0%nat)); eexists _, _;
    (split; [reflexivity|]); intros y Hy; simpl in *;
    apply Hset, elem_of_seqZ; lia.
Qed.

#[local] Opaque NewScreen Snapshot Write.

(** Where the screen of a stream comes from after one call. *)
Lemma step_Synced (w w' : World T) (o : Op) :
  Inv w -> Synced w -> step w o = Some w' -> Synced w'.
Proof.
  intros Hinv Hsy Hstep s' st' Hs'.
  pose proof Hinv as [(Hok & _) _].
  destruct o as [s openOk startOk|s ch| |s data]; simpl in Hstep.
  - unfold Subscribe, makeChan in Hstep; simpl in Hstep.
    destruct (streams w !! s) as [st|] eqn:Hs.
    + destruct (Hok s st Hs) as (_ & _ & Hwf & _).
      destruct (Snapshot_synced (screen st) Hwf) as (scr & snap & Hsn & Hscr).
      rewrite Hsn in Hstep. simpl in Hstep. injection Hstep as <-.
      unfold with_streams in Hs'; simpl in Hs'.
      destruct (decide (s' = s)) as [->|Hne].
      * rewrite lookup_insert_eq in Hs'. injection Hs' as <-. exact Hscr.
      * rewrite lookup_insert_ne in Hs' by congruence. now apply (Hsy s').
    + destruct openOk; simpl in Hstep.
      2:{ injection Hstep as <-. now apply (Hsy s'). }
      destruct startOk; simpl in Hstep.
      2:{ injection Hstep as <-. now apply (Hsy s'). }
      destruct (NewScreen_some 80 24 ltac:(lia)) as (scr & Hn & Hnew).
      rewrite Hn in Hstep. unfold withCancel in Hstep; simpl in Hstep.
      destruct (Snapshot_synced scr Hnew) as (scr' & snap & Hsn & Hscr).
      rewrite Hsn in Hstep. simpl in Hstep. injection Hstep as <-.
      unfold with_streams in Hs'; simpl in Hs'.
      destruct (decide (s' = s)) as [->|Hne].
      * rewrite lookup_insert_eq in Hs'. injection Hs' as <-. exact Hscr.
      * rewrite lookup_insert_ne in Hs' by congruence. now apply (Hsy s').
  - unfold Unsubscribe in Hstep.
    destruct (streams w !! s) as [st|] eqn:Hs.
    2:{ injection Hstep as <-. now apply (Hsy s'). }
    assert (Hkeep : forall (m : gmap string (pipeStream T)) x,
               m !! s' = Some st' ->
               (m = streams w \/ m = delete s (streams w)
                \/ m = <[s := x]> (streams w)
                \/ m = delete s (<[s := x]> (streams w))) ->
               screen x = screen st -> synced (screen st')).
    { intros m x Hm Hcase Hx.
      destruct Hcase as [->|[->|[->| ->]]].
      - now apply (Hsy s').
      - apply lookup_delete_Some in Hm as [_ Hm]. now apply (Hsy s').
      - destruct (decide (s' = s)) as [->|Hne].
        + rewrite lookup_insert_eq in Hm. injection Hm as <-. rewrite Hx.
          now apply (Hsy s).
        + rewrite lookup_insert_ne in Hm by congruence. now apply (Hsy s').
      - apply lookup_delete_Some in Hm as [Hne Hm].
        rewrite lookup_insert_ne in Hm by congruence. now apply (Hsy s'). }
    destruct (decide (ch ∈ subscribers st)) as [Hin|Hin].
    + unfold closeAll in Hstep.
      destruct (decide ({[ch]} ## closed w)); [|discriminate].
      simpl in Hstep.
      destruct (decide (size (subscribers st ∖ {[ch]}) = 0%nat)).
      * unfold stopStream, closeAll in Hstep; simpl in Hstep.
        destruct (decide _); [|discriminate]. simpl in Hstep.
        injection Hstep as <-. unfold with_streams in Hs'; simpl in Hs'.
        eapply (Hkeep _ _ Hs'); [right; right; right; reflexivity|reflexivity].
      * injection Hstep as <-. unfold with_streams in Hs'; simpl in Hs'.
        eapply (Hkeep _ _ Hs'); [right; right; left; reflexivity|reflexivity].
    + destruct (decide (size (subscribers st) = 0%nat)).
      * unfold stopStream, closeAll in Hstep; simpl in Hstep.
        destruct (decide _); [|discriminate]. simpl in Hstep.
        injection Hstep as <-. unfold with_streams in Hs'; simpl in Hs'.
        eapply (Hkeep _ st Hs'); [right; left; reflexivity|reflexivity].
      * injection Hstep as <-. now apply (Hsy s').
  - destruct (StopAll_Inv w Hinv) as (w2 & Hd & _ & He).
    assert (w2 = w') by congruence. subst w2.
    rewrite He, lookup_empty in Hs'. discriminate.
  - unfold tailWrite in Hstep.
    destruct (streams w !! s) as [st|] eqn:Hs.
    2:{ injection Hstep as <-. now apply (Hsy s'). }
    destruct (Hok s st Hs) as (_ & _ & Hwf & _).
    destruct (Write_synced (screen st) data Hwf) as (scr & r & Hw & Hscr).
    rewrite Hw in Hstep. injection Hstep as <-.
    unfold with_streams in Hs'; simpl in Hs'.
    destruct (decide (s' = s)) as [->|Hne].
    + rewrite lookup_insert_eq in Hs'. injection Hs' as <-. exact Hscr.
    + rewrite lookup_insert_ne in Hs' by congruence. now apply (Hsy s').
Qed.

Lemma reachable_Synced (w : World T) : reachable w -> Synced w.
Proof.
  induction 1 as [files0|w o w' Hr IH Hstep].
  - intros s st Hs. simpl in Hs. rewrite lookup_empty in Hs. discriminate.
  - exact (step_Synced w w' o (reachable_Inv w Hr) IH Hstep).
Qed.

(** X2 (PipePaneManager.Subscribe). A [Subscribe] to a session that has a stream
    joins it: the new channel is fresh (not a subscriber of that stream, not
    closed) and is added to the subscribers; the screen of the stream, baseline
    included, is left as it was, so that no subscriber misses a row; the
    snapshot holds the baseline rows; and no command is sent, no pipe-pane
    changes and no file is touched. *)
Theorem Subscribe_joins (w : World T) (s : string) (st : pipeStream T)
    (openOk startOk : bool) :
  reachable w -> streams w !! s = Some st ->
  exists w' ch snap st',
    Subscribe w s openOk startOk = Some (w', Some (ch, snap))
    /\ (ch ∉ subscribers st) /\ (ch ∉ closed w)
    /\ streams w' = <[s := st']> (streams w)
    /\ subscribers st' = {[ch]} ∪ subscribers st
    /\ screen st' = screen st
    /\ cancel st' = cancel st /\ filePath st' = filePath st
    /\ (forall y, 0 <= y < rows (screen st) ->
          sRows snap !! y = prevRows (screen st) !! Z.to_nat y
          /\ sRows snap !! y
             = Some (renderRow (term (screen st)) (cols (screen st)) y))
    /\ cmds w' = cmds w /\ pipes w' = pipes w /\ files w' = files w.
Proof.
  intros Hr Hs. destruct (reachable_Inv w Hr) as [(Hok & _ & _ & Hcl & _) _].
  pose proof (reachable_Synced w Hr s st Hs) as Hsy.
  destruct (Hok s st Hs) as (_ & _ & Hwf & _ & Hlt & _).
  unfold Subscribe, makeChan; simpl. rewrite Hs.
  destruct (Snapshot_synced_id (screen st) Hwf Hsy) as (snap & Hsn & Hrows & _).
  rewrite Hsn. eexists _, _, snap, _. split; [reflexivity|].
  split; [intros Hin; apply Hlt in Hin; lia|].
  split; [intros Hin; apply Hcl in Hin; lia|].
  unfold with_streams; simpl.
  do 5 (split; [reflexivity|]). split; [|repeat split].
  intros y Hy. rewrite Hrows, decide_True by exact Hy.
  split; [reflexivity|]. now apply Hsy.
Qed.

#[local] Transparent NewScreen Snapshot Write.

End SyncProofs.

(** ** A write followed by a snapshot *)
Section WriteSnapshot.
Import Vt PipeSync.
Context {T : Type} `{Terminal T}.

(** X15 (Screen.Write, Screen.Snapshot). [Write] followed by [Snapshot]: the
    snapshot leaves the screen as the write left it, baseline included; it holds
    the rendering of every row after the write and nothing else; every row of
    the update is in it, with the cursor of the update; and when the write
    returned nil its rows are the baseline rows from before the write. *)
Theorem Write_then_Snapshot (s : Screen T) (data : string) :
  screen_wf s ->
  exists s' r snap,
    Write s data = Some (s', r)
    /\ Snapshot s' = Some (s', snap)
    /\ (forall y, sRows snap !! y
          = if decide (0 <= y < rows s)
            then Some (renderRow (term_Write (term s) data) (cols s) y)
            else None)
    /\ match r with
       | Some u =>
           (forall y row, uRows u !! y = Some row -> sRows snap !! y = Some row)
           /\ sCursorRow snap = uCursorRow u
           /\ sCursorCol snap = uCursorCol u
       | None =>
           forall y, 0 <= y < rows s ->
             sRows snap !! y = prevRows s !! Z.to_nat y
       end.
Proof.
  intros Hwf.
  destruct (Write_rows s data Hwf)
    as (s' & r & Hw & Hwf' & Ht & Hc & Hr & Hprev & Hres).
  assert (Hsy : synced s').
  { intros y Hy. rewrite Hc. apply Hprev. now rewrite <- Hr. }
  destruct (Snapshot_synced_id s' Hwf' Hsy)
    as (snap & Hsn & Hrows & _ & _ & Hcy & Hcx).
  assert (Hall : forall y, sRows snap !! y
                   = if decide (0 <= y < rows s)
                     then Some (renderRow (term_Write (term s) data) (cols s) y)
                     else None).
  { intros y. rewrite Hrows, Hr. destruct (decide _) as [Hy|]; [|reflexivity].
    rewrite <- Ht. now apply Hprev. }
  exists s', r, snap. split; [exact Hw|]. split; [exact Hsn|].
  split; [exact Hall|].
  destruct r as [u|].
  - destruct Hres as (Hu & Hy & Hx). split; [|split; congruence].
    intros y row (Hin & -> & _)%Hu. rewrite Hall, decide_True by exact Hin.
    now rewrite Ht.
  - intros y Hy. rewrite Hall, decide_True by exact Hy.
    rewrite (Hres y Hy). now rewrite Ht.
Qed.

End WriteSnapshot.

(** ** The snapshot and the updates of a subscriber *)
Section StreamProofs.
Import Vt Tmux TailFile PipeSync Stream.
Context {T : Type} `{Terminal T}.

Lemma fed_app (t : T) (a b : list string) : fed (fed t a) b = fed t (a ++ b).
Proof. unfold fed. now rewrite foldl_app. Qed.

Lemma readTurns_synced (reads : list string) :
  forall (scr scr' : Screen T) (p p' : option ScreenUpdate),
  screen_wf scr -> synced scr ->
  readTurns scr p reads = Some (scr', p') -> synced scr'.
Proof.
  induction reads as [|d reads IH]; intros scr scr' p p' Hwf Hsy; simpl.
  - now intros [= <- <-].
  - unfold readTurn.
    destruct (decide (0 < String.length d)%nat) as [Hn|Hn].
    + destruct (Write_rows scr d Hwf)
        as (s1 & r & Hw & Hwf1 & Ht & Hc & Hr & Hprev & _).
      rewrite Hw.
      assert (Hsy1 : synced s1).
      { intros y Hy. rewrite Hc. apply Hprev. now rewrite <- Hr. }
      destruct r as [u|]; intros Hrun; exact (IH _ _ _ _ Hwf1 Hsy1 Hrun).
    + intros Hrun. exact (IH _ _ _ _ Hwf Hsy Hrun).
Qed.

Lemma tailTicks_rows (ticks : list (list string)) :
  forall (scr : Screen T) (pending : option ScreenUpdate) (held : gmap Z string),
  screen_wf scr -> synced scr -> current scr pending ->
  (forall y, held !! y
     = if decide (0 <= y < rows scr) then prevRows scr !! Z.to_nat y else None) ->
  exists scr' updates,
    tailTicks scr pending ticks = Some (scr', updates)
    /\ screen_wf scr' /\ synced scr'
    /\ term scr' = fed (term scr) (concat ticks)
    /\ cols scr' = cols scr /\ rows scr' = rows scr
    /\ forall y, foldl applyUpdate held updates !! y
         = if decide (0 <= y < rows scr) then prevRows scr' !! Z.to_nat y
           else None.
Proof.
  induction ticks as [|reads ticks IH]; intros scr pending held Hwf Hsy Hcur Hheld;
    simpl.
  - exists scr, []. repeat split; assumption.
  - destruct (readTurns_tracks (prevRows scr) reads scr pending Hwf)
      as (s1 & p & Hrun & Hwf1 & Ht1 & Hc1 & Hr1 & Hbase & Hpend).
    { split; [|exact Hcur]. intros y Hy.
      destruct (pendingRow pending y) as [row|] eqn:E; [|reflexivity].
      destruct (Hcur y row E) as [_ ->]. now apply Hsy. }
    rewrite Hrun.
    pose proof (readTurns_synced reads scr s1 pending p Hwf Hsy Hrun) as Hsy1.
    set (held1 := foldl applyUpdate held (option_list p)).
    destruct (IH s1 None held1 Hwf1 Hsy1)
      as (s2 & us & Hticks & Hwf2 & Hsy2 & Ht2 & Hc2 & Hr2 & Hrows).
    { intros y row. discriminate. }
    { intros y. unfold held1. rewrite Hr1.
      destruct (decide (0 <= y < rows scr)) as [Hy|Hy].
      - rewrite (Hbase y) by now rewrite Hr1.
        destruct p as [u|]; simpl.
        + unfold applyUpdate. destruct (uRows u !! y) as [row|] eqn:E.
          * now apply lookup_union_Some_l.
          * rewrite lookup_union_r by exact E.
            now rewrite Hheld, decide_True.
        + now rewrite Hheld, decide_True.
      - destruct p as [u|]; simpl.
        + unfold applyUpdate.
          destruct (uRows u !! y) as [row|] eqn:E.
          * destruct (Hpend y row E) as [Hy' _]. rewrite Hr1 in Hy'.
            contradiction.
          * rewrite lookup_union_r by exact E. now rewrite Hheld, decide_False.
        + now rewrite Hheld, decide_False. }
    rewrite Hticks. exists s2, (option_list p ++ us).
    split; [reflexivity|]. split; [exact Hwf2|]. split; [exact Hsy2|].
    split; [now rewrite Ht2, Ht1, fed_app|].
    split; [congruence|]. split; [congruence|].
    intros y. rewrite foldl_app. fold held1. rewrite Hrows, Hr1. reflexivity.
Qed.

(** X13 (Screen.Snapshot, PipePaneManager.tailFile). A subscriber that takes the
    snapshot of a screen and then every update of the ticks of the tailer holds
    the screen, also when it joins between two ticks, with an update pending:
    after any number of ticks, each with any reads, the snapshot rows with the
    updates laid over them in order are the rows 0 to rows-1, each with the
    rendering of the emulator after all the reads. No call panics on the way. *)
Theorem snapshot_then_updates (scr : Screen T) (pending : option ScreenUpdate)
    (ticks : list (list string)) :
  screen_wf scr -> current scr pending ->
  exists scr0 snap scr' updates,
    Snapshot scr = Some (scr0, snap)
    /\ tailTicks scr0 pending ticks = Some (scr', updates)
    /\ term scr' = fed (term scr) (concat ticks)
    /\ forall y, foldl applyUpdate (sRows snap) updates !! y
         = if decide (0 <= y < rows scr)
           then Some (renderRow (term scr') (cols scr) y)
           else None.
Proof.
  intros Hwf Hcur.
  destruct (Snapshot_spec scr Hwf)
    as (scr0 & snap & Hsn & Hwf0 & Ht0 & Hc0 & Hr0 & Hprev0 & Hrows0 & _).
  assert (Hsy0 : synced scr0).
  { intros y Hy. rewrite Ht0, Hc0. apply Hprev0. now rewrite <- Hr0. }
  destruct (tailTicks_rows ticks scr0 pending (sRows snap) Hwf0 Hsy0)
    as (scr' & us & Hticks & Hwf' & Hsy' & Ht' & Hc' & Hr' & Hrows').
  { intros y row Hp. rewrite Hr0, Ht0, Hc0. now apply Hcur. }
  { intros y. rewrite Hrows0, Hr0.
    destruct (decide _) as [Hy|]; [|reflexivity]. symmetry. now apply Hprev0. }
  exists scr0, snap, scr', us. split; [exact Hsn|]. split; [exact Hticks|].
  split; [now rewrite Ht', Ht0|].
  intros y. rewrite Hrows', Hr0.
  destruct (decide _) as [Hy|]; [|reflexivity].
  rewrite <- Hc0, <- Hc'. apply Hsy'. now rewrite Hr', Hr0.
Qed.

End StreamProofs.

(** ** The rows are valid UTF-8 *)
Section Utf8Proofs.
Import Vt Agentio VtUtf8.
Context {T : Type} `{Terminal T}.

Lemma bytesOf_cons (c : ascii) (s : string) :
  bytesOf (String c s) = Z.of_N (N_of_ascii c) :: bytesOf s.
Proof. reflexivity. Qed.

Lemma bytesOf_app (a b : string) : bytesOf (a +:+ b) = bytesOf a ++ bytesOf b.
Proof.
  induction a as [|c a IH]; [reflexivity|].
  rewrite app_str_cons, !bytesOf_cons, IH. reflexivity.
Qed.

Lemma bytesOf_byte_str (b : Z) : 0 <= b < 256 -> bytesOf (byte_str b) = [b].
Proof.
  intros Hb. unfold byte_str. rewrite bytesOf_cons.
  rewrite N_ascii_embedding by lia. rewrite Z2N.id by lia. reflexivity.
Qed.

Ltac leb_cases :=
  repeat match goal with
         | |- context [?a <=? ?b] => destruct (Z.leb_spec a b); try lia
         | |- context [?a =? ?b] => destruct (Z.eqb_spec a b); try lia
         | H : context [?a <=? ?b] |- _ => destruct (Z.leb_spec a b); try lia
         | H : context [?a =? ?b] |- _ => destruct (Z.eqb_spec a b); try lia
         end.

(** Valid bytes followed by any bytes: the validity of the rest decides. *)
Lemma utf8Valid_app (n : nat) :
  forall a b, (length a <= n)%nat -> utf8Valid a = true ->
  utf8Valid (a ++ b) = utf8Valid b.
Proof.
  induction n as [|n IH]; intros a b Hn Ha.
  - destruct a; [reflexivity | simpl in Hn; lia].
  - destruct a as [|b0 r0]; [reflexivity|].
    simpl in Hn. simpl in Ha |- *.
    destruct (b0 <=? 127); [apply IH; [lia | exact Ha]|].
    destruct r0 as [|b1 r1]; [discriminate|]. simpl in Hn |- *.
    destruct ((194 <=? b0) && (b0 <=? 223)).
    { apply andb_true_iff in Ha as [-> Ha]. simpl. apply IH; [lia | exact Ha]. }
    destruct r1 as [|b2 r2]; [discriminate|]. simpl in Hn |- *.
    destruct ((224 <=? b0) && (b0 <=? 239)).
    { apply andb_true_iff in Ha as [Ha1 Ha]. rewrite Ha1. simpl.
      apply IH; [lia | exact Ha]. }
    destruct r2 as [|b3 r3]; [discriminate|]. simpl in Hn |- *.
    apply andb_true_iff in Ha as [Ha1 Ha]. rewrite Ha1. simpl.
    apply IH; [lia | exact Ha].
Qed.

Lemma validUTF8_app (a b : string) :
  validUTF8 a -> validUTF8 b -> validUTF8 (a +:+ b).
Proof.
  unfold validUTF8. intros Ha Hb. rewrite bytesOf_app.
  now rewrite (utf8Valid_app (length (bytesOf a)) _ _ (le_n _) Ha).
Qed.

Lemma validUTF8_ascii (c : ascii) (s : string) :
  (N_of_ascii c <= 127)%N -> validUTF8 s -> validUTF8 (String c s).
Proof.
  unfold validUTF8. intros Hc Hs. rewrite bytesOf_cons. simpl.
  destruct (Z.leb_spec (Z.of_N (N_of_ascii c)) 127); [exact Hs | lia].
Qed.

Lemma pretty_N_char_ascii (n : N) : (N_of_ascii (pretty_N_char n) <= 127)%N.
Proof. unfold pretty_N_char. repeat case_match; vm_compute; discriminate. Qed.

Lemma pretty_N_go_valid (x : N) :
  forall s, validUTF8 s -> validUTF8 (pretty_N_go x s).
Proof.
  induction (N.lt_wf_0 x) as [x _ IH]; intros s Hs.
  assert (x = 0 \/ 0 < x)%N as [->|Hx] by lia.
  - now rewrite pretty_N_go_0.
  - rewrite pretty_N_go_step by exact Hx. apply IH.
    + now apply N.div_lt.
    + apply validUTF8_ascii; [apply pretty_N_char_ascii | exact Hs].
Qed.

Lemma pretty_N_valid (x : N) : validUTF8 (pretty x).
Proof.
  unfold pretty, pretty_N. repeat case_decide; try reflexivity.
  now apply pretty_N_go_valid.
Qed.

Lemma pretty_Z_valid (z : Z) : validUTF8 (pretty z).
Proof.
  unfold pretty, pretty_Z. destruct z as [|p|p].
  - reflexivity.
  - apply pretty_N_valid.
  - apply validUTF8_app; [reflexivity | apply pretty_N_valid].
Qed.

Ltac valid_string :=
  repeat first
    [ apply pretty_Z_valid
    | apply validUTF8_app
    | reflexivity ].

Lemma fgSGR_valid (c : Z) : validUTF8 (fgSGR c).
Proof. unfold fgSGR. repeat case_decide; valid_string. Qed.

Lemma bgSGR_valid (c : Z) : validUTF8 (bgSGR c).
Proof. unfold bgSGR. repeat case_decide; valid_string. Qed.

Lemma concat_valid (params : list string) :
  Forall validUTF8 params -> validUTF8 (String.concat ";" params).
Proof.
  induction params as [|p ps IH]; intros Hall; [reflexivity|].
  apply Forall_cons in Hall as [Hp Hps]. simpl.
  destruct ps as [|q ps]; [exact Hp|].
  apply validUTF8_app; [exact Hp|].
  apply validUTF8_app; [reflexivity | now apply IH].
Qed.

Lemma applyParams_valid (c p : Pen) : Forall validUTF8 (applyParams c p).
Proof.
  unfold applyParams.
  repeat (apply Forall_app; split);
    repeat case_match; repeat constructor;
    try apply fgSGR_valid; try apply bgSGR_valid.
Qed.

Lemma sgrParams_valid (c p : Pen) : Forall validUTF8 (sgrParams c p).
Proof.
  unfold sgrParams. destruct (needReset c p).
  - constructor; [reflexivity | apply applyParams_valid].
  - apply applyParams_valid.
Qed.

Lemma sgrSeq_valid (params : list string) :
  Forall validUTF8 params -> validUTF8 (sgrSeq params).
Proof.
  intros Hall. unfold sgrSeq.
  apply validUTF8_app; [reflexivity|].
  apply validUTF8_app; [reflexivity|].
  apply validUTF8_app; [now apply concat_valid | reflexivity].
Qed.

Lemma shiftr_bounds (r n lo hi : Z) :
  0 <= n -> lo * 2 ^ n <= r < hi * 2 ^ n -> lo <= Z.shiftr r n < hi.
Proof.
  intros Hn [Hlo Hhi]. rewrite Z.shiftr_div_pow2 by exact Hn.
  assert (0 < 2 ^ n) by (apply Z.pow_pos_nonneg; lia). split.
  - apply Z.div_le_lower_bound; lia.
  - apply Z.div_lt_upper_bound; lia.
Qed.

Lemma cont_byte_bytes (r : Z) :
  exists b, bytesOf (cont_byte r) = [b] /\ b = 128 + r mod 64
            /\ 128 <= b <= 191.
Proof.
  unfold cont_byte. change 63 with (Z.ones 6). rewrite Z.land_ones by lia.
  pose proof (Z.mod_pos_bound r (2 ^ 6) ltac:(lia)) as Hb.
  change 128 with (2 * 2 ^ 6) at 1. rewrite lor_high by lia.
  change (2 ^ 6) with 64 in *.
  exists (2 * 64 + r mod 64). split; [apply bytesOf_byte_str; lia|]. lia.
Qed.

Lemma mod64_shiftr (r n : Z) (lo hi : Z) :
  0 <= n -> lo * 2 ^ n <= r < hi * 2 ^ n ->
  forall q, q * 64 <= lo -> hi <= (q + 1) * 64 ->
  lo - q * 64 <= Z.shiftr r n mod 64 < hi - q * 64.
Proof.
  intros Hn Hr q Hq1 Hq2.
  pose proof (shiftr_bounds r n lo hi Hn Hr) as Hs.
  rewrite <- (Z.mod_unique_pos (Z.shiftr r n) 64 q (Z.shiftr r n - q * 64))
    by lia.
  lia.
Qed.

(** The encoding [WriteRune] appends is valid UTF-8, whatever the rune. *)
Lemma EncodeRune_valid (r : Z) : validUTF8 (EncodeRune r).
Proof.
  unfold EncodeRune, runeError, validUTF8.
  repeat case_decide; try (vm_compute; reflexivity).
  - rewrite bytesOf_byte_str by lia. simpl.
    destruct (Z.leb_spec r 127); [reflexivity | lia].
  - destruct (cont_byte_bytes r) as (b1 & E1 & _ & Hb1).
    pose proof (shiftr_bounds r 6 2 32 ltac:(lia) ltac:(lia)) as Hs.
    rewrite bytesOf_app, E1. change 192 with (3 * 2 ^ 6).
    rewrite lor_high by lia. rewrite bytesOf_byte_str by lia.
    set (x := Z.shiftr r 6) in *. clearbody x.
    simpl. unfold isCont. leb_cases. reflexivity.
  - destruct (cont_byte_bytes r) as (b2 & E2 & _ & Hb2).
    destruct (cont_byte_bytes (Z.shiftr r 6)) as (b1 & E1 & V1 & Hb1).
    pose proof (shiftr_bounds r 12 0 16 ltac:(lia) ltac:(lia)) as Hs.
    rewrite !bytesOf_app, E1, E2. change 224 with (14 * 2 ^ 4).
    rewrite lor_high by lia. rewrite bytesOf_byte_str by lia.
    assert (Hlow : Z.shiftr r 12 = 0 -> 160 <= b1).
    { intros E0. rewrite Z.shiftr_div_pow2 in E0 by lia.
      assert (r < 4096).
      { apply Z.div_small_iff in E0; lia. }
      pose proof (mod64_shiftr r 6 32 64 ltac:(lia) ltac:(lia) 0
                    ltac:(lia) ltac:(lia)). lia. }
    assert (Hsur : Z.shiftr r 12 = 13 -> b1 <= 159).
    { intros E0.
      assert (53248 <= r < 55296).
      { rewrite Z.shiftr_div_pow2 in E0 by lia.
        change (2 ^ 12) with 4096 in E0.
        pose proof (Z.div_mod r 4096 ltac:(lia)).
        pose proof (Z.mod_pos_bound r 4096 ltac:(lia)). lia. }
      pose proof (mod64_shiftr r 6 832 864 ltac:(lia) ltac:(lia) 13
                    ltac:(lia) ltac:(lia)). lia. }
    change (2 ^ 4) with 16 in *.
    set (x := Z.shiftr r 12) in *. clearbody x.
    simpl. unfold isCont.
    leb_cases; try reflexivity; lia.
  - destruct (cont_byte_bytes r) as (b3 & E3 & _ & Hb3).
    destruct (cont_byte_bytes (Z.shiftr r 6)) as (b2 & E2 & _ & Hb2).
    destruct (cont_byte_bytes (Z.shiftr r 12)) as (b1 & E1 & V1 & Hb1).
    pose proof (shiftr_bounds r 18 0 5 ltac:(lia) ltac:(lia)) as Hs.
    rewrite !bytesOf_app, E1, E2, E3. change 240 with (30 * 2 ^ 3).
    rewrite lor_high by lia. rewrite bytesOf_byte_str by lia.
    change (2 ^ 3) with 8 in *.
    assert (Hlow : Z.shiftr r 18 = 0 -> 144 <= b1).
    { intros E0. rewrite Z.shiftr_div_pow2 in E0 by lia.
      assert (r < 262144).
      { apply Z.div_small_iff in E0; lia. }
      pose proof (mod64_shiftr r 12 16 64 ltac:(lia) ltac:(lia) 0
                    ltac:(lia) ltac:(lia)). lia. }
    assert (Hhigh : Z.shiftr r 18 = 4 -> b1 <= 143).
    { intros E0.
      assert (1048576 <= r).
      { rewrite Z.shiftr_div_pow2 in E0 by lia.
        change (2 ^ 18) with 262144 in E0.
        pose proof (Z.div_mod r 262144 ltac:(lia)).
        pose proof (Z.mod_pos_bound r 262144 ltac:(lia)). lia. }
      pose proof (mod64_shiftr r 12 256 272 ltac:(lia) ltac:(lia) 4
                    ltac:(lia) ltac:(lia)). lia. }
    set (x := Z.shiftr r 18) in *. clearbody x.
    simpl. unfold isCont.
    leb_cases; try reflexivity; lia.
Qed.

Lemma rowBody_valid (cells : list Glyph) :
  forall prev, validUTF8 (rowBody prev cells).
Proof.
  induction cells as [|c cs IH]; intros prev; [reflexivity|].
  simpl. apply validUTF8_app; [|apply IH].
  unfold cellPiece. apply validUTF8_app; [|apply EncodeRune_valid].
  destruct (decide _); [reflexivity|].
  apply sgrSeq_valid, sgrParams_valid.
Qed.

Lemma renderRow_valid (t : T) (c y : Z) : validUTF8 (renderRow t c y).
Proof.
  pose proof (renderRow_shape t c y) as Hshape. cbv zeta in Hshape.
  destruct Hshape as [(_ & _ & ->)|(_ & _ & _ & -> & _)]; [reflexivity|].
  apply validUTF8_app; [apply rowBody_valid|].
  destruct (penActive _); reflexivity.
Qed.

Lemma diffRows_values (t : T) (c : Z) (ys : list Z) :
  forall prev upd prev' upd',
  diffRows t c ys prev upd = Some (prev', upd') ->
  forall y row, upd' !! y = Some row ->
  upd !! y = Some row \/ row = renderRow t c y.
Proof.
  induction ys as [|z ys IH]; intros prev upd prev' upd'; simpl.
  - intros [= <- <-] y row Hl. now left.
  - destruct (prev !! Z.to_nat z) as [old|]; [|discriminate].
    destruct (decide (renderRow t c z = old)); intros Hd y row Hl.
    + exact (IH _ _ _ _ Hd y row Hl).
    + destruct (IH _ _ _ _ Hd y row Hl) as [Hin|Hr]; [|now right].
      apply lookup_insert_Some in Hin as [[<- <-]|[_ Hin]]; [now right | now left].
Qed.

Lemma snapRows_values (t : T) (c : Z) (ys : list Z) :
  forall prev snap prev' snap',
  snapRows t c ys prev snap = Some (prev', snap') ->
  forall y row, snap' !! y = Some row ->
  snap !! y = Some row \/ row = renderRow t c y.
Proof.
  induction ys as [|z ys IH]; intros prev snap prev' snap'; simpl.
  - intros [= <- <-] y row Hl. now left.
  - destruct (decide (Z.to_nat z < length prev)%nat); [|discriminate].
    intros Hd y row Hl.
    destruct (IH _ _ _ _ Hd y row Hl) as [Hin|Hr]; [|now right].
    apply lookup_insert_Some in Hin as [[<- <-]|[_ Hin]]; [now right | now left].
Qed.

(** X16 (Screen.renderRow). Every row the screen hands out is valid UTF-8,
    whatever the cells of the emulator hold: the rendering of any row, every row
    of an update of [Write] and every row of a snapshot. A character that is no
    Unicode scalar value is written as U+FFFD, and the escape sequences are
    ASCII. *)
Theorem rows_valid_utf8 :
  (forall (t : T) (c y : Z), validUTF8 (renderRow t c y))
  /\ (forall (s s' : Screen T) data u y row,
        Write s data = Some (s', Some u) -> uRows u !! y = Some row ->
        validUTF8 row)
  /\ (forall (s s' : Screen T) snap y row,
        Snapshot s = Some (s', snap) -> sRows snap !! y = Some row ->
        validUTF8 row).
Proof.
  split; [exact renderRow_valid|]. split.
  - intros s s' data u y row. unfold Write.
    destruct (diffRows _ _ _ _ _) as [[prev upd]|] eqn:Hd; [|discriminate].
    destruct (decide (size upd = 0%nat)); [discriminate|].
    intros [= <- <-]. simpl. intros Hl.
    destruct (diffRows_values _ _ _ _ _ _ _ Hd y row Hl) as [Hin| ->].
    + rewrite lookup_empty in Hin. discriminate.
    + apply renderRow_valid.
  - intros s s' snap y row. unfold Snapshot.
    destruct (snapRows _ _ _ _ _) as [[prev m]|] eqn:Hd; [|discriminate].
    intros [= <- <-]. simpl. intros Hl.
    destruct (snapRows_values _ _ _ _ _ _ _ Hd y row Hl) as [Hin| ->].
    + rewrite lookup_empty in Hin. discriminate.
    + apply renderRow_valid.
Qed.

End Utf8Proofs.

(** ** The streams of a reachable manager *)
Section FrameProofs.
Import Vt Tmux PipeFrame.
Context {T : Type} `{Terminal T}.

Lemma app_str_inj_l (a b c : string) : a +:+ b = a +:+ c -> b = c.
Proof.
  induction a as [|x a IH]; [now rewrite !app_str_nil_l|].
  rewrite !app_str_cons. intros [= E]. now apply IH.
Qed.

Lemma app_str_inj_r (c : string) :
  forall a b, a +:+ c = b +:+ c -> a = b.
Proof.
  induction a as [|x a IH]; intros b E.
  - destruct b as [|y b]; [reflexivity|].
    apply (f_equal String.length) in E.
    rewrite !length_app_str in E. simpl in E. lia.
  - destruct b as [|y b].
    + apply (f_equal String.length) in E.
      rewrite !length_app_str in E. simpl in E. lia.
    + rewrite !app_str_cons in E. injection E as -> E. f_equal. now apply IH.
Qed.

Lemma pipeFilePath_inj (s1 s2 : string) :
  pipeFilePath s1 = pipeFilePath s2 -> s1 = s2.
Proof.
  unfold pipeFilePath. intros E.
  apply app_str_inj_l in E. now apply app_str_inj_r in E.
Qed.

#[local] Opaque NewScreen Snapshot Write.

Lemma step_FilesKept (w w' : World T) (o : Op) :
  Inv w -> FilesKept w -> step w o = Some w' -> FilesKept w'.
Proof.
  intros Hinv Hfk Hstep s' st' Hs'.
  pose proof Hinv as [(Hok & _) _].
  assert (Hother : forall s st, streams w !! s' = Some st -> s' <> s ->
                     pipeFilePath s' ∈ files w ∖ {[pipeFilePath s]}).
  { intros s st Hl Hne. apply elem_of_difference. split; [now apply (Hfk s' st)|].
    intros Hin%elem_of_singleton. now apply Hne, pipeFilePath_inj. }
  destruct o as [s openOk startOk|s ch| |s data]; simpl in Hstep.
  - unfold Subscribe, makeChan in Hstep; simpl in Hstep.
    destruct (streams w !! s) as [st|] eqn:Hs.
    + destruct (Snapshot (screen st)) as [[scr snap]|]; [|discriminate].
      simpl in Hstep. injection Hstep as <-.
      unfold with_streams in Hs' |- *; simpl in *.
      destruct (decide (s' = s)) as [->|Hne].
      * now apply (Hfk s st).
      * rewrite lookup_insert_ne in Hs' by congruence. now apply (Hfk s' st').
    + destruct openOk; simpl in Hstep.
      2:{ injection Hstep as <-. now apply (Hfk s' st'). }
      destruct startOk; simpl in Hstep.
      2:{ injection Hstep as <-. simpl in *.
          assert (Hin : pipeFilePath s' ∈ files w ∖ {[pipeFilePath s]}).
          { apply (Hother s st' Hs'). intros ->. congruence. }
          set_solver. }
      destruct (NewScreen 80 24) as [scr|]; [|discriminate].
      unfold withCancel in Hstep; simpl in Hstep.
      destruct (Snapshot scr) as [[scr' snap]|]; [|discriminate].
      simpl in Hstep. injection Hstep as <-.
      unfold with_streams in Hs' |- *; simpl in *.
      destruct (decide (s' = s)) as [->|Hne]; [set_solver|].
      rewrite lookup_insert_ne in Hs' by congruence.
      apply elem_of_union_r. now apply (Hfk s' st').
  - unfold Unsubscribe in Hstep.
    destruct (streams w !! s) as [st|] eqn:Hs.
    2:{ injection Hstep as <-. now apply (Hfk s' st'). }
    destruct (Hok s st Hs) as (_ & Hfp & _).
    destruct (decide (ch ∈ subscribers st)) as [Hin|Hin].
    + unfold closeAll in Hstep.
      destruct (decide ({[ch]} ## closed w)); [|discriminate].
      simpl in Hstep.
      destruct (decide (size (subscribers st ∖ {[ch]}) = 0%nat)).
      * unfold stopStream, closeAll in Hstep; simpl in Hstep.
        destruct (decide _); [|discriminate]. simpl in Hstep.
        injection Hstep as <-. unfold with_streams in Hs' |- *; simpl in *.
        apply lookup_delete_Some in Hs' as [Hne Hs'].
        rewrite lookup_insert_ne in Hs' by congruence.
        rewrite Hfp. apply (Hother s st' Hs'). congruence.
      * injection Hstep as <-. unfold with_streams in Hs' |- *; simpl in *.
        destruct (decide (s' = s)) as [->|Hne]; [now apply (Hfk s st)|].
        rewrite lookup_insert_ne in Hs' by congruence. now apply (Hfk s' st').
    + destruct (decide (size (subscribers st) = 0%nat)).
      * unfold stopStream, closeAll in Hstep; simpl in Hstep.
        destruct (decide _); [|discriminate]. simpl in Hstep.
        injection Hstep as <-. unfold with_streams in Hs' |- *; simpl in *.
        apply lookup_delete_Some in Hs' as [Hne Hs'].
        rewrite Hfp. apply (Hother s st' Hs'). congruence.
      * injection Hstep as <-. now apply (Hfk s' st').
  - destruct (StopAll_Inv w Hinv) as (w2 & Hd & _ & He).
    assert (w2 = w') by congruence. subst w2.
    rewrite He, lookup_empty in Hs'. discriminate.
  - unfold tailWrite in Hstep.
    destruct (streams w !! s) as [st|] eqn:Hs.
    2:{ injection Hstep as <-. now apply (Hfk s' st'). }
    destruct (Write (screen st) data) as [[scr r]|]; [|discriminate].
    injection Hstep as <-. unfold with_streams in Hs' |- *; simpl in *.
    destruct (decide (s' = s)) as [->|Hne]; [now apply (Hfk s st)|].
    rewrite lookup_insert_ne in Hs' by congruence. now apply (Hfk s' st').
Qed.

Lemma reachable_FilesKept (w : World T) : reachable w -> FilesKept w.
Proof.
  induction 1 as [files0|w o w' Hr IH Hstep].
  - intros s st Hs. simpl in Hs. rewrite lookup_empty in Hs. discriminate.
  - exact (step_FilesKept w w' o (reachable_Inv w Hr) IH Hstep).
Qed.

(** X9 (PipePaneManager). What a stream of a reachable manager can count on: it
    is filed under its own session, its pipe file is the file of that session
    and is on disk, the context of its tailer is not cancelled, it has at least
    one subscriber, none of its subscriber channels is closed, and no channel
    subscribes to two streams. *)
Theorem active_stream_resources (w : World T) (s : string) (st : pipeStream T) :
  reachable w -> streams w !! s = Some st ->
  session st = s
  /\ filePath st = pipeFilePath s
  /\ filePath st ∈ files w
  /\ (cancel st ∉ cancelled w)
  /\ subscribers st <> ∅
  /\ (subscribers st ## closed w)
  /\ forall s2 st2, s2 <> s -> streams w !! s2 = Some st2 ->
       subscribers st ## subscribers st2 /\ cancel st <> cancel st2.
Proof.
  intros Hr Hs.
  destruct (reachable_Inv w Hr) as [(Hok & _ & Hdis & _) Hsub].
  destruct (Hok s st Hs) as (Hn & Hf & _ & Hd & _ & Hc & _).
  split; [exact Hn|]. split; [exact Hf|].
  split; [rewrite Hf; now apply (reachable_FilesKept w Hr s st)|].
  split; [exact Hc|]. split; [now apply (Hsub s)|]. split; [exact Hd|].
  intros s2 st2 Hne Hs2. apply (Hdis s s2 st st2); [congruence | exact Hs | exact Hs2].
Qed.

(** X10 (PipePaneManager). A call about one session leaves every other session
    alone: its stream (subscribers, screen, tailer) and its pipe-pane are as
    before, and so is its pipe file. *)
Theorem session_isolation (w w' : World T) (o : Op) (s s' : string) :
  reachable w -> opSession o = Some s -> s' <> s ->
  step w o = Some w' ->
  streams w' !! s' = streams w !! s'
  /\ (s' ∈ pipes w' <-> s' ∈ pipes w)
  /\ (pipeFilePath s' ∈ files w' <-> pipeFilePath s' ∈ files w).
Proof.
  intros Hr Ho Hne Hstep.
  destruct (reachable_Inv w Hr) as [(Hok & _) _].
  assert (Hpath : pipeFilePath s' <> pipeFilePath s).
  { intros E. now apply Hne, pipeFilePath_inj. }
  destruct o as [s0 openOk startOk|s0 ch| |s0 data]; simpl in Ho;
    try discriminate; injection Ho as ->; simpl in Hstep.
  - unfold Subscribe, makeChan in Hstep; simpl in Hstep.
    destruct (streams w !! s) as [st|] eqn:Hs.
    + destruct (Snapshot (screen st)) as [[scr snap]|]; [|discriminate].
      simpl in Hstep. injection Hstep as <-. unfold with_streams; simpl.
      rewrite lookup_insert_ne by congruence. tauto.
    + destruct openOk; simpl in Hstep.
      2:{ injection Hstep as <-. simpl. tauto. }
      destruct startOk; simpl in Hstep.
      2:{ injection Hstep as <-. simpl. split; [reflexivity|].
          split; [tauto | set_solver]. }
      destruct (NewScreen 80 24) as [scr|]; [|discriminate].
      unfold withCancel in Hstep; simpl in Hstep.
      destruct (Snapshot scr) as [[scr' snap]|]; [|discriminate].
      simpl in Hstep. injection Hstep as <-. unfold with_streams; simpl.
      rewrite lookup_insert_ne by congruence.
      split; [reflexivity|]. split; set_solver.
  - unfold Unsubscribe in Hstep.
    destruct (streams w !! s) as [st|] eqn:Hs.
    2:{ injection Hstep as <-. tauto. }
    destruct (Hok s st Hs) as (Hsn & Hfp & _).
    destruct (decide (ch ∈ subscribers st)) as [Hin|Hin].
    + unfold closeAll in Hstep.
      destruct (decide ({[ch]} ## closed w)); [|discriminate].
      simpl in Hstep.
      destruct (decide (size (subscribers st ∖ {[ch]}) = 0%nat)).
      * unfold stopStream, closeAll in Hstep; simpl in Hstep.
        destruct (decide _); [|discriminate]. simpl in Hstep.
        injection Hstep as <-. unfold with_streams; simpl.
        rewrite lookup_delete_ne, lookup_insert_ne by congruence.
        rewrite Hsn, Hfp. split; [reflexivity|]. split; set_solver.
      * injection Hstep as <-. unfold with_streams; simpl.
        rewrite lookup_insert_ne by congruence. tauto.
    + destruct (decide (size (subscribers st) = 0%nat)).
      * unfold stopStream, closeAll in Hstep; simpl in Hstep.
        destruct (decide _); [|discriminate]. simpl in Hstep.
        injection Hstep as <-. unfold with_streams; simpl.
        rewrite lookup_delete_ne by congruence.
        rewrite Hsn, Hfp. split; [reflexivity|]. split; set_solver.
      * injection Hstep as <-. tauto.
  - unfold tailWrite in Hstep.
    destruct (streams w !! s) as [st|] eqn:Hs.
    2:{ injection Hstep as <-. tauto. }
    destruct (Write (screen st) data) as [[scr r]|]; [|discriminate].
    injection Hstep as <-. unfold with_streams; simpl.
    rewrite lookup_insert_ne by congruence. tauto.
Qed.

#[local] Transparent NewScreen Snapshot Write.

End FrameProofs.

(** ** The calls of the manager on a subscriber *)
Section ApiProofs.
Import Vt Tmux.
Context {T : Type} `{Terminal T}.

(** X14 (NewScreen, Screen.Write). A fresh screen: [NewScreen] panics on a
    negative number of rows; with rows >= 0 it returns a screen whose first
    [Write] reports exactly the rows of the screen whose rendering is not empty,
    each with its rendering, and returns nil when every row renders empty. *)
Theorem NewScreen_first_Write (c r : Z) (data : string) :
  (r < 0 -> NewScreen (T := T) c r = None)
  /\ (0 <= r ->
      exists s s' res,
        NewScreen c r = Some s
        /\ screen_wf s /\ cols s = c /\ rows s = r
        /\ Write s data = Some (s', res)
        /\ (forall y row,
              (res ≫= fun u => uRows u !! y) = Some row
              <-> 0 <= y < r
                  /\ row = renderRow (term_Write (term_New c r) data) c y
                  /\ row <> "")
        /\ (res = None
            <-> forall y, 0 <= y < r ->
                  renderRow (term_Write (term_New c r) data) c y = "")).
Proof.
  split; [intros Hr; unfold NewScreen; now rewrite decide_True|].
  intros Hr.
  destruct (NewScreen_some c r Hr) as (s & Hn & Hwf).
  assert (Hs : s = mkScreen (term_New c r) c r (replicate (Z.to_nat r) "")).
  { unfold NewScreen in Hn. rewrite decide_False in Hn by lia. congruence. }
  destruct (Write_rows s data Hwf)
    as (s' & res & Hw & _ & Ht & _ & _ & _ & Hres).
  assert (Hprev : forall y, 0 <= y < r -> prevRows s !! Z.to_nat y = Some "").
  { intros y Hy. rewrite Hs. simpl. apply lookup_replicate_2. lia. }
  assert (Hterm : term s' = term_Write (term_New c r) data).
  { rewrite Ht, Hs. reflexivity. }
  assert (Hc : cols s = c) by (rewrite Hs; reflexivity).
  assert (Hrw : rows s = r) by (rewrite Hs; reflexivity).
  exists s, s', res. split; [exact Hn|]. split; [exact Hwf|].
  split; [exact Hc|]. split; [exact Hrw|]. split; [exact Hw|].
  rewrite Hterm, Hc, Hrw in Hres.
  destruct res as [u|]; simpl.
  - destruct Hres as (Hrows & _). split.
    + intros y row. rewrite Hrows. split.
      * intros (Hy & -> & Hne). split; [exact Hy|]. split; [reflexivity|].
        intros E. apply Hne. rewrite E. now apply Hprev.
      * intros (Hy & -> & Hne). split; [exact Hy|]. split; [reflexivity|].
        rewrite (Hprev y Hy). congruence.
    + split; [discriminate|]. intros Hall. exfalso.
      destruct (map_choose (uRows u)) as (y & row & Hl).
      * intros E.
        assert (Hsz : size (uRows u) <> 0%nat).
        { unfold Write in Hw.
          destruct (diffRows _ _ _ _ _) as [[prev upd]|]; [|discriminate].
          destruct (decide (size upd = 0%nat)); [discriminate|].
          injection Hw as _ <-. exact n. }
        apply Hsz. rewrite E. apply map_size_empty.
      * apply Hrows in Hl as (Hy & -> & Hne).
        apply Hne. rewrite (Hall y Hy). now apply Hprev.
  - split.
    + intros y row. split; [discriminate|].
      intros (Hy & -> & Hne). exfalso. apply Hne.
      pose proof (Hres y Hy) as E. rewrite (Hprev y Hy) in E. congruence.
    + split; [|reflexivity]. intros _ y Hy.
      pose proof (Hres y Hy) as E. rewrite (Hprev y Hy) in E. congruence.
Qed.

Lemma NewScreen_dims (c r : Z) (s : Screen T) :
  NewScreen c r = Some s -> cols s = c /\ rows s = r.
Proof.
  unfold NewScreen. destruct (decide (r < 0)); [discriminate|].
  intros [= <-]. split; reflexivity.
Qed.

#[local] Opaque NewScreen Snapshot Write.

(** X1 (PipePaneManager.Subscribe). The first [Subscribe] to a session, when the
    file can be created and the multiplexer accepts the command: the pipe file
    of the session is created, pipe-pane is started with cat appending to that
    file, a tailer context is made, and the session gets a stream with a fresh
    80 by 24 screen and the returned channel as its only subscriber; the channel
    is fresh and the snapshot is that of the fresh screen. The streams of the
    other sessions are left as they were. *)
Theorem Subscribe_first (w : World T) (s : string) :
  reachable w -> streams w !! s = None ->
  exists w' ch snap st scr0,
    Subscribe w s true true = Some (w', Some (ch, snap))
    /\ streams w' = <[s := st]> (streams w)
    /\ session st = s /\ filePath st = pipeFilePath s
    /\ subscribers st = {[ch]}
    /\ (ch ∉ closed w')
    /\ (forall s2 st2, streams w !! s2 = Some st2 -> ch ∉ subscribers st2)
    /\ (cancel st ∉ cancelled w')
    /\ NewScreen 80 24 = Some scr0
    /\ Snapshot scr0 = Some (screen st, snap)
    /\ sCols snap = 80 /\ sNumRows snap = 24
    /\ cmds w' = CmdPipePaneStart s ("cat >> " +:+ pipeFilePath s) :: cmds w
    /\ pipes w' = {[s]} ∪ pipes w
    /\ files w' = {[pipeFilePath s]} ∪ files w.
Proof.
  intros Hr Hs.
  destruct (reachable_Inv w Hr) as [(Hok & _ & _ & Hcl & Hcx) _].
  destruct (NewScreen_some 80 24 ltac:(lia)) as (scr0 & Hn & Hwf0).
  destruct (Snapshot_spec scr0 Hwf0)
    as (scr & snap & Hsn & _ & _ & Hc & Hrw & _ & _ & Hsc & Hsr & _).
  pose proof (NewScreen_dims 80 24 scr0 Hn) as Hdim.
  unfold Subscribe, makeChan, withCancel; simpl. rewrite Hs. simpl.
  rewrite Hn. simpl. rewrite Hsn.
  eexists _, _, snap, _, scr0. split; [reflexivity|].
  unfold with_streams; simpl.
  split; [reflexivity|]. do 3 (split; [reflexivity|]).
  split; [intros Hin; apply Hcl in Hin; lia|].
  split.
  { intros s2 st2 Hs2 Hin.
    destruct (Hok s2 st2 Hs2) as (_ & _ & _ & _ & Hlt & _).
    apply Hlt in Hin. lia. }
  split; [simpl; intros Hin; apply Hcx in Hin; lia|].
  split; [reflexivity|]. split; [exact Hsn|].
  destruct Hdim as [Hd1 Hd2].
  split; [congruence|]. split; [congruence|]. repeat split.
Qed.

(** X4 (PipePaneManager.Unsubscribe). [Unsubscribe] of a channel that subscribes
    to the stream of the session: the channel is closed, and no other channel
    is. When it was the last subscriber the stream is torn down: the tailer
    context is cancelled, pipe-pane is stopped, the pipe file is removed and the
    session has no stream any more. Otherwise the stream stays with the other
    subscribers, the same screen and the same tailer, and no command is sent and
    no file is touched. *)
Theorem Unsubscribe_subscriber (w : World T) (s : string) (st : pipeStream T)
    (ch : chan) :
  reachable w -> streams w !! s = Some st -> ch ∈ subscribers st ->
  exists w',
    Unsubscribe w s ch = Some w'
    /\ closed w' = {[ch]} ∪ closed w
    /\ if decide (subscribers st = {[ch]})
       then streams w' = delete s (streams w)
            /\ pipes w' = pipes w ∖ {[s]}
            /\ files w' = files w ∖ {[pipeFilePath s]}
            /\ cancelled w' = {[cancel st]} ∪ cancelled w
            /\ cmds w' = CmdPipePaneStop s :: cmds w
       else (exists st',
               streams w' = <[s := st']> (streams w)
               /\ subscribers st' = subscribers st ∖ {[ch]}
               /\ screen st' = screen st /\ cancel st' = cancel st
               /\ session st' = session st /\ filePath st' = filePath st)
            /\ pipes w' = pipes w /\ files w' = files w
            /\ cancelled w' = cancelled w /\ cmds w' = cmds w.
Proof.
  intros Hr Hs Hin.
  destruct (reachable_Inv w Hr) as [(Hok & _) _].
  destruct (Hok s st Hs) as (Hsn & Hfp & _ & Hd & _).
  unfold Unsubscribe. rewrite Hs. rewrite decide_True by exact Hin.
  unfold closeAll. rewrite decide_True by set_solver. simpl.
  destruct (decide (subscribers st = {[ch]})) as [E|E].
  - rewrite decide_True.
    2:{ rewrite E, difference_diag_L. apply size_empty. }
    unfold stopStream, closeAll; simpl.
    rewrite decide_True by (rewrite E, difference_diag_L; set_solver).
    eexists. split; [reflexivity|]. unfold with_streams; simpl.
    split; [rewrite E, difference_diag_L; set_solver|].
    split; [now rewrite delete_insert_eq|].
    rewrite Hsn, Hfp. repeat split.
  - rewrite decide_False.
    2:{ intros Hz. apply size_empty_inv in Hz. apply E.
        apply leibniz_equiv in Hz. apply set_eq. intros x. split.
        - intros Hx. destruct (decide (x = ch)) as [->|Hne]; [set_solver|].
          assert (x ∈ subscribers st ∖ {[ch]}) by set_solver.
          rewrite Hz in *. set_solver.
        - intros ->%elem_of_singleton. exact Hin. }
    eexists. split; [reflexivity|]. unfold with_streams; simpl.
    split; [reflexivity|]. split; [|repeat split].
    eexists. split; [reflexivity|]. repeat split.
Qed.

#[local] Transparent NewScreen Snapshot Write.

End ApiProofs.

(** ** The session filters *)
Section FilterProofs.
Import Wsbase Filters.
Variable regexp_Compile : string -> Regexp + string.

(** X19 (CompileSessionFilters). [CompileSessionFilters]: there is no error
    exactly when each pattern is empty or compiles; an include pattern that does
    not compile is the error reported, whatever the exclude pattern; with an
    error both filters are nil; and without one a name passes the filters
    exactly when the include pattern is empty or matches it and the exclude
    pattern does not match it (an empty pattern filters nothing). *)
Theorem CompileSessionFilters_spec (includeStr excludeStr : string) :
  let '(include, exclude, err) :=
    CompileSessionFilters regexp_Compile includeStr excludeStr in
  (err = None
   <-> compiles regexp_Compile includeStr /\ compiles regexp_Compile excludeStr)
  /\ (forall msg, includeStr <> "" -> regexp_Compile includeStr = inr msg ->
        err = Some ("invalid includeSessionFilter: " +:+ msg))
  /\ (err <> None -> include = None /\ exclude = None)
  /\ (err = None -> forall name,
        PassesFilter name include exclude = true
        <-> (includeStr = "" \/ matches regexp_Compile includeStr name)
            /\ ~ matches regexp_Compile excludeStr name).
Proof.
  unfold CompileSessionFilters, compiles, matches.
  destruct (decide (includeStr = "")) as [Ei|Ei];
    destruct (decide (excludeStr = "")) as [Ee|Ee].
  - rewrite !bool_decide_false by tauto. subst.
    split; [split; [auto | reflexivity]|].
    split; [intros; congruence|]. split; [congruence|].
    intros _ name. unfold PassesFilter. split; [|reflexivity].
    intros _. split; [now left | intros [Hn _]; congruence].
  - rewrite (bool_decide_false (includeStr <> "")) by tauto.
    rewrite (bool_decide_true (excludeStr <> "")) by exact Ee.
    destruct (regexp_Compile excludeStr) as [re|msg] eqn:He.
    + split; [split; [intros _; split; [now left | right; now exists re]
                     | reflexivity]|].
      split; [intros; congruence|]. split; [congruence|].
      intros _ name. unfold PassesFilter.
      destruct (re name) eqn:Hm.
      * split; [discriminate|]. intros [_ Hn]. exfalso. apply Hn.
        split; [exact Ee|]. now exists re.
      * split; [|reflexivity]. intros _. split; [now left|].
        intros (_ & re' & Hre & Hm'). congruence.
    + split; [split; [discriminate|]|].
      { intros [_ [E|[re Hre]]]; congruence. }
      split; [intros; congruence|]. split; [auto | discriminate].
  - rewrite (bool_decide_true (includeStr <> "")) by exact Ei.
    rewrite (bool_decide_false (excludeStr <> "")) by tauto.
    destruct (regexp_Compile includeStr) as [re|msg] eqn:Hi.
    + split; [split; [intros _; split; [right; now exists re | now left]
                     | reflexivity]|].
      split; [intros; congruence|]. split; [congruence|].
      intros _ name. unfold PassesFilter.
      destruct (re name) eqn:Hm; simpl.
      * split; [|reflexivity]. intros _.
        split; [right; split; [exact Ei | now exists re] | intros [Hn _]; congruence].
      * split; [discriminate|].
        intros [[E|(_ & re' & Hre & Hm')] _]; congruence.
    + split; [split; [discriminate|]|].
      { intros [[E|[re Hre]] _]; congruence. }
      split; [intros m _ [= ->]; reflexivity|]. split; [auto | discriminate].
  - rewrite !bool_decide_true by assumption.
    destruct (regexp_Compile includeStr) as [re|msg] eqn:Hi.
    + destruct (regexp_Compile excludeStr) as [re2|msg2] eqn:He.
      * split; [split; [intros _; split; right; eauto | reflexivity]|].
        split; [intros; congruence|]. split; [congruence|].
        intros _ name. unfold PassesFilter.
        destruct (re name) eqn:Hm; simpl.
        -- destruct (re2 name) eqn:Hm2.
           ++ split; [discriminate|]. intros [_ Hn]. exfalso. apply Hn.
              split; [exact Ee|]. now exists re2.
           ++ split; [|reflexivity]. intros _. split.
              ** right. split; [exact Ei|]. now exists re.
              ** intros (_ & re' & Hre & Hm'). congruence.
        -- split; [discriminate|].
           intros [[E|(_ & re' & Hre & Hm')] _]; congruence.
      * split; [split; [discriminate|]|].
        { intros [_ [E|[re' Hre]]]; congruence. }
        split; [intros; congruence|]. split; [auto | discriminate].
    + split; [split; [discriminate|]|].
      { intros [[E|[re Hre]] _]; congruence. }
      split; [intros m _ [= ->]; reflexivity|]. split; [auto | discriminate].
Qed.

End FilterProofs.

(** ** The agent subscription of the converter *)
Section WsconvSend.
Import Wsbase Filters Wsconv.
Variable json_Marshal : serverMessage -> option string.

Lemma sendJSON_spec (c : Client) (v : serverMessage) :
  let c' := sendJSON json_Marshal c v in
  send c' = send c ++ enqueued json_Marshal c v
  /\ subscribedAgents c' = subscribedAgents c
  /\ includeSessionFilter c' = includeSessionFilter c
  /\ excludeSessionFilter c' = excludeSessionFilter c.
Proof.
  unfold sendJSON, enqueued. destruct (json_Marshal v) as [d|].
  - destruct (decide _) as [Hroom|Hfull]; simpl.
    + repeat split.
    + rewrite app_nil_r. repeat split.
  - simpl. rewrite app_nil_r. repeat split.
Qed.

Lemma enqueued_length (c : Client) (v : serverMessage) :
  (length (enqueued json_Marshal c v) <= 1)%nat
  /\ ((length (send c) <= sendCap)%nat ->
      (length (send c ++ enqueued json_Marshal c v) <= sendCap)%nat).
Proof.
  unfold enqueued. destruct (json_Marshal v) as [d|]; simpl.
  - destruct (decide _); simpl; rewrite ?length_app, ?app_nil_r; simpl; lia.
  - rewrite app_nil_r. lia.
Qed.

End WsconvSend.

Section WsconvLifecycle.
Import Wsbase Filters Wsconv.
Variable json_Marshal : serverMessage -> option string.
Variable registry_Count : Z.

(** The lifecycle broadcast for one client. *)
Lemma lifecycleTo_spec (event : WatcherEvent) (c : Client) :
  let c' := lifecycleTo json_Marshal registry_Count event c in
  let c1 := if bool_decide (eType event <> "agent-updated")
            then sendJSON json_Marshal c (countMessage registry_Count)
            else c in
  subscribedAgents c' = subscribedAgents c
  /\ includeSessionFilter c' = includeSessionFilter c
  /\ excludeSessionFilter c' = excludeSessionFilter c
  /\ (subscribedAgents c = false -> c' = c)
  /\ (subscribedAgents c = true ->
      send c'
      = send c1
        ++ (if PassesFilter (eventAgentName event) (includeSessionFilter c)
                            (excludeSessionFilter c)
            then enqueued json_Marshal c1 (lifecycleMessage event)
            else [])).
Proof.
  unfold lifecycleTo. destruct (subscribedAgents c) eqn:Hsub; simpl.
  2:{ rewrite Hsub. repeat split. discriminate. }
  destruct (bool_decide (eType event <> "agent-updated")).
  - destruct (sendJSON_spec json_Marshal c (countMessage registry_Count))
      as (_ & H1 & H2 & H3).
    destruct (PassesFilter _ _ _).
    + destruct (sendJSON_spec json_Marshal
                  (sendJSON json_Marshal c (countMessage registry_Count))
                  (lifecycleMessage event)) as (G0 & G1 & G2 & G3).
      split; [congruence|]. split; [congruence|]. split; [congruence|].
      split; [discriminate|]. intros _. exact G0.
    + split; [congruence|]. split; [congruence|]. split; [congruence|].
      split; [discriminate|]. intros _. now rewrite app_nil_r.
  - destruct (PassesFilter _ _ _).
    + destruct (sendJSON_spec json_Marshal c (lifecycleMessage event))
        as (G0 & G1 & G2 & G3).
      split; [congruence|]. split; [congruence|]. split; [congruence|].
      split; [discriminate|]. intros _. exact G0.
    + rewrite Hsub. repeat split; try discriminate. now rewrite app_nil_r.
Qed.

(** X21 (Server.broadcastAgentLifecycle). [broadcastAgentLifecycle], for every
    client of the server: its subscription flag and filters are left as they
    were; a client that is not subscribed gets nothing; what was queued stays
    queued, in order, and the queue never grows past its capacity; and when the
    queue of a subscribed client has room for two messages and the messages
    marshal, it gets the agents-count message unless the event is agent-updated,
    whatever its filters, followed by the lifecycle message when the name of the
    event's agent (the empty name when the event has no agent) passes its
    filters. *)
Theorem broadcastAgentLifecycle_spec (clients : gmap nat Client)
    (event : WatcherEvent) (id : nat) (c : Client) :
  clients !! id = Some c ->
  exists c' added,
    broadcastAgentLifecycle json_Marshal registry_Count clients event !! id
    = Some c'
    /\ subscribedAgents c' = subscribedAgents c
    /\ includeSessionFilter c' = includeSessionFilter c
    /\ excludeSessionFilter c' = excludeSessionFilter c
    /\ send c' = send c ++ added
    /\ (subscribedAgents c = false -> added = [])
    /\ ((length (send c) <= sendCap)%nat -> (length (send c') <= sendCap)%nat)
    /\ (subscribedAgents c = true -> (length (send c) + 2 <= sendCap)%nat ->
        forall dc de,
          json_Marshal (countMessage registry_Count) = Some dc ->
          json_Marshal (lifecycleMessage event) = Some de ->
          added
          = (if bool_decide (eType event = "agent-updated") then []
             else [mkOutMsg MessageText dc])
            ++ (if PassesFilter (eventAgentName event) (includeSessionFilter c)
                                (excludeSessionFilter c)
                then [mkOutMsg MessageText de] else [])).
Proof.
  intros Hc. unfold broadcastAgentLifecycle. rewrite lookup_fmap, Hc. simpl.
  destruct (lifecycleTo_spec event c) as (H1 & H2 & H3 & Hun & Hsub).
  set (c' := lifecycleTo json_Marshal registry_Count event c) in *.
  set (count := if bool_decide (eType event <> "agent-updated")
                then enqueued json_Marshal c (countMessage registry_Count)
                else []).
  set (c1 := if bool_decide (eType event <> "agent-updated")
             then sendJSON json_Marshal c (countMessage registry_Count)
             else c) in *.
  assert (Hc1 : send c1 = send c ++ count).
  { unfold c1, count. destruct (bool_decide _).
    - apply sendJSON_spec.
    - now rewrite app_nil_r. }
  set (ev := if PassesFilter (eventAgentName event) (includeSessionFilter c)
                             (excludeSessionFilter c)
             then enqueued json_Marshal c1 (lifecycleMessage event)
             else []) in *.
  exists c', (if subscribedAgents c then count ++ ev else []).
  split; [reflexivity|]. do 3 (split; [assumption|]).
  destruct (subscribedAgents c) eqn:Hs.
  - specialize (Hsub eq_refl). rewrite Hsub, Hc1, <- app_assoc.
    split; [reflexivity|]. split; [discriminate|]. split.
    + intros Hcap.
      assert (Hcap1 : (length (send c ++ count) <= sendCap)%nat).
      { unfold count. destruct (bool_decide _).
        - now apply enqueued_length.
        - now rewrite app_nil_r. }
      rewrite app_assoc, <- Hc1. unfold ev. destruct (PassesFilter _ _ _).
      * apply enqueued_length. now rewrite Hc1.
      * now rewrite app_nil_r, Hc1.
    + intros _ Hroom dc de Hdc Hde. unfold count, ev.
      assert (Hlen1 : (length (send c1) < sendCap)%nat).
      { rewrite Hc1, length_app. unfold count.
        pose proof (enqueued_length json_Marshal c (countMessage registry_Count)) as [Hle _].
        destruct (bool_decide _); simpl; lia. }
      f_equal.
      * destruct (decide (eType event = "agent-updated")) as [E|E].
        -- rewrite bool_decide_false by tauto. now rewrite bool_decide_true.
        -- rewrite bool_decide_true by exact E. rewrite bool_decide_false by exact E.
           unfold enqueued. rewrite Hdc. rewrite decide_True by lia. reflexivity.
      * destruct (PassesFilter _ _ _); [|reflexivity].
        unfold enqueued. rewrite Hde. now rewrite decide_True.
  - rewrite (Hun eq_refl). rewrite app_nil_r.
    split; [reflexivity|]. split; [reflexivity|]. split; [auto | discriminate].
Qed.

End WsconvLifecycle.

Section WsconvAgents.
Import Wsbase Filters Wsconv.
Variable json_Marshal : serverMessage -> option string.
Variable regexp_Compile : string -> Regexp + string.
Variable ListAgents : list Agent.
Variable GetActiveConversation : string -> string.
Variable registry_Count : Z.

Lemma addAgent_spec (include exclude : option Regexp) (l : list Agent) :
  forall acc,
  foldl (addAgent GetActiveConversation include exclude) acc l
  = acc ++ (infoOf GetActiveConversation
              <$> List.filter (fun a => PassesFilter (aName a) include exclude) l).
Proof.
  induction l as [|a l IH]; intros acc; simpl.
  - now rewrite app_nil_r.
  - rewrite IH. unfold addAgent.
    destruct (PassesFilter (aName a) include exclude); simpl; [|reflexivity].
    rewrite <- app_assoc. simpl. f_equal. f_equal. unfold infoOf.
    destruct (decide (GetActiveConversation (aName a) = "")) as [E|E].
    + rewrite bool_decide_false by tauto. now rewrite E.
    + rewrite bool_decide_true by exact E. reflexivity.
Qed.

(** The list of [buildAgentList]: the watcher's agents that pass the
    filters, in the watcher's order. *)
Lemma buildAgentList_spec (include exclude : option Regexp) :
  buildAgentList ListAgents GetActiveConversation include exclude
  = infoOf GetActiveConversation
      <$> List.filter (fun a => PassesFilter (aName a) include exclude) ListAgents.
Proof. unfold buildAgentList. now rewrite addAgent_spec. Qed.

Lemma listed_iff (include exclude : option Regexp) (name : string) :
  name ∈ Name <$> buildAgentList ListAgents GetActiveConversation include exclude
  <-> name ∈ aName <$> ListAgents /\ PassesFilter name include exclude = true.
Proof.
  rewrite buildAgentList_spec, <- list_fmap_compose.
  rewrite !list_elem_of_fmap. split.
  - intros (a & -> & Ha). apply list_elem_of_In, filter_In in Ha as [Ha Hp].
    split; [|exact Hp]. exists a. split; [reflexivity|]. now apply list_elem_of_In.
  - intros [(a & -> & Ha) Hp]. exists a. split; [reflexivity|].
    apply list_elem_of_In, filter_In. split; [now apply list_elem_of_In | exact Hp].
Qed.

(** X20 (Client.handleListAgents, Client.handleSubscribeAgents). The two agent
    handlers and the stored subscription. [list-agents] never changes the
    subscription flag or the stored filters. With a pattern that does not
    compile [subscribe-agents] leaves them as they were too and answers with ok
    false and the error. With patterns that compile it sets the flag, stores the
    compiled filters and answers with the watcher's agents that pass them, in
    the watcher's order, and the unfiltered count of the registry. Each handler
    hands one message to [sendJSON]. *)
Theorem agent_handlers_subscription (c : Client) (msg : clientMessage) :
  let list := handleListAgents json_Marshal regexp_Compile ListAgents
                GetActiveConversation c msg in
  let sub := handleSubscribeAgents json_Marshal regexp_Compile ListAgents
               GetActiveConversation registry_Count c msg in
  let '(include, exclude, err) :=
    CompileSessionFilters regexp_Compile (cIncludeSessionFilter msg)
                          (cExcludeSessionFilter msg) in
  (subscribedAgents list = subscribedAgents c
   /\ includeSessionFilter list = includeSessionFilter c
   /\ excludeSessionFilter list = excludeSessionFilter c)
  /\ match err with
     | Some e =>
         subscribedAgents sub = subscribedAgents c
         /\ includeSessionFilter sub = includeSessionFilter c
         /\ excludeSessionFilter sub = excludeSessionFilter c
         /\ send sub
            = send c
              ++ enqueued json_Marshal c
                   (mkServerMessage (cID msg) "subscribe-agents" (Some false) e
                                    [] None None "")
     | None =>
         subscribedAgents sub = true
         /\ includeSessionFilter sub = include
         /\ excludeSessionFilter sub = exclude
         /\ send sub
            = send c
              ++ enqueued json_Marshal c
                   (mkServerMessage (cID msg) "subscribe-agents" (Some true) ""
                      (infoOf GetActiveConversation
                         <$> List.filter
                               (fun a => PassesFilter (aName a) include exclude)
                               ListAgents)
                      (Some registry_Count) None "")
     end.
Proof.
  unfold handleListAgents, handleSubscribeAgents.
  destruct (CompileSessionFilters regexp_Compile _ _) as [[include exclude] [e|]].
  - split.
    + destruct (sendJSON_spec json_Marshal c (mkServerMessage (cID msg) "list-agents"
                                   (Some false) e [] None None ""))
        as (_ & H1 & H2 & H3). auto.
    + destruct (sendJSON_spec json_Marshal c (mkServerMessage (cID msg) "subscribe-agents"
                                   (Some false) e [] None None ""))
        as (H0 & H1 & H2 & H3). auto.
  - split.
    + destruct (sendJSON_spec json_Marshal c
                  (mkServerMessage (cID msg) "list-agents" None ""
                     (buildAgentList ListAgents GetActiveConversation include exclude)
                     None None ""))
        as (_ & H1 & H2 & H3). auto.
    + rewrite buildAgentList_spec.
      destruct (sendJSON_spec json_Marshal (mkClient (send c) true include exclude)
                  (mkServerMessage (cID msg) "subscribe-agents" (Some true) ""
                     (infoOf GetActiveConversation
                        <$> List.filter
                              (fun a => PassesFilter (aName a) include exclude)
                              ListAgents)
                     (Some registry_Count) None ""))
        as (H0 & H1 & H2 & H3).
      simpl in *. auto.
Qed.

(** X22 (Client.handleSubscribeAgents, Server.broadcastAgentLifecycle). After a
    [subscribe-agents] whose patterns compile, the lifecycle messages the client
    is sent agree with the list of the answer: the message about an agent of the
    watcher is handed to [sendJSON] exactly when the agent is in that list; it
    follows the agents-count message, which is handed over for every event but
    agent-updated. *)
Theorem lifecycle_matches_listing (c : Client) (msg : clientMessage)
    (include exclude : option Regexp) (a : Agent) (ty : string) :
  CompileSessionFilters regexp_Compile (cIncludeSessionFilter msg)
                        (cExcludeSessionFilter msg)
  = (include, exclude, None) ->
  aName a ∈ aName <$> ListAgents ->
  let listed := buildAgentList ListAgents GetActiveConversation include exclude in
  let c1 := handleSubscribeAgents json_Marshal regexp_Compile ListAgents
              GetActiveConversation registry_Count c msg in
  let event := mkWatcherEvent ty (Some a) in
  let c2 := if bool_decide (ty <> "agent-updated")
            then sendJSON json_Marshal c1 (countMessage registry_Count)
            else c1 in
  send (lifecycleTo json_Marshal registry_Count event c1)
  = send c2
    ++ (if bool_decide (aName a ∈ Name <$> listed)
        then enqueued json_Marshal c2 (lifecycleMessage event)
        else []).
Proof.
  intros Hcomp Hin listed c1 event c2.
  assert (Hc1 : subscribedAgents c1 = true
                /\ includeSessionFilter c1 = include
                /\ excludeSessionFilter c1 = exclude).
  { unfold c1, handleSubscribeAgents. rewrite Hcomp.
    destruct (sendJSON_spec json_Marshal (mkClient (send c) true include exclude)
                (mkServerMessage (cID msg) "subscribe-agents" (Some true) ""
                   (buildAgentList ListAgents GetActiveConversation include exclude)
                   (Some registry_Count) None ""))
      as (_ & H1 & H2 & H3). auto. }
  destruct Hc1 as (Hs & Hi & He).
  destruct (lifecycleTo_spec json_Marshal registry_Count event c1)
    as (_ & _ & _ & _ & Hsend).
  rewrite (Hsend Hs). simpl. fold c2. f_equal.
  rewrite Hi, He. change (eventAgentName event) with (aName a).
  destruct (PassesFilter (aName a) include exclude) eqn:Hp.
  - rewrite bool_decide_true; [reflexivity|]. apply listed_iff. now split.
  - rewrite bool_decide_false; [reflexivity|].
    intros [_ Hp']%listed_iff. congruence.
Qed.

End WsconvAgents.

(** ** The helpers of the protocol *)
Section ProtocolProofs.
Import Wsconv ControlMode.

(** X25 (subID). Subscription identifiers never collide: two counters give the
    same identifier only when they are equal. *)
Theorem subID_inj (n m : Z) : subID n = subID m <-> n = m.
Proof.
  split; [|now intros ->]. unfold subID. intros Heq.
  assert (Hp : pretty n = pretty m).
  { change ("sub-" +:+ pretty n) with
      (String "s" (String "u" (String "b" (String "-" (pretty n))))) in Heq.
    change ("sub-" +:+ pretty m) with
      (String "s" (String "u" (String "b" (String "-" (pretty m))))) in Heq.
    congruence. }
  now apply (inj pretty).
Qed.

Section CursorProofs.
Context {ConversationEvent : Type}.
Variable Seq : ConversationEvent -> Z.
Variable EventID : ConversationEvent -> string.
Variable json_Marshal_Cursor : Cursor -> option string.

Lemma last_drop {A : Type} (l : list A) (k : nat) :
  (k < length l)%nat -> last (drop k l) = last l.
Proof.
  revert k. induction l as [|x l IH]; intros k Hk; [simpl in Hk; lia|].
  destruct k as [|k]; [reflexivity|]. simpl in Hk. simpl drop.
  rewrite IH by lia. destruct l as [|y l]; [simpl in Hk; lia | reflexivity].
Qed.

(** X23 (capSnapshot, makeCursor). [capSnapshot] keeps the last
    [maxSnapshotEvents] events: the result is the end of the list, it has the
    length of the list or [maxSnapshotEvents], whichever is smaller, capping
    twice is capping once, and the cursor made from the capped list is the
    cursor made from the whole list. *)
Theorem capSnapshot_spec (events : list ConversationEvent) (convID : string) :
  (exists dropped, events = dropped ++ capSnapshot events)
  /\ Z.of_nat (length (capSnapshot events))
     = Z.min (Z.of_nat (length events)) maxSnapshotEvents
  /\ capSnapshot (capSnapshot events) = capSnapshot events
  /\ makeCursor Seq EventID json_Marshal_Cursor convID (capSnapshot events)
     = makeCursor Seq EventID json_Marshal_Cursor convID events.
Proof.
  assert (Hmax : maxSnapshotEvents = 20000) by reflexivity.
  destruct (decide (Z.of_nat (length events) > maxSnapshotEvents)) as [Hgt|Hle].
  - set (k := Z.to_nat (Z.of_nat (length events) - maxSnapshotEvents)).
    assert (Hcap : capSnapshot events = drop k events).
    { unfold capSnapshot. now rewrite decide_True. }
    assert (Hk : (k < length events)%nat) by lia.
    assert (Hlen : Z.of_nat (length (drop k events)) = maxSnapshotEvents).
    { rewrite length_drop. lia. }
    rewrite Hcap.
    split; [exists (take k events); now rewrite take_drop|].
    split; [lia|]. split.
    + unfold capSnapshot. rewrite decide_False by lia. reflexivity.
    + unfold makeCursor. now rewrite last_drop.
  - assert (Hcap : capSnapshot events = events).
    { unfold capSnapshot. now rewrite decide_False. }
    rewrite !Hcap. split; [now exists []|]. split; [lia|]. split; reflexivity.
Qed.

End CursorProofs.

Variable RuntimePriority : list string.

Lemma prefix_colon (s : string) :
  String.prefix ":" s = match s with
                        | String c _ => bool_decide (c = ":"%char)
                        | EmptyString => false
                        end.
Proof.
  destruct s as [|c rest]; [reflexivity|].
  change (String.prefix ":" (String c rest))
    with (if ascii_dec ":" c then String.prefix "" rest else false).
  destruct (ascii_dec ":" c) as [<-|Hne].
  - rewrite bool_decide_true by reflexivity. now destruct rest.
  - rewrite bool_decide_false by congruence. reflexivity.
Qed.

Lemma cutIndex_cons (sep : string) (c : ascii) (s : string) :
  cutIndex sep (String c s)
  = if String.prefix sep (String c s)
    then Some (EmptyString, Agentio.dropStr (String.length sep) (String c s))
    else match cutIndex sep s with
         | Some (before, after) => Some (String c before, after)
         | None => None
         end.
Proof. reflexivity. Qed.

Lemma Contains_cons (c : ascii) (s sub : string) :
  Contains (String c s) sub = String.prefix sub (String c s) || Contains s sub.
Proof. reflexivity. Qed.

Lemma cutIndex_colon_app (a b : string) :
  Contains a ":" = false ->
  cutIndex ":" (a +:+ ":" +:+ b) = Some (a, b).
Proof.
  induction a as [|c a IH]; intros Hc.
  - change ("" +:+ ":" +:+ b) with (String ":" b).
    rewrite cutIndex_cons, prefix_colon, bool_decide_true by reflexivity.
    reflexivity.
  - rewrite Contains_cons in Hc. apply orb_false_iff in Hc as [Hp Hc].
    rewrite app_str_cons, cutIndex_cons.
    rewrite prefix_colon in Hp |- *. rewrite Hp. now rewrite (IH Hc).
Qed.

Lemma cutIndex_colon_inv (s a b : string) :
  cutIndex ":" s = Some (a, b) ->
  s = a +:+ ":" +:+ b /\ Contains a ":" = false.
Proof.
  revert a. induction s as [|c s IH]; intros a; [discriminate|].
  rewrite cutIndex_cons, prefix_colon.
  destruct (decide (c = ":"%char)) as [->|Hne].
  - rewrite bool_decide_true by reflexivity.
    intros [= <- <-]. split; reflexivity.
  - rewrite bool_decide_false by exact Hne.
    destruct (cutIndex ":" s) as [[a' b']|]; [|discriminate].
    intros [= <- <-]. destruct (IH a' eq_refl) as [-> Hc].
    split; [reflexivity|].
    rewrite Contains_cons, prefix_colon, bool_decide_false by exact Hne.
    exact Hc.
Qed.

(** X24 (extractAgentFromConvID). [extractAgentFromConvID] reads the agent back
    from an identifier runtime:agent:native whose runtime and agent hold no
    colon, whatever the native part holds, when the runtime is a known one, and
    gives the empty string when it is not; an identifier that is not of that
    form (fewer than two colons) gives the empty string. *)
Theorem extractAgentFromConvID_spec :
  (forall runtime agent native,
     Contains runtime ":" = false -> Contains agent ":" = false ->
     extractAgentFromConvID RuntimePriority
       (runtime +:+ ":" +:+ agent +:+ ":" +:+ native)
     = if bool_decide (runtime ∈ RuntimePriority) then agent else "")
  /\ (forall convID,
        (forall runtime agent native,
           convID <> runtime +:+ ":" +:+ agent +:+ ":" +:+ native) ->
        extractAgentFromConvID RuntimePriority convID = "").
Proof.
  split.
  - intros runtime agent native Hr Ha. unfold extractAgentFromConvID.
    change (SplitN ?s ":" 3) with
      (match cutIndex ":" s with
       | None => [s]
       | Some (before, after) =>
           before :: match cutIndex ":" after with
                     | None => [after]
                     | Some (before2, after2) => [before2; after2]
                     end
       end).
    rewrite (cutIndex_colon_app runtime _ Hr), (cutIndex_colon_app agent _ Ha).
    simpl. now destruct (bool_decide _).
  - intros convID Hno. unfold extractAgentFromConvID.
    change (SplitN convID ":" 3) with
      (match cutIndex ":" convID with
       | None => [convID]
       | Some (before, after) =>
           before :: match cutIndex ":" after with
                     | None => [after]
                     | Some (before2, after2) => [before2; after2]
                     end
       end).
    destruct (cutIndex ":" convID) as [[r rest]|] eqn:H1; [|reflexivity].
    destruct (cutIndex ":" rest) as [[a n]|] eqn:H2; [|reflexivity].
    apply cutIndex_colon_inv in H1 as [-> _].
    apply cutIndex_colon_inv in H2 as [-> _].
    now destruct (Hno r a n).
Qed.

End ProtocolProofs.

(** ** The tests of the protocol helpers *)
Section ProtocolTests.
Import Wsconv.

(** TestExtractAgentFromConvID, with the runtimes the test knows. *)
Example test_extract_agent :
  let known := ["claude"; "gemini"] in
  extractAgentFromConvID known "claude:myagent:abc123" = "myagent"
  /\ extractAgentFromConvID known "unknown:myagent:abc" = ""
  /\ extractAgentFromConvID known "justonepart" = ""
  /\ extractAgentFromConvID known "claude:myagent" = ""
  /\ extractAgentFromConvID known "gemini:agent1:id1" = "agent1".
Proof. vm_compute. repeat split. Qed.

(** TestSubID. *)
Example test_sub_id : subID 1 = "sub-1" /\ subID 42 = "sub-42".
Proof. vm_compute. split; reflexivity. Qed.

(** TestCapSnapshot, under the limit, and TestMakeCursor on no event. *)
Example test_cap_snapshot_small :
  length (capSnapshot [1; 2; 3; 4; 5]) = 5%nat
  /\ makeCursor (fun n : Z => n) (fun _ => "e") (fun _ => Some "cursor")
       "conv1" [] = "".
Proof. split; reflexivity. Qed.

End ProtocolTests.

(** ** The further theorems at concrete inputs *)
Section MoreWitnesses.
Import Vt VtTest Tmux TailFile PipeSync Stream PipeFrame.

Lemma stripANSI_renderRow_witness :
  let t := ttyOfRow 0 [cellOf "h" 0 1; cellOf "i" 0 1; blank;
                       cellOf "x" modeBold DefaultFG; blank; blank] in
  (forall x, 0 <= x <= findLastCol t 0 (Z.to_nat 80) ->
     Char (term_Cell t x 0) <> 27)
  /\ stripANSI (renderRow t 80 0) = "hi x".
Proof.
  intros t.
  assert (Hlc : findLastCol t 0 (Z.to_nat 80) = 3) by (vm_compute; reflexivity).
  assert (Hesc : forall x, 0 <= x <= findLastCol t 0 (Z.to_nat 80) ->
                   Char (term_Cell t x 0) <> 27).
  { intros x Hx. rewrite Hlc in Hx.
    assert (Hcase : x = 0 \/ x = 1 \/ x = 2 \/ x = 3) by lia.
    destruct Hcase as [->|[->|[->| ->]]]; vm_compute; discriminate. }
  split; [exact Hesc|].
  rewrite (stripANSI_renderRow t 80 0 Hesc). vm_compute. reflexivity.
Defined.

Lemma renderRow_unstyled_witness :
  let t := ttyWrite (mkTty ∅ (mkCursor 0 0)) "hello" in
  (forall x, 0 <= x <= findLastCol t 0 (Z.to_nat 80) ->
     penOf (term_Cell t x 0) = defaultPen)
  /\ renderRow t 80 0 = "hello".
Proof.
  intros t.
  assert (Hlc : findLastCol t 0 (Z.to_nat 80) = 4) by (vm_compute; reflexivity).
  assert (Hpen : forall x, 0 <= x <= findLastCol t 0 (Z.to_nat 80) ->
                   penOf (term_Cell t x 0) = defaultPen).
  { intros x Hx. rewrite Hlc in Hx.
    assert (Hcase : x = 0 \/ x = 1 \/ x = 2 \/ x = 3 \/ x = 4) by lia.
    destruct Hcase as [->|[->|[->|[->| ->]]]]; vm_compute; reflexivity. }
  split; [exact Hpen|].
  rewrite (proj1 (renderRow_unstyled t 80 0) Hpen). vm_compute. reflexivity.
Defined.

Lemma step_never_panics_witness :
  reachable subscribedWorld
  /\ exists w', step subscribedWorld OpStopAll = Some w' /\ reachable w'.
Proof.
  split; [exact subscribedWorld_reachable|].
  exact (step_never_panics subscribedWorld OpStopAll subscribedWorld_reachable).
Defined.

Lemma StopAll_clean_witness :
  reachable subscribedWorld
  /\ exists w', StopAll subscribedWorld = Some w' /\ streams w' = ∅.
Proof.
  split; [exact subscribedWorld_reachable|].
  destruct (StopAll_clean subscribedWorld subscribedWorld_reachable)
    as (w' & Hd & He & _).
  exists w'. split; [exact Hd | exact He].
Defined.

Lemma Subscribe_failure_witness :
  streams (NewPipePaneManager ∅ : World Tty) !! "agent-1" = None
  /\ exists w',
       Subscribe (NewPipePaneManager ∅ : World Tty) "agent-1" true false
       = Some (w', None)
       /\ streams w' = streams (NewPipePaneManager ∅ : World Tty).
Proof.
  split; [reflexivity|].
  destruct (Subscribe_failure (NewPipePaneManager ∅ : World Tty) "agent-1"
              false eq_refl) as [_ (w' & Hs & Hst & _)].
  exists w'. split; [exact Hs | exact Hst].
Defined.

Lemma Unsubscribe_idempotent_witness :
  reachable subscribedWorld
  /\ exists w1,
       Unsubscribe subscribedWorld "agent-1" 0%nat = Some w1
       /\ Unsubscribe w1 "agent-1" 0%nat = Some w1.
Proof.
  split; [exact subscribedWorld_reachable|].
  destruct (Unsubscribe_Inv subscribedWorld "agent-1" 0%nat
              (reachable_Inv subscribedWorld subscribedWorld_reachable))
    as (w1 & Hu & _).
  exists w1. split; [exact Hu|].
  exact (Unsubscribe_idempotent subscribedWorld w1 "agent-1" 0%nat
           subscribedWorld_reachable Hu).
Defined.

Lemma Subscribe_Unsubscribe_witness :
  reachable subscribedWorld
  /\ exists w1 ch snap w2,
       Subscribe subscribedWorld "agent-1" true true = Some (w1, Some (ch, snap))
       /\ Unsubscribe w1 "agent-1" ch = Some w2
       /\ pipes w2 = pipes subscribedWorld.
Proof.
  split; [exact subscribedWorld_reachable|].
  destruct (Subscribe_Unsubscribe subscribedWorld "agent-1"
              subscribedWorld_reachable) as (w1 & ch & snap & w2 & Hs & Hu & Hp & _).
  exists w1, ch, snap, w2. split; [exact Hs|]. split; [exact Hu | exact Hp].
Defined.

Lemma readTurns_pending_witness :
  screen_wf typedScreen
  /\ exists scr' pending,
       readTurns typedScreen None ["x"; ""] = Some (scr', pending)
       /\ screen_wf scr'.
Proof.
  split; [reflexivity|].
  destruct (readTurns_pending typedScreen ["x"; ""] eq_refl)
    as (scr' & pending & Hrun & Hwf & _).
  exists scr', pending. split; [exact Hrun | exact Hwf].
Defined.

Lemma flush_spec_witness :
  reachable subscribedWorld
  /\ exists bufs',
       flush subscribedWorld "agent-1" (Some (mkUpdate {[0 := "x"]} 0 1)) ∅
       = Some bufs'.
Proof.
  split; [exact subscribedWorld_reachable|].
  destruct (flush_spec subscribedWorld "agent-1" (mkUpdate {[0 := "x"]} 0 1) ∅
              subscribedWorld_reachable) as (bufs' & Hf & _).
  exists bufs'. exact Hf.
Defined.

Lemma Subscribe_joins_witness :
  reachable subscribedWorld
  /\ exists st,
       streams subscribedWorld !! "agent-1" = Some st
       /\ exists w' ch snap,
            Subscribe subscribedWorld "agent-1" true true
            = Some (w', Some (ch, snap))
            /\ (ch ∉ subscribers st).
Proof.
  split; [exact subscribedWorld_reachable|].
  assert (Hst : exists st, streams subscribedWorld !! "agent-1" = Some st).
  { eexists. vm_compute. reflexivity. }
  destruct Hst as [st Hst]. exists st. split; [exact Hst|].
  destruct (Subscribe_joins subscribedWorld "agent-1" st true true
              subscribedWorld_reachable Hst)
    as (w' & ch & snap & st' & Hs & Hnin & _).
  exists w', ch, snap. split; [exact Hs | exact Hnin].
Defined.

Lemma Write_then_Snapshot_witness :
  screen_wf typedScreen
  /\ exists s' r snap,
       Write typedScreen "x" = Some (s', r) /\ Snapshot s' = Some (s', snap).
Proof.
  split; [reflexivity|].
  destruct (Write_then_Snapshot typedScreen "x" eq_refl)
    as (s' & r & snap & Hw & Hs & _).
  exists s', r, snap. split; [exact Hw | exact Hs].
Defined.

Lemma snapshot_then_updates_witness :
  let pending := Some (mkUpdate {[0 := "hello"]} 0 5) in
  screen_wf typedScreen
  /\ current typedScreen pending
  /\ exists scr0 snap scr' updates,
       Snapshot typedScreen = Some (scr0, snap)
       /\ tailTicks scr0 pending [["x"; ""]; []; ["y"]] = Some (scr', updates).
Proof.
  intros pending.
  assert (Hcur : current typedScreen pending).
  { intros y row Hl. simpl in Hl.
    apply lookup_singleton_Some in Hl as [<- <-].
    split; [simpl; lia | vm_compute; reflexivity]. }
  split; [reflexivity|]. split; [exact Hcur|].
  destruct (snapshot_then_updates typedScreen pending [["x"; ""]; []; ["y"]]
              eq_refl Hcur)
    as (scr0 & snap & scr' & updates & Hs & Ht & _).
  exists scr0, snap, scr', updates. split; [exact Hs | exact Ht].
Defined.

Lemma active_stream_resources_witness :
  reachable subscribedWorld
  /\ exists st,
       streams subscribedWorld !! "agent-1" = Some st
       /\ filePath st ∈ files subscribedWorld
       /\ subscribers st <> ∅.
Proof.
  split; [exact subscribedWorld_reachable|].
  assert (Hst : exists st, streams subscribedWorld !! "agent-1" = Some st).
  { eexists. vm_compute. reflexivity. }
  destruct Hst as [st Hst]. exists st. split; [exact Hst|].
  destruct (active_stream_resources subscribedWorld "agent-1" st
              subscribedWorld_reachable Hst) as (_ & _ & Hf & _ & Hne & _).
  split; [exact Hf | exact Hne].
Defined.

Lemma session_isolation_witness :
  reachable subscribedWorld
  /\ opSession (OpUnsubscribe "agent-1" 0%nat) = Some "agent-1"
  /\ "agent-2" <> "agent-1"
  /\ exists w',
       step subscribedWorld (OpUnsubscribe "agent-1" 0%nat) = Some w'
       /\ streams w' !! "agent-2" = streams subscribedWorld !! "agent-2".
Proof.
  split; [exact subscribedWorld_reachable|]. split; [reflexivity|].
  split; [discriminate|].
  destruct (step_Inv subscribedWorld (OpUnsubscribe "agent-1" 0%nat)
              (reachable_Inv subscribedWorld subscribedWorld_reachable))
    as (w' & Hstep & _).
  exists w'. split; [exact Hstep|].
  destruct (session_isolation subscribedWorld w' (OpUnsubscribe "agent-1" 0%nat)
              "agent-1" "agent-2" subscribedWorld_reachable eq_refl
              ltac:(discriminate) Hstep) as [Hs _].
  exact Hs.
Defined.

Lemma Subscribe_first_witness :
  reachable (NewPipePaneManager ∅ : World Tty)
  /\ streams (NewPipePaneManager ∅ : World Tty) !! "agent-1" = None
  /\ exists w' ch snap,
       Subscribe (NewPipePaneManager ∅ : World Tty) "agent-1" true true
       = Some (w', Some (ch, snap))
       /\ pipes w' = {[ "agent-1" ]} ∪ ∅.
Proof.
  split; [apply reach_new|]. split; [reflexivity|].
  destruct (Subscribe_first (NewPipePaneManager ∅ : World Tty) "agent-1"
              (reach_new ∅) eq_refl)
    as (w' & ch & snap & st & scr0 & Hs & _ & _ & _ & _ & _ & _ & _ & _ & _
        & _ & _ & _ & Hp & _).
  exists w', ch, snap. split; [exact Hs | exact Hp].
Defined.

Lemma Unsubscribe_subscriber_witness :
  reachable subscribedWorld
  /\ exists st ch,
       streams subscribedWorld !! "agent-1" = Some st
       /\ ch ∈ subscribers st
       /\ exists w',
            Unsubscribe subscribedWorld "agent-1" ch = Some w'
            /\ closed w' = {[ch]} ∪ closed subscribedWorld.
Proof.
  split; [exact subscribedWorld_reachable|].
  assert (Hst : exists st, streams subscribedWorld !! "agent-1" = Some st).
  { eexists. vm_compute. reflexivity. }
  destruct Hst as [st Hst].
  destruct (reachable_Inv subscribedWorld subscribedWorld_reachable) as [_ Hsub].
  destruct (set_choose_L (subscribers st) (Hsub "agent-1" st Hst)) as [ch Hch].
  exists st, ch. split; [exact Hst|]. split; [exact Hch|].
  destruct (Unsubscribe_subscriber subscribedWorld "agent-1" st ch
              subscribedWorld_reachable Hst Hch) as (w' & Hu & Hc & _).
  exists w'. split; [exact Hu | exact Hc].
Defined.

End MoreWitnesses.

(** ** The theorems on the converter at concrete inputs *)
Section WsconvWitnesses.
Import Wsbase Filters Wsconv.

Lemma broadcastAgentLifecycle_spec_witness :
  let clients : gmap nat Client := {[ 1%nat := mkClient [] true None None ]} in
  clients !! 1%nat = Some (mkClient [] true None None)
  /\ exists c',
       broadcastAgentLifecycle (fun m => Some (mType m)) 3 clients
         (mkWatcherEvent "agent-added" (Some (mkAgent "agent-1" "claude" "/w" true)))
         !! 1%nat = Some c'
       /\ send c' = [mkOutMsg MessageText "agents-count";
                     mkOutMsg MessageText "agent-added"].
Proof.
  intros clients. split; [reflexivity|].
  destruct (broadcastAgentLifecycle_spec (fun m => Some (mType m)) 3 clients
              (mkWatcherEvent "agent-added"
                 (Some (mkAgent "agent-1" "claude" "/w" true)))
              1%nat (mkClient [] true None None) eq_refl)
    as (c' & added & Hl & _ & _ & _ & Hsend & _ & _ & Hadded).
  exists c'. split; [exact Hl|].
  rewrite Hsend.
  rewrite (Hadded eq_refl ltac:(vm_compute; lia) "agents-count" "agent-added"
             eq_refl eq_refl).
  reflexivity.
Defined.

Lemma lifecycle_matches_listing_witness :
  let compile : string -> Regexp + string := fun _ => inr "bad" in
  let agent := mkAgent "agent-1" "claude" "/w" true in
  let marshal : serverMessage -> option string := fun m => Some (mType m) in
  CompileSessionFilters compile "" "" = (None, None, None)
  /\ aName agent ∈ aName <$> [agent]
  /\ send (lifecycleTo marshal 1 (mkWatcherEvent "agent-updated" (Some agent))
             (handleSubscribeAgents marshal compile [agent] (fun _ => "") 1
                freshClient (mkClientMessage "7" "" "")))
     = [mkOutMsg MessageText "subscribe-agents";
        mkOutMsg MessageText "agent-updated"].
Proof.
  intros compile agent marshal.
  assert (Hin : aName agent ∈ aName <$> [agent]).
  { simpl. constructor. }
  split; [reflexivity|]. split; [exact Hin|].
  rewrite (lifecycle_matches_listing marshal compile [agent] (fun _ => "") 1
             freshClient (mkClientMessage "7" "" "") None None agent
             "agent-updated" eq_refl Hin).
  vm_compute. reflexivity.
Defined.

End WsconvWitnesses.

